(** * A shallow embedding of [src/puppeteer.ts]

    The crawler drives one browser page through a handful of small
    service classes that all push records on one shared array, the
    crawling state.  This file embeds the classes as functions over an
    explicit session state and proves the properties the specification
    states about them.

    Conventions.
    - A JavaScript string is a [string] (a sequence of bytes; an ASCII
      character is one byte, which is all the source's own literals use).
    - A JavaScript number that the code only ever uses as an integer
      (an index, a scroll extent, a byte length, a page number) is a [Z];
      [NaN] is the [None] of an [option Z].
    - A value that can be thrown is an [Outcome]: [Returns v] or
      [Throws msg] with the message of the [Error].
    - The browser is not part of the repository: it is a parameter, a
      function that answers each request from the history of the
      requests made so far (record [Browser]). *)

From Stdlib Require Import ZArith Ascii String List Lia Bool.
From stdpp Require Import base option list gmap strings.

Set Warnings "-register-all".
Local Open Scope Z_scope.

(** ** Outcomes of calls that may throw (or promises that may reject) *)

Inductive Outcome (A : Type) : Type :=
| Returns (a : A)
| Throws (msg : string).
Arguments Returns {A} a.
Arguments Throws {A} msg.

(** [p.catch(h)]: a fulfilled promise skips [h]. *)
Definition promise_catch {A} (p : Outcome A) (h : string → Outcome A) : Outcome A :=
  match p with
  | Returns a => Returns a
  | Throws e => h e
  end.

(** ** JSON values, as [import(path, { with: { type: "json" } })] yields them *)

Inductive Json : Type :=
| JNull
| JBool (b : bool)
| JNum (n : Z)
| JStr (s : string)
| JArr (items : list Json)
| JObj (fields : list (string * Json)).

(** [typeof v === "object"]: true of objects, arrays and [null]. *)
Definition typeof_object (v : Json) : bool :=
  match v with
  | JNull | JArr _ | JObj _ => true
  | _ => false
  end.

Fixpoint assoc (k : string) (fields : list (string * Json)) : option Json :=
  match fields with
  | [] => None
  | (k', v) :: rest => if String.eqb k k' then Some v else assoc k rest
  end.

(** [key in v], for a [v] whose [typeof] is ["object"] and a [key] that
    is no array index: on [null] the operator throws a [TypeError]; of
    such keys an array has [length] only. *)
Definition js_in (key : string) (v : Json) : Outcome bool :=
  match v with
  | JObj fields => Returns (bool_decide (is_Some (assoc key fields)))
  | JArr _ => Returns (bool_decide (key = "length"))
  | _ => Throws "TypeError: Cannot use 'in' operator"
  end.

(** [v[key]]; [undefined] is rendered as [JNull]. *)
Definition js_get (key : string) (v : Json) : Json :=
  match v with
  | JObj fields => default JNull (assoc key fields)
  | _ => JNull
  end.

(** What [for (const x of v)] iterates over: the items of an array, the
    characters of a string; anything else is not iterable. *)
Definition js_iterate (v : Json) : Outcome (list Json) :=
  match v with
  | JArr items => Returns items
  | JStr s => Returns (map (λ c, JStr (String c EmptyString)) (list_ascii_of_string s))
  | _ => Throws "TypeError: not iterable"
  end.

(** ** [CookiesService.loadCookiesFromStorage] *)

(** The files the dynamic [import] can see: [None] when the import
    rejects (no such file, or its content is not JSON). *)
Definition Storage := string → option Json.

Definition import_json (fs : Storage) (path : string) : Outcome Json :=
  match fs path with
  | Some v => Returns v
  | None => Throws "ERR_MODULE_NOT_FOUND"
  end.

(** The [for ... of] loop of the [then] callback, over the local
    variable [cookies] of the enclosing method: the loop assigns it once,
    right before its [break]. *)
Fixpoint scan_logs (cookies : Json) (logs : list Json) : Json * Outcome Json :=
  match logs with
  | [] => (cookies, Returns JNull)
  | log :: rest =>
      if typeof_object log then
        match js_in "CookiesService" log with
        | Returns true => (js_get "CookiesService" log, Returns JNull)
        | Returns false => scan_logs cookies rest
        | Throws e => (cookies, Throws e)
        end
      else scan_logs cookies rest
  end.

(** [import(path, …).then(callback)] *)
Definition import_then_scan (fs : Storage) (path : string) (cookies : Json)
  : Json * Outcome Json :=
  match import_json fs path with
  | Returns output =>
      match js_iterate output with
      | Returns logs => scan_logs cookies logs
      | Throws e => (cookies, Throws e)
      end
  | Throws e => (cookies, Throws e)
  end.

Definition loadCookiesFromStorage (fs : Storage) (path : string) : Outcome Json :=
  let cookies := JArr [] in
  let '(cookies, chain) := import_then_scan fs path cookies in
  match promise_catch chain (λ _, Returns (JArr [])) with
  | Returns _ => Returns cookies
  | Throws e => Throws e
  end.

(** ** [Array.prototype.sort], as the engine of the driven browser has it

    The page scripts run in Chrome, whose engine sorts with TimSort: it
    cuts the array into runs, makes short runs longer by binary
    insertion, and merges the runs.  The comparator is always asked
    about a later element against an earlier one, and only a negative
    answer moves anything.  Galloping and the order in which pending
    runs are merged (which matter for speed only when the comparator is
    a consistent one) are left out: pending runs are merged from the
    most recent one downwards. *)

Section Sort.
Context {A : Type} (comparefn : A → A → Z).

(** How far the run that ends in [previous] goes on into [l]. *)
Fixpoint run_extent (descending : bool) (previous : A) (l : list A) : nat :=
  match l with
  | [] => 0%nat
  | current :: rest =>
      let order := comparefn current previous in
      if bool_decide (descending = (order <? 0))
      then S (run_extent descending current rest)
      else 0%nat
  end.

(** The run at the head of [l] (put in ascending order if it was a
    strictly descending one) and what follows it. *)
Definition count_and_make_run (l : list A) : list A * list A :=
  match l with
  | [] => ([], [])
  | [x] => ([x], [])
  | x0 :: x1 :: rest =>
      let descending := comparefn x1 x0 <? 0 in
      let n := (2 + run_extent descending x1 rest)%nat in
      ((if descending then reverse (take n l) else take n l), drop n l)
  end.

Fixpoint binary_search (steps : nat) (pivot : A) (sorted : list A)
    (left right : nat) : nat :=
  match steps with
  | O => left
  | S steps =>
      if (left <? right)%nat then
        let mid := (left + (right - left) / 2)%nat in
        match sorted !! mid with
        | Some m =>
            if comparefn pivot m <? 0
            then binary_search steps pivot sorted left mid
            else binary_search steps pivot sorted (S mid) right
        | None => left
        end
      else left
  end.

Definition insert_pivot (sorted : list A) (pivot : A) : list A :=
  let at_ := binary_search (S (length sorted)) pivot sorted 0 (length sorted) in
  take at_ sorted ++ pivot :: drop at_ sorted.

Definition binary_insertion_sort (sorted pending : list A) : list A :=
  fold_left insert_pivot pending sorted.

(** Merging two neighbouring runs: the head of the right run goes
    first only if it compares negative against the head of the left. *)
Fixpoint merge_runs (left right : list A) : list A :=
  let fix into (right : list A) : list A :=
    match left, right with
    | [], _ => right
    | _, [] => left
    | a :: left', b :: right' =>
        if comparefn b a <? 0 then b :: into right'
        else a :: merge_runs left' right
    end in
  into right.

(** The pending runs, most recent first, merged into one. *)
Definition merge_force_collapse (pending : list (list A)) : list A :=
  fold_left (λ merged run, merge_runs run merged) pending [].

Fixpoint compute_min_run_length (steps : nat) (n r : nat) : nat :=
  match steps with
  | O => (n + r)%nat
  | S steps =>
      if (64 <=? n)%nat
      then compute_min_run_length steps (n / 2) (Nat.lor r (n mod 2))
      else (n + r)%nat
  end.

Fixpoint collect_runs (steps : nat) (minrun : nat) (pending : list (list A))
    (remaining : list A) : list (list A) :=
  match steps, remaining with
  | O, _ | _, [] => pending
  | S steps, _ =>
      let '(run, rest) := count_and_make_run remaining in
      let forced := (Nat.min minrun (length remaining) - length run)%nat in
      let run := binary_insertion_sort run (take forced rest) in
      collect_runs steps minrun (run :: pending) (drop forced rest)
  end.

Definition js_sort (l : list A) : list A :=
  if (length l <? 2)%nat then l
  else
    let minrun := compute_min_run_length (length l) (length l) 0 in
    merge_force_collapse (collect_runs (length l) minrun [] l).
End Sort.

(** ** The built-ins of the engine that the pagination script calls

    The script runs in the page: [new URL], [new URLSearchParams],
    [toLocaleLowerCase], [trim] and [parseInt] are those of the page's
    engine, in its locale, as the page's own scripts have left them.
    They are parameters of the model; what a theorem needs of them is
    among its hypotheses. *)

(** What the script reads of a URL object. *)
Record URL : Type := { protocol : string; search : string }.

(** The numbers that [parseInt] can return ([-0] counts as [0]). *)
Inductive Number : Type :=
| NaN
| Integer (n : Z)
| PlusInfinity
| MinusInfinity.

Record Engine : Type := {
  new_URL : string → Outcome URL;                     (* [new URL(url)] *)
  URLSearchParams : string → list (string * string);  (* the pairs, in order *)
  toLocaleLowerCase : string → string;
  trim : string → string;
  parseInt : string → Number                          (* [parseInt(s, 10)] *)
}.

(** [String.prototype.startsWith] and [endsWith] *)
Definition startsWith (s search : string) : bool := String.prefix search s.

Definition endsWith (s search : string) : bool :=
  String.prefix (String.rev search) (String.rev s).

(** ** A stand-in for the engine, for the fixtures

    These functions read ASCII text and plain addresses (a scheme, a
    host, a path, a query) as an engine does: white space is tab, line
    feed, vertical tab, form feed, carriage return and space, letters
    are A to Z, and of an address only the scheme and the presence of a
    host are looked at.  They stand for the engine on the pages of the
    fixtures and nowhere else. *)
Module Plain.

Definition is_space (c : ascii) : bool :=
  let n := nat_of_ascii c in
  ((9 <=? n) && (n <=? 13) || (n =? 32))%nat.

Fixpoint trim_start (s : string) : string :=
  match s with
  | String c rest => if is_space c then trim_start rest else s
  | EmptyString => EmptyString
  end.

Definition trim (s : string) : string :=
  String.rev (trim_start (String.rev (trim_start s))).

Definition digit_of (c : ascii) : option Z :=
  let n := nat_of_ascii c in
  if ((48 <=? n) && (n <=? 57))%nat then Some (Z.of_nat n - 48) else None.

(** The value of the longest prefix of decimal digits; [acc] is the
    value read so far, [None] while no digit has been read. *)
Fixpoint digits (acc : option Z) (s : string) : option Z :=
  match s with
  | String c rest =>
      match digit_of c with
      | Some d => digits (Some (10 * default 0 acc + d)) rest
      | None => acc
      end
  | EmptyString => acc
  end.

Definition parseInt (s : string) : Number :=
  match match trim_start s with
        | String "-" rest => Z.opp <$> digits None rest
        | String "+" rest => digits None rest
        | rest => digits None rest
        end with
  | Some n => Integer n
  | None => NaN
  end.

Definition lower (c : ascii) : ascii :=
  let n := nat_of_ascii c in
  if ((65 <=? n) && (n <=? 90))%nat then ascii_of_nat (n + 32) else c.

Fixpoint toLocaleLowerCase (s : string) : string :=
  match s with
  | String c rest => String (lower c) (toLocaleLowerCase rest)
  | EmptyString => EmptyString
  end.

Definition is_alpha (c : ascii) : bool :=
  let n := nat_of_ascii (lower c) in ((97 <=? n) && (n <=? 122))%nat.

Definition is_scheme_char (c : ascii) : bool :=
  is_alpha c || bool_decide (is_Some (digit_of c))
  || bool_decide (c ∈ ["+"; "-"; "."]%char).

(** The scheme, in lower case, and what follows its colon. *)
Fixpoint split_scheme (s : string) : option (string * string) :=
  match s with
  | EmptyString => None
  | String c rest =>
      if bool_decide (c = ":"%char) then Some (EmptyString, rest)
      else if is_scheme_char c then
        (λ '(scheme, rest), (String (lower c) scheme, rest)) <$> split_scheme rest
      else None
  end.

(** [s] up to the first character that satisfies [stop], and the rest
    from that character on. *)
Fixpoint break_at (stop : ascii → bool) (s : string) : string * string :=
  match s with
  | EmptyString => (EmptyString, EmptyString)
  | String c rest =>
      if stop c then (EmptyString, s)
      else let '(before, after) := break_at stop rest in (String c before, after)
  end.

Fixpoint drop_while (skip : ascii → bool) (s : string) : string :=
  match s with
  | String c rest => if skip c then drop_while skip rest else s
  | EmptyString => EmptyString
  end.

Fixpoint remove_chars (skip : ascii → bool) (s : string) : string :=
  match s with
  | String c rest =>
      if skip c then remove_chars skip rest else String c (remove_chars skip rest)
  | EmptyString => EmptyString
  end.

Definition is_c0_or_space (c : ascii) : bool := (nat_of_ascii c <=? 32)%nat.
Definition is_tab_or_newline (c : ascii) : bool :=
  bool_decide (nat_of_ascii c ∈ [9; 10; 13]%nat).
Definition is_slash (c : ascii) : bool := bool_decide (c ∈ ["/"; "\"]%char).

Definition needs_host (scheme : string) : bool :=
  bool_decide (scheme ∈ ["http"; "https"; "ws"; "wss"; "ftp"]).

Definition new_URL (input : string) : Outcome URL :=
  let input := String.rev (drop_while is_c0_or_space
                 (String.rev (drop_while is_c0_or_space input))) in
  let input := remove_chars is_tab_or_newline input in
  match input with
  | EmptyString => Throws "TypeError: Invalid URL"
  | String c _ =>
      if is_alpha c then
        match split_scheme input with
        | None => Throws "TypeError: Invalid URL"
        | Some (scheme, rest) =>
            let '(before_fragment, _) := break_at (λ c, bool_decide (c = "#"%char)) rest in
            let '(hier, query) := break_at (λ c, bool_decide (c = "?"%char)) before_fragment in
            let '(host, _) := break_at is_slash (drop_while is_slash hier) in
            if needs_host scheme && bool_decide (host = EmptyString)
            then Throws "TypeError: Invalid URL"
            else Returns {| protocol := scheme +:+ ":";
                            search := if bool_decide (query = "?") then "" else query |}
        end
      else Throws "TypeError: Invalid URL"
  end.

Definition hex_of (c : ascii) : option nat :=
  let n := nat_of_ascii (lower c) in
  if ((48 <=? n) && (n <=? 57))%nat then Some (n - 48)%nat
  else if ((97 <=? n) && (n <=? 102))%nat then Some (n - 87)%nat
  else None.

(** Form decoding of a name or a value: [+] is a space, [%XY] the byte
    with that code. *)
Fixpoint form_decode (s : string) : string :=
  match s with
  | String "+" rest => String " " (form_decode rest)
  | String "%" (String x (String y rest) as tail) =>
      match hex_of x, hex_of y with
      | Some h, Some l => String (ascii_of_nat (16 * h + l)) (form_decode rest)
      | _, _ => String "%" (form_decode tail)
      end
  | String c rest => String c (form_decode rest)
  | EmptyString => EmptyString
  end.

(** The [&]-separated pieces of a query. *)
Fixpoint split_pairs (piece : string) (s : string) : list string :=
  match s with
  | EmptyString => [String.rev piece]
  | String "&" rest => String.rev piece :: split_pairs EmptyString rest
  | String c rest => split_pairs (String c piece) rest
  end.

Definition parse_pair (piece : string) : string * string :=
  let '(name, value) := break_at (λ c, bool_decide (c = "="%char)) piece in
  (form_decode name,
   form_decode (match value with String _ v => v | EmptyString => EmptyString end)).

(** The pairs of [new URLSearchParams(search)], in order. *)
Definition URLSearchParams (search : string) : list (string * string) :=
  let query := match search with String "?" q => q | q => q end in
  map parse_pair (filter (λ piece, piece ≠ EmptyString) (split_pairs EmptyString query)).

Definition engine : Engine :=
  Build_Engine new_URL URLSearchParams toLocaleLowerCase trim parseInt.

End Plain.

(** ** What a page script sees of the page *)

Inductive Direction : Type := vertical | horizontal | both.

Record Element : Type := { scrollWidth : Z; scrollHeight : Z }.

(** An anchor of the document.  [node] is the identity of the DOM node:
    [===] on two elements compares nothing else. *)
Record Anchor : Type := {
  node : nat;
  textContent : option string;
  href : string;
  in_pagination : bool   (* matched by the selector ["#pagination a"] *)
}.

(** The page at one moment, as far as the services look at it. *)
Record Page : Type := {
  querySelector : string → option Element;
  anchors : list Anchor;              (* [document.querySelectorAll("a")] *)
  origin : string;                    (* [window.location.origin] *)
  title : string;
  url : string;
  metas : list (string * string);     (* name and content of each [<meta>] *)
  outerHTML : string;                 (* [document.body.outerHTML] *)
  cookies : list Json;
  metrics : Json;
  screenshot_byteLength : Z;
  engine : Engine                     (* the built-ins that its scripts find *)
}.

(** [elements.indexOf(x)], with [same] for [===]. *)
Fixpoint indexOf_from {A} (same : A → A → bool) (from : Z) (elements : list A) (x : A) : Z :=
  match elements with
  | [] => -1
  | e :: rest => if same e x then from else indexOf_from same (from + 1) rest x
  end.

Definition indexOf {A} (same : A → A → bool) (elements : list A) (x : A) : Z :=
  indexOf_from same 0 elements x.

Definition same_node (a b : Anchor) : bool := (node a =? node b)%nat.

(** ** The two scripts of [PaginationService.discover] *)

(** An entry of [pages]; [props] is [None] ([null]) when the [href] is
    no URL. *)
Record PageLink : Type := {
  page : Number;
  link : string;                      (* the property [href] *)
  pos : Z;
  props : option (gmap string string)
}.

(** [paramsObj[name] = value] on an object made by [{}], for a string
    [value]: the name ["__proto__"] is the accessor of
    [Object.prototype], whose setter ignores a value that is no object;
    every other name becomes, or stays, a property of the object. *)
Definition assign (name value : string) (paramsObj : gmap string string)
  : gmap string string :=
  if String.eqb name "__proto__" then paramsObj else <[name := value]> paramsObj.

Definition _extractParams (e : Engine) (url : string) : option (gmap string string) :=
  match new_URL e url with
  | Returns urlObj =>
      Some (fold_left
              (λ paramsObj '(key, value), assign (toLocaleLowerCase e key) value paramsObj)
              (URLSearchParams e (search urlObj)) ∅)
  | Throws _ => None
  end.

(** The callback of [map]. *)
Definition page_link (e : Engine) (elements : list Anchor) (_hrefElement : Anchor)
  : PageLink :=
  {| page := parseInt e (match textContent _hrefElement with
                         | Some text => trim e text
                         | None => "0"
                         end);
     link := href _hrefElement;
     pos := indexOf same_node elements _hrefElement;
     props := _extractParams e (href _hrefElement) |}.

(** [page >= 0] *)
Definition not_negative (n : Number) : bool :=
  match n with
  | Integer n => 0 <=? n
  | PlusInfinity => true
  | NaN | MinusInfinity => false
  end.

(** The callback of [filter]: [page >= 0 && href.trim() !== ""]. *)
Definition kept (e : Engine) (entry : PageLink) : bool :=
  not_negative (page entry) && negb (String.eqb (trim e (link entry)) "").

(** What the [filter] hands to the [sort]. *)
Definition filtered_links (p : Page) : list PageLink :=
  let elements := filter in_pagination (anchors p) in
  filter (kept (engine p)) (map (page_link (engine p) elements) elements).

Definition discover_pages (p : Page) : list PageLink :=
  js_sort (λ v _, pos v) (filtered_links p).

(** A [Set] of strings: its members in insertion order. *)
Definition set_add (set : list string) (x : string) : list string :=
  if bool_decide (x ∈ set) then set else set ++ [x].

Definition discover_links (p : Page) : list string :=
  fold_left set_add
    (filter (λ h, startsWith h (origin p) && endsWith h ".aspx")
       (map href (anchors p)))
    [].

(** The script of [MetricsService.getResults]. *)
Definition meta_tags (p : Page) : list (string * string) :=
  filter (λ m, (0 <? String.length (fst m))%nat) (metas p).

(** ** The script that measures, in [ScrollService.scroll]

    The same arrow function is written out twice in the source, before
    the loop and at the end of its body. *)
Definition measured_extent (dir : Direction) (element : Element) : Z :=
  match dir with
  | horizontal | both => scrollWidth element
  | vertical => scrollHeight element
  end.

(** ** The event log *)

Record GoToOptions : Type := { waitUntil : option string; timeout : option Z }.

Record HTTPRequest : Type := {
  request_method : string;
  request_url : string;
  resourceType : string;
  request_headers : Json;
  initiator : Json
}.

Record HTTPResponse : Type := {
  ok : bool;
  status : Z;
  statusText : string;
  response_url : string;
  remoteAddress : Json;
  fromCache : bool;
  response_headers : Json;
  text : Outcome string              (* how [response.text()] settles *)
}.

(** The data the services and listeners push. *)
Inductive Value : Type :=
| VString (s : string)
| VCookie (cookie : Json)
| VScreenshot (path : string) (size : Z)
| VDiscovery (links : list string) (pages : list PageLink)
| VNavigation (url : string) (options : GoToOptions)
| VMetadata (title url : string) (meta : list (string * string)) (metrics : Json)
| VScroll (selector : string) (direction : Direction)
| VRequest (r : HTTPRequest) (aborted : bool)
| VResponse (r : HTTPResponse) (content : option string).

(** The record [{ [this.constructor.name]: data }]. *)
Record EventRecord : Type := { sourceName : string; payload : list Value }.

Definition CrawlingState := list EventRecord.

(** ** The browser *)

Record Options : Type := {
  browserWSEndpoint : option string;
  executablePath : option string;
  ignoreHTTPSErrors : option bool
}.

(** The functions that [page.evaluate] sends to the page. *)
Inductive Script : Type :=
| ClickById (id : string)
| ExtractPages
| ExtractLinks
| ExtractMeta
| MeasureExtent (selector : string) (dir : Direction)
| ScrollElement (selector : string) (dir : Direction)
| RandomDelay
| BodyOuterHTML.

(** The argument of [element.scrollTo]; the behaviour is always
    ["smooth"]. *)
Inductive ScrollToOptions : Type :=
| scroll_left (left : Z)
| scroll_top (top : Z).

(** What the program asks of the driver, and what its scripts do to the
    page. *)
Inductive Request : Type :=
| Connect (options : Options)
| Launch (options : Options)
| NewPage
| SetRequestInterception (value : bool)
| Screenshot (fullPage : bool) (path : string)
| SetCookie (cookies : list Json)
| Cookies
| WaitForSelector (selector : string) (timeout : option Z)
| Evaluate (script : Script)
| ElementScrollTo (selector : string) (options : ScrollToOptions)
| Click (selector : string)
| Goto (url : string) (options : GoToOptions)
| Title
| Metrics
| WaitForNavigation (waitUntil : string)
| ClosePage
| CloseBrowser
| RequestAbort (r : HTTPRequest)
| RequestContinue (r : HTTPRequest)
| ResponseText (r : HTTPResponse).

(** What sets a handler of a listener going: a page emits ["request"] or
    ["response"], or the promise of a [response.text()] settles, the
    one that was asked for at the position [read] of the history. *)
Inductive NetEvent : Type :=
| request_event (r : HTTPRequest)
| response_event (r : HTTPResponse)
| text_event (read : nat).

Definition History := list Request.

(** The browser answers a request from the history of the requests made
    before it: [view] is the page as its scripts find it then,
    [rejects] the error with which the awaited promise rejects, if it
    does, and [traffic] what happens on the network while the program
    waits, each event with the handle of the page it happens on.  No
    condition is put on [traffic]: it may let a body settle that was
    never asked for, or settle one twice, and the theorems hold of such
    a browser too. *)
Record Browser : Type := {
  view : History → Page;
  rejects : History → Request → option string;
  traffic : History → Request → list (nat * NetEvent)
}.

(** ** The session *)

Inductive Listener : Type := RequestInterceptorListener | ResponseInterceptorListener.

(** An instance of a listener class: its [page] and its class; its
    [_state] is the log of the session. *)
Record RequestListener : Type := { listener_page : nat; listener_class : Listener }.

(** The fields of [BrowserManager], the requests made so far, and the
    listeners that have registered a handler with [page.on], each on
    its own page.  The services and listeners all hold the one array
    [_state]: there is one log in a session. *)
Record Session : Type := {
  _page : option nat;
  _browser : option nat;
  _state : CrawlingState;
  history : History;
  attached : list RequestListener
}.

(** [new BrowserManager()] *)
Definition new_BrowserManager : Session :=
  {| _page := None; _browser := None; _state := []; history := []; attached := [] |}.

Definition push (record : EventRecord) (s : Session) : Session :=
  {| _page := _page s; _browser := _browser s; _state := _state s ++ [record];
     history := history s; attached := attached s |}.

Definition asked (r : Request) (s : Session) : Session :=
  {| _page := _page s; _browser := _browser s; _state := _state s;
     history := history s ++ [r]; attached := attached s |}.

Definition listening (l : RequestListener) (s : Session) : Session :=
  {| _page := _page s; _browser := _browser s; _state := _state s;
     history := history s; attached := attached s ++ [l] |}.

Definition with_browser (b : nat) (s : Session) : Session :=
  {| _page := _page s; _browser := Some b; _state := _state s;
     history := history s; attached := attached s |}.

Definition with_page (p : nat) (s : Session) : Session :=
  {| _page := Some p; _browser := _browser s; _state := _state s;
     history := history s; attached := attached s |}.

(** How a call ends.  [Unfinished]: the scroll loop is still running
    after the iterations allotted to it. *)
Inductive Run (A : Type) : Type :=
| Returned (a : A)
| Threw (msg : string)
| Unfinished.
Arguments Returned {A} a.
Arguments Threw {A} msg.
Arguments Unfinished {A}.

Definition M (A : Type) : Type := Session → Run A * Session.

Definition ret {A} (a : A) : M A := λ s, (Returned a, s).
Definition throw {A} (msg : string) : M A := λ s, (Threw msg, s).

Definition bind {A B} (c : M A) (k : A → M B) : M B :=
  λ s, match c s with
       | (Returned a, s') => k a s'
       | (Threw msg, s') => (Threw msg, s')
       | (Unfinished, s') => (Unfinished, s')
       end.

(** [c.catch(h)], or [try { c } catch { h }] *)
Definition catch {A} (c : M A) (h : string → M A) : M A :=
  λ s, match c s with
       | (Threw msg, s') => h msg s'
       | settled => settled
       end.

Definition settle {A} (o : Outcome A) : M A :=
  match o with
  | Returns a => ret a
  | Throws msg => throw msg
  end.

Notation "'let*' x ':=' c 'in' k" := (bind c (λ x, k))
  (at level 10, x name, c at level 100, k at level 200).
Notation "c ';;' k" := (bind c (λ _, k))
  (at level 100, k at level 200, right associativity, only parsing).

Section Services.
Context (browser : Browser) (storage : Storage).

(** *** [statePush], of [PageService] and of [RequestListener]

    [name] is [this.constructor.name]; the message of the service's
    [statePush] only goes to the console. *)
Definition statePush (name : string) (data : list Value) : M unit :=
  λ s, (Returned tt, push {| sourceName := name; payload := data |} s).

(** *** The listeners' callbacks *)

(** A call that goes into the history and brings no traffic with it: a
    call on a request or response object by a listener, a call on an
    element by a script. *)
Definition tell (r : Request) : M unit := λ s, (Returned tt, asked r s).

Definition on_request (request : HTTPRequest) : M unit :=
  let aborted :=
    bool_decide (0 ≤ indexOf String.eqb ["font"; "stylesheet"; "other"]
                       (resourceType request)) in
  statePush "RequestInterceptorListener" [VRequest request aborted];;
  if aborted then tell (RequestAbort request)
  else tell (RequestContinue request).

(** The handler of ["response"] is asynchronous.  It runs up to its
    [await]: it asks for the body. *)
Definition on_response (response : HTTPResponse) : M unit :=
  tell (ResponseText response).

(** The rest of it runs when the body has settled: the record is pushed
    then, and not before.  [read] is the position in the history of the
    handler's call of [response.text()]; where the history has no such
    call, no handler waits and nothing happens. *)
Definition on_text (read : nat) : M unit :=
  λ s, match history s !! read with
       | Some (ResponseText response) =>
           (let* content := catch (let* body := settle (text response) in
                                   ret (Some body))
                                  (λ _, ret None) in
            statePush "ResponseInterceptorListener" [VResponse response content]) s
       | _ => (Returned tt, s)
       end.

Definition callback (l : Listener) (event : NetEvent) : M unit :=
  match l, event with
  | RequestInterceptorListener, request_event r => on_request r
  | ResponseInterceptorListener, response_event r => on_response r
  | ResponseInterceptorListener, text_event read => on_text read
  | _, _ => ret tt
  end.

(** Does the listener have a handler that the event sets going? *)
Definition listens_to (event : NetEvent) (l : Listener) : bool :=
  match l, event with
  | RequestInterceptorListener, request_event _ => true
  | ResponseInterceptorListener, response_event _ => true
  | ResponseInterceptorListener, text_event _ => true
  | _, _ => false
  end.

(** The listeners registered on [page], in the order of their
    registration. *)
Definition registered (page : nat) (s : Session) : list Listener :=
  listener_class <$> filter (λ l, listener_page l = page) (attached s).

(** [event] happens on [page].  When the page emits, the handlers
    registered on it run in the order of their registration; the
    handlers of other pages do not hear of it.  A body that settles sets
    one handler going again, the one that waits for it, a handler of a
    response listener of the page.  (None of the handlers throws.) *)
Definition emit (page : nat) (event : NetEvent) (s : Session) : Session :=
  let handlers :=
    match event with
    | text_event _ => take 1 (filter (listens_to event) (registered page s))
    | _ => registered page s
    end in
  fold_left (λ s l, snd (callback l event s)) handlers s.

(** *** An awaited request to the driver

    While the program waits, the listeners record the traffic; then
    the request settles.  A fulfilled request yields the page as the
    browser had it when it served the request. *)
Definition await (r : Request) : M Page :=
  λ s,
    let before := history s in
    let s' := fold_left (λ s '(page, event), emit page event s)
                (traffic browser before r) (asked r s) in
    match rejects browser before r with
    | Some msg => (Threw msg, s')
    | None => (Returned (view browser before), s')
    end.

(** [page.url()] is answered without waiting. *)
Definition current_url : M string :=
  λ s, (Returned (url (view browser (history s))), s).

(** *** The services *)

Definition screenshot (path : string) : M unit :=
  let* shot := await (Screenshot true path) in
  let size := screenshot_byteLength shot in
  statePush "ScreenshotService" [VScreenshot path size].

Definition loadCookies (path : string) : M Json :=
  settle (loadCookiesFromStorage storage path).

Definition setCookies (input : option (list Json)) : M unit :=
  match input with
  | Some (cookie :: more) => await (SetCookie (cookie :: more));; ret tt
  | Some [] | None => ret tt
  end.

Definition getCookies : M unit :=
  let* p := await Cookies in
  statePush "CookiesService" (map VCookie (cookies p)).

Definition close (id : string) : M unit :=
  let* closeContent :=
    catch (await (WaitForSelector ("#" +:+ id) (Some 5000));; ret true)
          (λ _, ret false) in
  if closeContent : bool then await (Evaluate (ClickById id));; ret tt
  else ret tt.

Definition click (selector : string) : M unit :=
  statePush "ClickService" [VString selector];;
  await (WaitForSelector selector None);;
  await (Click selector);;
  ret tt.

Definition discover : M unit :=
  let* p := await (Evaluate ExtractPages) in
  let pages := discover_pages p in
  let* p := await (Evaluate ExtractLinks) in
  let links := discover_links p in
  statePush "PaginationService" [VDiscovery links pages].

Definition default_GoToOptions : GoToOptions :=
  {| waitUntil := Some "networkidle2"; timeout := Some 30000 |}.

Definition navigate (url : string) (options : option GoToOptions) : M unit :=
  let options := default default_GoToOptions options in
  statePush "NavigationService" [VNavigation url options];;
  await (Goto url options);;
  ret tt.

Definition getResults : M unit :=
  let* p := await Title in
  let title := title p in
  let* url := current_url in
  let* p := await (Evaluate ExtractMeta) in
  let meta := meta_tags p in
  let* p := await Metrics in
  let metrics := metrics p in
  statePush "MetricsService" [VMetadata title url meta metrics].

Definition getContent : M unit :=
  let* p := await (Evaluate BodyOuterHTML) in
  let body := outerHTML p in
  statePush "ContentService" [VString body].

(** The measuring script, sent to the page. *)
Definition measure (selector : string) (dir : Direction) : M Z :=
  let* p := await (Evaluate (MeasureExtent selector dir)) in
  match querySelector p selector with
  | None => throw ("Element not found: " +:+ selector)
  | Some element => ret (measured_extent dir element)
  end.

(** The body of the scrolling script: the element is scrolled to its
    end along each axis that the direction names (and the script waits
    half a second after each). *)
Definition scroll_to_end (selector : string) (dir : Direction) (element : Element)
  : M unit :=
  (match dir with
   | horizontal | both =>
       tell (ElementScrollTo selector (scroll_left (scrollWidth element)))
   | vertical => ret tt
   end);;
  match dir with
  | vertical | both =>
      tell (ElementScrollTo selector (scroll_top (scrollHeight element)))
  | horizontal => ret tt
  end.

(** The scrolling script, sent to the page. *)
Definition scroll_element (selector : string) (dir : Direction) : M unit :=
  let* p := await (Evaluate (ScrollElement selector dir)) in
  match querySelector p selector with
  | None => throw ("Element not found: " +:+ selector)
  | Some element => scroll_to_end selector dir element
  end.

(** One pass through the body of the [while] loop of [scroll]; it
    yields the new [currentSize]. *)
Definition scroll_pass (selector : string) (dir : Direction) : M Z :=
  scroll_element selector dir;;
  await (WaitForNavigation "networkidle0");;
  let* currentSize := measure selector dir in
  await (Evaluate RandomDelay);;
  ret currentSize.

(** The [while] loop, run for at most [iterations] passes; it returns
    the final values of [previousSize] and [currentSize]. *)
Fixpoint scroll_loop (iterations : nat) (selector : string) (dir : Direction)
    (previousSize currentSize : Z) : M (Z * Z) :=
  if bool_decide (currentSize ≠ previousSize) then
    match iterations with
    | O => λ s, (Unfinished, s)
    | S iterations =>
        let previousSize := currentSize in
        let* currentSize := scroll_pass selector dir in
        scroll_loop iterations selector dir previousSize currentSize
    end
  else ret (previousSize, currentSize).

Definition scroll (iterations : nat) (selector : string) (dir : option Direction)
  : M unit :=
  let direction := default vertical dir in
  statePush "ScrollService" [VScroll selector direction];;
  await (WaitForSelector selector (Some 60000));;
  let previousSize := 0 in
  let* currentSize := measure selector direction in
  scroll_loop iterations selector direction previousSize currentSize;;
  ret tt.
End Services.

(** ** [BrowserManager] *)

Inductive Service : Type :=
| NavigationService | ScrollService | CookiesService | ClickService
| MetricsService | PaginationService | ScreenshotService | ContentService.

(** [constructor.name] of the instances *)
Definition service_name (service : Service) : string :=
  match service with
  | NavigationService => "NavigationService"
  | ScrollService => "ScrollService"
  | CookiesService => "CookiesService"
  | ClickService => "ClickService"
  | MetricsService => "MetricsService"
  | PaginationService => "PaginationService"
  | ScreenshotService => "ScreenshotService"
  | ContentService => "ContentService"
  end.

Definition listener_name (l : Listener) : string :=
  match l with
  | RequestInterceptorListener => "RequestInterceptorListener"
  | ResponseInterceptorListener => "ResponseInterceptorListener"
  end.

Definition serviceRegistry : list Service :=
  [NavigationService; ScrollService; CookiesService; ClickService;
   MetricsService; PaginationService; ScreenshotService; ContentService].

Definition listenersRegistry : list Listener :=
  [RequestInterceptorListener; ResponseInterceptorListener].

(** An instance of every class of the registry, for the page [page]. *)
Definition listeners_of (page : nat) : list RequestListener :=
  (λ l, {| listener_page := page; listener_class := l |}) <$> listenersRegistry.

(** The public methods of the services, as calls. *)
Inductive Call : Type :=
| call_screenshot (path : string)
| call_loadCookiesFromStorage (path : string)
| call_setCookies (input : option (list Json))
| call_getCookies
| call_close (id : option string)
| call_click (selector : string)
| call_discover
| call_navigate (url : string) (options : option GoToOptions)
| call_getResults
| call_scroll (selector : string) (direction : option Direction)
| call_getContent.

Definition service_of (c : Call) : Service :=
  match c with
  | call_screenshot _ => ScreenshotService
  | call_loadCookiesFromStorage _ | call_setCookies _ | call_getCookies
  | call_close _ => CookiesService
  | call_click _ => ClickService
  | call_discover => PaginationService
  | call_navigate _ _ => NavigationService
  | call_getResults => MetricsService
  | call_scroll _ _ => ScrollService
  | call_getContent => ContentService
  end.

Section Manager.
Context (browser : Browser) (storage : Storage).

Definition get_page : M nat :=
  λ s, match _page s with
       | Some p => (Returned p, s)
       | None => (Threw "Missing page instance", s)
       end.

Definition get_browser : M nat :=
  λ s, match _browser s with
       | Some b => (Returned b, s)
       | None => (Threw "Missing browser instance", s)
       end.

(** An awaited request that creates an object; the object is known by
    the position of the request in the history. *)
Definition create (r : Request) : M nat :=
  λ s, (await browser r;; ret (length (history s))) s.

Definition set_browser (b : nat) : M unit := λ s, (Returned tt, with_browser b s).
Definition set_page (p : nat) : M unit := λ s, (Returned tt, with_page p s).

(** [page.on(...)], on the page of the listener. *)
Definition subscribe (l : RequestListener) : M unit :=
  λ s, (Returned tt, listening l s).

Definition attach (l : RequestListener) : M unit :=
  match listener_class l with
  | RequestInterceptorListener =>
      await browser (SetRequestInterception true);;
      subscribe l
  | ResponseInterceptorListener => subscribe l
  end.

Definition onInitialize (l : RequestListener) : M unit := attach l.

Fixpoint for_each {A} (body : A → M unit) (items : list A) : M unit :=
  match items with
  | [] => ret tt
  | item :: rest => body item;; for_each body rest
  end.

(** [new listener(this.page, this.state)]: reads the [page] property,
    and the instance keeps the page it was given. *)
Definition new_listener (l : Listener) : M RequestListener :=
  let* page := get_page in
  ret {| listener_page := page; listener_class := l |}.

Fixpoint map_M {A B} (f : A → M B) (items : list A) : M (list B) :=
  match items with
  | [] => ret []
  | item :: rest =>
      let* b := f item in
      let* bs := map_M f rest in
      ret (b :: bs)
  end.

(** Both listener classes extend [RequestListener]. *)
Definition filterRequestListeners (l : RequestListener) : bool := true.

Definition initialize (options : Options) : M unit :=
  (if bool_decide (is_Some (browserWSEndpoint options)) then
     let* b := create (Connect options) in set_browser b
   else if bool_decide (is_Some (executablePath options)) then
     let* b := create (Launch options) in set_browser b
   else ret tt);;
  get_browser;;
  let* p := create NewPage in
  set_page p;;
  let* allListeners := map_M new_listener listenersRegistry in
  for_each onInitialize (filter filterRequestListeners allListeners).

Definition close_session : M unit :=
  get_page;; await browser ClosePage;;
  get_browser;; await browser CloseBrowser;;
  ret tt.

(** [get(name)] *)
Definition get (name : string) : M Service :=
  match filter (λ service, service_name service = name) serviceRegistry with
  | service :: _ => get_page;; ret service
  | [] => throw ("Service '" +:+ name +:+ "' not found")
  end.

(** [listen(name)] *)
Definition listen (name : string) : M RequestListener :=
  match filter (λ l, listener_name l = name) listenersRegistry with
  | l :: _ => new_listener l
  | [] => throw ("Listener '" +:+ name +:+ "' not found")
  end.

(** One call of a public method of a service; the scroll loop gets
    [iterations] passes.  A method without a result yields [JNull]. *)
Definition perform (iterations : nat) (c : Call) : M Json :=
  match c with
  | call_screenshot path => screenshot browser path;; ret JNull
  | call_loadCookiesFromStorage path => loadCookies storage path
  | call_setCookies input => setCookies browser input;; ret JNull
  | call_getCookies => getCookies browser;; ret JNull
  | call_close id => close browser (default "close-cookies" id);; ret JNull
  | call_click selector => click browser selector;; ret JNull
  | call_discover => discover browser;; ret JNull
  | call_navigate url options => navigate browser url options;; ret JNull
  | call_getResults => getResults browser;; ret JNull
  | call_scroll selector direction =>
      scroll browser iterations selector direction;; ret JNull
  | call_getContent => getContent browser;; ret JNull
  end.

(** A driver routine: the calls one after the other; the first that
    throws ends it. *)
Definition perform_all (iterations : nat) (calls : list Call) : M unit :=
  for_each (λ c, perform iterations c;; ret tt) calls.
End Manager.

(** ** Reading the history and the log *)

(** The requests that the listeners' callbacks make. *)
Definition from_listener (r : Request) : bool :=
  match r with
  | RequestAbort _ | RequestContinue _ | ResponseText _ => true
  | _ => false
  end.

Definition by_listener (record : EventRecord) : bool :=
  bool_decide (sourceName record ∈ map listener_name listenersRegistry).

Definition by_service (record : EventRecord) : bool :=
  bool_decide (sourceName record ∈ map service_name serviceRegistry).

Definition is_measurement (r : Request) : bool :=
  match r with
  | Evaluate (MeasureExtent _ _) => true
  | _ => false
  end.

Definition is_scroll_action (r : Request) : bool :=
  match r with
  | Evaluate (ScrollElement _ _) => true
  | _ => false
  end.

(** How many times the extent has been measured, and how many scroll
    actions have been made. *)
Definition polls (h : list Request) : nat := length (filter is_measurement h).
Definition scroll_actions (h : list Request) : nat :=
  length (filter is_scroll_action h).

(** No request is rejected: selectors appear and navigations settle in
    time. *)
Definition responsive (browser : Browser) : Prop :=
  ∀ h r, rejects browser h r = None.

(** From the history [since] on, the successive measurements of the
    element at [selector] along [dir] are the numbers [extents]. *)
Definition measures (browser : Browser) (selector : string) (dir : Direction)
    (since : History) (extents : list Z) : Prop :=
  ∀ h k extent,
    polls h = (polls since + k)%nat →
    extents !! k = Some extent →
    ∃ element, querySelector (view browser h) selector = Some element ∧
               measured_extent dir element = extent.

(** The records of a log that the services pushed. *)
Definition own (log : list EventRecord) : list EventRecord :=
  filter by_service log.

(** A computation that leaves the services' records as they are,
    however it ends. *)
Definition silent {A} (c : M A) : Prop :=
  ∀ s, own (_state (snd (c s))) = own (_state s).

(** A computation that, when it returns, has pushed [n] records, all
    under [name], and has left the other records of services alone. *)
Definition appends {A} (name : string) (n : nat) (c : M A) : Prop :=
  ∀ s a s',
    c s = (Returned a, s') →
    ∃ records, own (_state s') = own (_state s) ++ records ∧
               length records = n ∧
               Forall (λ record, sourceName record = name) records.

(** A computation under which the log only grows at its end. *)
Definition extends {A} (c : M A) : Prop :=
  ∀ s, _state s `prefix_of` _state (snd (c s)).

(** The passes that the loop of [scroll] makes when it starts with
    [previous] and [current] and then measures [upcoming], one number
    after each pass: it goes on until a measurement equals the one
    before it.  [None]: the numbers run out first. *)
Fixpoint passes (previous current : Z) (upcoming : list Z) : option nat :=
  if bool_decide (current ≠ previous) then
    match upcoming with
    | [] => None
    | next :: upcoming => S <$> passes current next upcoming
    end
  else Some 0%nat.

(** How a computation has ended that started in [s] and stopped in [s']:
    it has returned a result that satisfies [P], after so many
    measurements and scroll actions; or it has thrown, which takes a
    browser that rejects requests, after no more than so many.  It is
    not still running. *)
Definition ended {A} (browser : Browser) (o : Run A) (s s' : Session)
    (measurements actions : nat) (P : A → Prop) : Prop :=
  match o with
  | Returned a =>
      P a ∧
      polls (history s') = (polls (history s) + measurements)%nat ∧
      scroll_actions (history s') = (scroll_actions (history s) + actions)%nat
  | Threw _ =>
      ¬ responsive browser ∧
      (polls (history s') ≤ polls (history s) + measurements)%nat ∧
      (scroll_actions (history s') ≤ scroll_actions (history s) + actions)%nat
  | Unfinished => False
  end.

(** [s'] is [s] after some traffic: the listeners have made requests of
    their own and pushed records of their own, and nothing else has
    changed. *)
Record heard (s s' : Session) : Prop := {
  heard_page : _page s' = _page s;
  heard_browser : _browser s' = _browser s;
  heard_attached : attached s' = attached s;
  heard_history :
    ∃ answers, history s' = history s ++ answers ∧ Forall from_listener answers;
  heard_state :
    ∃ records, _state s' = _state s ++ records ∧ Forall by_listener records
}.

(** The label of the page [n], for a single digit. *)
Definition label (n : nat) : string :=
  String (ascii_of_nat (48 + n)) EmptyString.


(** The state of a session manager on which [initialize] has assigned
    nothing yet. *)
Definition Uninitialized (s : Session) : Prop :=
  _page s = None ∧ _browser s = None.

(** How many records a completed call of a method pushes itself. *)
Definition pushes (c : Call) : nat :=
  match c with
  | call_loadCookiesFromStorage _ | call_setCookies _ | call_close _ => 0
  | _ => 1
  end.

(** ** The snapshot of a log, read back *)

(** A record that [CookiesService] pushed. *)
Definition cookies_sourced (log : Json) : bool :=
  match log with
  | JObj fields => bool_decide (is_Some (assoc "CookiesService" fields))
  | _ => false
  end.

(** In the words of the specification: the cookie set of the most recent
    record of [CookiesService] in the snapshot. *)
Definition most_recent_cookies (logs : list Json) : Json :=
  match last (filter cookies_sourced logs) with
  | Some log => js_get "CookiesService" log
  | None => JArr []
  end.

(** ** A fixture: a page to try the services on *)

Module Fixture.

Definition results : string :=
  "https://www.myjob.mu/ShowResults.aspx?Keywords=&Location=&Category=39&Recruiter=Company&SortBy=MostRecent&Page=".

(** The anchor of page [n] in the pagination container. *)
Definition numbered (n : nat) : Anchor :=
  {| node := n; textContent := Some (label n);
     href := results +:+ label n; in_pagination := true |}.

(** How [new URL] reads the address of that anchor, and the
    parameters of its query string that come before [Page]. *)
Definition parsed (n : nat) : URL :=
  {| protocol := "https:";
     search := "?Keywords=&Location=&Category=39&Recruiter=Company&SortBy=MostRecent&Page="
               +:+ label n |}.


Definition plain (id : nat) (text address : string) : Anchor :=
  {| node := id; textContent := Some text; href := address;
     in_pagination := false |}.

Definition document_anchors : list Anchor :=
  [plain 10 "Home" "https://www.myjob.mu/Default.aspx";
   plain 11 "Jobs" "https://www.myjob.mu/Jobs.aspx"]
  ++ map numbered [1; 2; 3; 4; 5]%nat
  ++ [plain 12 "Home" "https://www.myjob.mu/Default.aspx";
      plain 13 "Partner" "https://partner.example/Offers.aspx";
      plain 14 "About" "https://www.myjob.mu/about.html";
      plain 15 "" ""].

(** The element [#feed] grows once: its height is 100 at the first
    measurement and 250 afterwards. *)
Definition feed (measured : nat) : Element :=
  {| scrollWidth := 640;
     scrollHeight := match measured with O => 100 | _ => 250 end |}.

Definition page_after (measured : nat) : Page :=
  {| querySelector := λ selector,
       if String.eqb selector "#feed" then Some (feed measured) else None;
     anchors := document_anchors;
     origin := "https://www.myjob.mu";
     title := "Jobs";
     url := results +:+ "2";
     metas := [("description", "Jobs in Mauritius"); ("", "no name")];
     outerHTML := "<body></body>";
     cookies := [JObj [("name", JStr "sid"); ("value", JStr "42")]];
     metrics := JObj [("Nodes", JNum 120)];
     screenshot_byteLength := 4096;
     engine := Plain.engine |}.

Definition font_request : HTTPRequest :=
  {| request_method := "GET"; request_url := "https://www.myjob.mu/a.woff";
     resourceType := "font"; request_headers := JObj []; initiator := JNull |}.

Definition document_request : HTTPRequest :=
  {| request_method := "GET"; request_url := results +:+ "2";
     resourceType := "document"; request_headers := JObj []; initiator := JNull |}.

Definition document_response : HTTPResponse :=
  {| ok := true; status := 200; statusText := "OK";
     response_url := results +:+ "2"; remoteAddress := JNull;
     fromCache := false; response_headers := JObj [];
     text := Returns "<html></html>" |}.

(** A browser that shows this page, never rejects, and has some
    traffic on the page [1] while it navigates; the body of the
    document settles after the request for the font. *)
Definition browser : Browser :=
  {| view := λ h, page_after (polls h);
     rejects := λ _ _, None;
     traffic := λ h r,
       match r with
       | Goto _ _ =>
           [(1%nat, request_event document_request);
            (1%nat, response_event document_response);
            (1%nat, request_event font_request);
            (1%nat, text_event (length h + 2))]
       | _ => []
       end |}.


(** An exported log with two records of [CookiesService]. *)
Definition older : Json := JObj [("name", JStr "sid"); ("value", JStr "old")].
Definition newer : Json := JObj [("name", JStr "sid"); ("value", JStr "new")].

Definition snapshot : list Json :=
  [JObj [("NavigationService", JArr [JObj [("url", JStr "https://www.myjob.mu/")]])];
   JObj [("CookiesService", JArr [older])];
   JObj [("ContentService", JArr [JStr "<body></body>"])];
   JObj [("CookiesService", JArr [newer])]].

Definition storage : Storage :=
  λ path, if String.eqb path "output.json" then Some (JArr snapshot) else None.

(** A session after [initialize]: both listeners are attached. *)
Definition initialized : Session :=
  {| _page := Some 1%nat; _browser := Some 0%nat; _state := [];
     history := [Connect {| browserWSEndpoint := Some "http://localhost:3030";
                            executablePath := None; ignoreHTTPSErrors := Some true |};
                 NewPage; SetRequestInterception true];
     attached := listeners_of 1 |}.

End Fixture.

(** * The rest of the program *)

(** ** [setCookies], on the value that [loadCookiesFromStorage] hands it

    The value is cast to [Cookie[]], not checked: [input?.length] and
    the spread [...input] meet whatever the snapshot held. *)

Definition truthy (v : Json) : bool :=
  match v with
  | JNull => false
  | JBool b => b
  | JNum n => negb (n =? 0)
  | JStr s => negb (String.eqb s "")
  | JArr _ | JObj _ => true
  end.

(** [v?.length]; [undefined] is rendered as [JNull]. *)
Definition js_length (v : Json) : Json :=
  match v with
  | JArr items => JNum (Z.of_nat (length items))
  | JStr s => JNum (Z.of_nat (String.length s))
  | JObj fields => js_get "length" v
  | _ => JNull
  end.

Definition setCookies_loaded (browser : Browser) (input : Json) : M unit :=
  if truthy (js_length input) then
    let* cookies := settle (js_iterate input) in
    await browser (SetCookie cookies);;
    ret tt
  else ret tt.

(** [loadCookiesFromStorage(path).then((storage) => setCookies(storage))],
    of [run]. *)
Definition restore_cookies (browser : Browser) (fs : Storage) (path : string)
  : M unit :=
  let* storage := loadCookies fs path in
  setCookies_loaded browser storage.

(** ** [saveToFile] and [exportState]

    A file is what its content parses to.  [writable] says where
    [writeFileSync] succeeds, [parse] is [JSON.parse] on a text, and
    [stringify] is what a pushed value reads as after [JSON.stringify]. *)

Inductive Content : Type :=
| as_text (s : string)
| as_value (v : Json).

Section Files.
Context (writable : string → bool) (parse : string → option Json)
  (stringify : Value → Json).

(** The [catch] only reports: a failed write leaves the files alone. *)
Definition saveToFile (filePath : string) (content : Content) (fs : Storage)
  : Storage :=
  if writable filePath then
    λ path, if String.eqb path filePath
            then match content with
                 | as_text s => parse s
                 | as_value v => Some v
                 end
            else fs path
  else fs.

(** The record [{ [name]: data }], written out. *)
Definition record_json (record : EventRecord) : Json :=
  JObj [(sourceName record, JArr (map stringify (payload record)))].

Definition exportState (path : string) (s : Session) (fs : Storage) : Storage :=
  saveToFile path (as_value (JArr (map record_json (_state s)))) fs.
End Files.

(** ** [run] *)

(** The two variables of the environment that [run] reads. *)
Record Env : Type := {
  REMOTE_BROWSER : option string;
  EXECUTABLE_PATH : option string
}.

(** [{ ignoreHTTPSErrors: true, ...browserLoc }]: the conditional tests
    the truth of [REMOTE_BROWSER], [??] only whether [EXECUTABLE_PATH]
    is there. *)
Definition run_options (env : Env) : Options :=
  match REMOTE_BROWSER env with
  | Some (String c rest) =>
      {| browserWSEndpoint := Some ("http://" +:+ String c rest);
         executablePath := None;
         ignoreHTTPSErrors := Some true |}
  | Some EmptyString | None =>
      {| browserWSEndpoint := None;
         executablePath := Some (default "/usr/bin/google-chrome" (EXECUTABLE_PATH env));
         ignoreHTTPSErrors := Some true |}
  end.

Definition start_url : string :=
  "https://www.myjob.mu/ShowResults.aspx?Keywords=&Location=&Category=39&Recruiter=Company&SortBy=MostRecent&Page=2".

Section Run.
Context (browser : Browser) (writable : string → bool)
  (parse : string → option Json) (stringify : Value → Json)
  (path_join : list string → string) (cwd : string).

Definition getFullPath (filePath : string) : string :=
  path_join [cwd; "output"; filePath].

(** [run] up to its last service call. *)
Definition crawl (env : Env) (fs : Storage) : M unit :=
  let outputPath := getFullPath "output.json" in
  let screenshotPath := getFullPath "screenshot.png" in
  initialize browser (run_options env);;
  let* navigation := get "NavigationService" in
  let* cookies := get "CookiesService" in
  restore_cookies browser fs outputPath;;
  navigate browser start_url None;;
  close browser "close-cookies";;
  get "PaginationService";; discover browser;;
  get "MetricsService";; getResults browser;;
  getCookies browser;;
  get "ScreenshotService";; screenshot browser screenshotPath;;
  get "ContentService";; getContent browser.

(** [run]: the crawl on a new manager, then the export of the log and
    the closing of the session.  It yields how the promise of [run]
    settles (a rejection only goes to [console.error]), the session
    and the files as [saveToFile] leaves them (the image that the
    browser writes for [Screenshot] is the browser's own file and is
    not followed). *)
Definition run (env : Env) (fs : Storage) : Run unit * Session * Storage :=
  match crawl env fs new_BrowserManager with
  | (Returned _, s) =>
      let fs' := exportState writable parse stringify
                   (getFullPath "output.json") s fs in
      let '(outcome, s') := close_session browser s in
      (outcome, s', fs')
  | (Threw msg, s) => (Threw msg, s, fs)
  | (Unfinished, s) => (Unfinished, s, fs)
  end.
End Run.

(** ** More ways to read the history and the log *)

Definition blocked (request : HTTPRequest) : bool :=
  bool_decide (resourceType request ∈ ["font"; "stylesheet"; "other"]).

(** The records of the two listeners. *)
Definition request_record (r : HTTPRequest) : EventRecord :=
  {| sourceName := "RequestInterceptorListener";
     payload := [VRequest r (blocked r)] |}.

Definition response_record (r : HTTPResponse) : EventRecord :=
  {| sourceName := "ResponseInterceptorListener";
     payload := [VResponse r match text r with
                             | Returns body => Some body
                             | Throws _ => None
                             end] |}.

(** The request that the handler of an event makes there and then. *)
Definition answer_of (event : NetEvent) : option Request :=
  match event with
  | request_event r => Some (if blocked r then RequestAbort r else RequestContinue r)
  | response_event r => Some (ResponseText r)
  | text_event _ => None
  end.

(** The record that the handler of an event pushes there and then,
    after the requests [h]. *)
Definition record_of (h : History) (event : NetEvent) : option EventRecord :=
  match event with
  | request_event r => Some (request_record r)
  | response_event _ => None
  | text_event read =>
      match h !! read with
      | Some (ResponseText r) => Some (response_record r)
      | _ => None
      end
  end.

(** The events of some traffic that happen on [page]. *)
Definition on_page (page : nat) (events : list (nat * NetEvent)) : list NetEvent :=
  snd <$> filter (λ event, fst event = page) events.

Definition requests_of (events : list NetEvent) : list HTTPRequest :=
  omap (λ event, match event with request_event r => Some r | _ => None end) events.

Definition is_text_event (event : NetEvent) : bool :=
  match event with
  | text_event _ => true
  | _ => false
  end.

(** The methods that push their record before they act. *)
Definition pushes_first (c : Call) : bool :=
  match c with
  | call_click _ | call_navigate _ _ | call_scroll _ _ => true
  | _ => false
  end.

Definition is_close (r : Request) : bool :=
  match r with
  | ClosePage | CloseBrowser => true
  | _ => false
  end.

(** A computation that returns or throws, attaches no listener, and all
    of whose requests, and those of the listeners meanwhile, satisfy
    [P]. *)
Definition asks {A} (P : Request → Prop) (c : M A) : Prop :=
  ∀ s, fst (c s) ≠ Unfinished ∧
       attached (snd (c s)) = attached s ∧
       ∃ requests,
         history (snd (c s)) = history s ++ requests ∧ Forall P requests.

(** The request by which [initialize] gets its browser, if any. *)
Definition opening (options : Options) : list Request :=
  if bool_decide (is_Some (browserWSEndpoint options)) then [Connect options]
  else if bool_decide (is_Some (executablePath options)) then [Launch options]
  else [].

(** The records of the request listener in a log, and those of the
    response listener. *)
Definition interceptions (log : list EventRecord) : list EventRecord :=
  filter (λ record, sourceName record = "RequestInterceptorListener") log.

Definition responses (log : list EventRecord) : list EventRecord :=
  filter (λ record, sourceName record = "ResponseInterceptorListener") log.

(** The requests of a history that the program itself made, those of
    the listeners' callbacks left out. *)
Definition by_program (h : list Request) : list Request :=
  filter (λ r, negb (from_listener r)) h.

(** A computation that leaves the services' records as they are when
    it does not return. *)
Definition fails_silent {A} (c : M A) : Prop :=
  ∀ s, (∀ a, fst (c s) ≠ Returned a) →
       own (_state (snd (c s))) = own (_state s).

(** A computation that, on a session with a page and a browser,
    returns a result that satisfies [Q] and keeps both handles; the
    program has made the requests [requests] meanwhile, in this order,
    and the services have pushed one record under each of [names], in
    this order. *)
Definition completes {A} (requests : list Request) (names : list string)
    (Q : A → Prop) (c : M A) : Prop :=
  ∀ s, is_Some (_page s) → is_Some (_browser s) →
    ∃ a s', c s = (Returned a, s') ∧ Q a ∧
      _page s' = _page s ∧ _browser s' = _browser s ∧
      (∃ new, history s' = history s ++ new ∧ by_program new = requests) ∧
      map sourceName (own (_state s')) = map sourceName (own (_state s)) ++ names.

(** The value of the parameter [key] among the pairs of a query string:
    that of the last pair whose name is [key] in lower case. *)
Definition param_of (e : Engine) (key : string) (pairs : list (string * string))
  : option string :=
  if String.eqb key "__proto__" then None
  else snd <$> last (filter (λ pair, toLocaleLowerCase e (fst pair) = key) pairs).

(** The first record of [CookiesService] in a log. *)
Definition first_cookies_record (log : list EventRecord) : option EventRecord :=
  head (filter (λ record, sourceName record = "CookiesService") log).




(** More pages to try the services on. *)
Module Trial.



(** An element whose extent goes back and forth at every measurement. *)
Definition swing (measured : nat) : Z :=
  if Nat.even measured then 100 else 200.

Definition oscillating : Browser :=
  {| view := λ h,
       {| querySelector := λ _,
            Some {| scrollWidth := swing (polls h); scrollHeight := swing (polls h) |};
          anchors := []; origin := ""; title := ""; url := ""; metas := [];
          outerHTML := ""; cookies := []; metrics := JNull;
          screenshot_byteLength := 0; engine := Plain.engine |};
     rejects := λ _ _, None;
     traffic := λ _ _, [] |}.

(** A browser on which no selector ever appears. *)
Definition selectors_time_out : Browser :=
  {| view := view Fixture.browser;
     rejects := λ _ r,
       match r with
       | WaitForSelector _ _ => Some "TimeoutError: Waiting for selector failed"
       | _ => None
       end;
     traffic := traffic Fixture.browser |}.

(** A browser that cannot reach the site. *)
Definition offline : Browser :=
  {| view := view Fixture.browser;
     rejects := λ _ r,
       match r with
       | Goto _ _ => Some "net::ERR_INTERNET_DISCONNECTED"
       | _ => None
       end;
     traffic := traffic Fixture.browser |}.

(** A browser that opens no page. *)
Definition no_pages : Browser :=
  {| view := view Fixture.browser;
     rejects := λ _ r,
       match r with
       | NewPage => Some "Protocol error (Target.createTarget): Target closed"
       | _ => None
       end;
     traffic := traffic Fixture.browser |}.

(** A browser on which the page cannot be closed. *)
Definition stuck : Browser :=
  {| view := view Fixture.browser;
     rejects := λ _ r,
       match r with
       | ClosePage => Some "Protocol error: Target closed"
       | _ => None
       end;
     traffic := traffic Fixture.browser |}.

Definition remote : Env :=
  {| REMOTE_BROWSER := Some "localhost:3030";
     EXECUTABLE_PATH := Some "/opt/chrome" |}.

Definition path_join (parts : list string) : string := String.concat "/" parts.

Definition stringify (v : Value) : Json :=
  match v with
  | VCookie cookie => cookie
  | VString s => JStr s
  | _ => JObj []
  end.

Definition no_files : Storage := λ _, None.

End Trial.

(** * Properties *)

(** ** The model at work *)

Example js_sort_sorts :
  js_sort (λ a b, a - b) [5; 3; 1; 4; 2; 9; 7; 8; 6; 0] = [0; 1; 2; 3; 4; 5; 6; 7; 8; 9].
Proof. reflexivity. Qed.

(** A comparator that always answers negative makes the whole array
    one descending run, which is reversed. *)
Example js_sort_reverses : js_sort (λ _ _ : Z, -1) [1; 2; 3] = [3; 2; 1].
Proof. reflexivity. Qed.

Example js_sort_merges :
  js_sort (λ a b, a - b) (map (λ n, Z.of_nat n * 37 mod 101) (seq 0 100))
  = map (λ n, Z.of_nat n) (seq 0 64) ++ map (λ n, Z.of_nat n) (seq 65 36).
Proof. vm_compute. reflexivity. Qed.

Example parseInt_examples :
  Plain.parseInt "  42px" = Integer 42 ∧ Plain.parseInt "-3" = Integer (-3) ∧
  Plain.parseInt "Next" = NaN ∧ Plain.parseInt "" = NaN.
Proof. repeat split. Qed.

Example new_URL_examples :
  Plain.new_URL "" = Throws "TypeError: Invalid URL" ∧
  Plain.new_URL "/ShowResults.aspx?Page=2" = Throws "TypeError: Invalid URL" ∧
  Plain.new_URL "https://www.myjob.mu/ShowResults.aspx?Page=2#top"
  = Returns {| protocol := "https:"; search := "?Page=2" |}.
Proof. repeat split. Qed.

Example URLSearchParams_example :
  Plain.URLSearchParams "?a=b+c&&d&e=%41%zz&=f"
  = [("a", "b c"); ("d", ""); ("e", "A%zz"); ("", "f")].
Proof. reflexivity. Qed.

(** On the fixture: the two links that are on the site and end in
    [.aspx], the second [Default.aspx] dropped; the numbered links end
    in their query string and are not among them. *)
Example fixture_links :
  discover_links (Fixture.page_after 0)
  = ["https://www.myjob.mu/Default.aspx"; "https://www.myjob.mu/Jobs.aspx"].
Proof. vm_compute. reflexivity. Qed.

Example fixture_pages :
  map (λ entry, (page entry, pos entry)) (discover_pages (Fixture.page_after 0))
  = [(Integer 1, 0); (Integer 2, 1); (Integer 3, 2); (Integer 4, 3); (Integer 5, 4)].
Proof. vm_compute. reflexivity. Qed.

(** On the fixture, whose element is 640 wide all along: with ["both"]
    the second measurement equals the first, and one scroll action is
    all there is. *)
Example fixture_scroll_both :
  let run := scroll Fixture.browser 5 "#feed" (Some both) Fixture.initialized in
  fst run = Returned tt ∧
  filter (λ r, negb (from_listener r)) (drop 3 (history (snd run)))
  = [WaitForSelector "#feed" (Some 60000);
     Evaluate (MeasureExtent "#feed" both);
     Evaluate (ScrollElement "#feed" both);
     ElementScrollTo "#feed" (scroll_left 640);
     ElementScrollTo "#feed" (scroll_top 250);
     WaitForNavigation "networkidle0";
     Evaluate (MeasureExtent "#feed" both);
     Evaluate RandomDelay].
Proof. vm_compute. split; reflexivity. Qed.

(** ** The sort of [discover] *)

Section SortFacts.
Context {A : Type} (comparefn : A → A → Z).

(** A comparator that never answers negative makes every later
    element continue an ascending run. *)
Lemma run_extent_never_negative (previous : A) (l : list A) :
  Forall (λ a, ∀ b, 0 ≤ comparefn a b) l →
  run_extent comparefn false previous l = length l.
Proof.
  intros Hl. revert previous.
  induction Hl as [|current rest Hcur _ IH]; intros previous; simpl; [done|].
  pose proof (Hcur previous) as Hge.
  apply Z.ltb_ge in Hge. rewrite Hge.
  rewrite bool_decide_eq_true_2 by done.
  by rewrite IH.
Qed.

Lemma count_and_make_run_never_negative (l : list A) :
  Forall (λ a, ∀ b, 0 ≤ comparefn a b) l →
  count_and_make_run comparefn l = (l, []).
Proof.
  intros Hl. destruct l as [|x0 [|x1 rest]]; [done..|].
  apply Forall_cons in Hl as [_ Hl].
  apply Forall_cons in Hl as [H1 Hrest].
  unfold count_and_make_run.
  pose proof (H1 x0) as Hge. apply Z.ltb_ge in Hge. rewrite Hge.
  rewrite (run_extent_never_negative x1 rest Hrest).
  change (2 + length rest)%nat with (length (x0 :: x1 :: rest)).
  by rewrite firstn_all, drop_all.
Qed.

Lemma merge_runs_nil_r (l : list A) : merge_runs comparefn l [] = l.
Proof. by destruct l. Qed.

(** The whole array is one run: nothing is inserted, nothing merged. *)
Lemma js_sort_never_negative (l : list A) :
  Forall (λ a, ∀ b, 0 ≤ comparefn a b) l →
  js_sort comparefn l = l.
Proof.
  intros Hl. unfold js_sort.
  destruct (length l <? 2)%nat eqn:Hshort; [done|].
  destruct (length l) as [|n] eqn:Hlen; [done|].
  destruct l as [|x l']; [done|].
  cbn [collect_runs].
  rewrite (count_and_make_run_never_negative _ Hl).
  rewrite take_nil, drop_nil.
  cbn [binary_insertion_sort fold_left].
  destruct n; cbn [collect_runs merge_force_collapse fold_left];
    apply merge_runs_nil_r.
Qed.
End SortFacts.

Lemma indexOf_from_found {A} (same : A → A → bool) (from : Z) (l : list A) (x : A) :
  (∀ a, same a a = true) → x ∈ l → from ≤ indexOf_from same from l x.
Proof.
  intros Hrefl Hin. revert from.
  induction l as [|e rest IH]; intros from; [by apply elem_of_nil in Hin|].
  simpl. destruct (same e x) eqn:Hsame; [lia|].
  apply elem_of_cons in Hin as [->|Hin]; [by rewrite Hrefl in Hsame|].
  specialize (IH Hin (from + 1)). lia.
Qed.

(** Every entry carries the index of an element of the array: the
    comparator of the sort never answers negative. *)
Lemma filtered_links_pos (p : Page) :
  Forall (λ v : PageLink, ∀ w : PageLink, 0 ≤ pos v) (filtered_links p).
Proof.
  unfold filtered_links. apply Forall_forall. intros v Hv w.
  apply list_elem_of_filter in Hv as [_ Hv].
  apply list_elem_of_In, in_map_iff in Hv as (a & <- & Ha).
  apply list_elem_of_In in Ha. simpl.
  apply indexOf_from_found; [|done].
  intros b. apply Nat.eqb_refl.
Qed.

Lemma discover_pages_unsorted (p : Page) : discover_pages p = filtered_links p.
Proof.
  unfold discover_pages.
  apply js_sort_never_negative, filtered_links_pos.
Qed.

(** C3. The [sort((v) => v.pos)] that ends the pagination script
    reorders nothing: [pages] is the output of the [filter], in the
    same order. *)
Theorem discover_sort_keeps_order (p : Page) :
  discover_pages p = filtered_links p.
Proof. apply discover_pages_unsorted. Qed.

(** ** The measured axis *)

(** C2, as the code has it.  With the direction ["both"] the script
    measures the horizontal extent of the element, its scroll width,
    as it does with ["horizontal"]. *)
Theorem both_measures_scroll_width (browser : Browser) (selector : string)
    (s : Session) (element : Element) :
  responsive browser →
  querySelector (view browser (history s)) selector = Some element →
  fst (measure browser selector both s) = Returned (scrollWidth element) ∧
  fst (measure browser selector both s) = fst (measure browser selector horizontal s).
Proof.
  intros Hcalm Helement.
  assert (∀ dir, fst (measure browser selector dir s)
                 = Returned (measured_extent dir element)) as Hmeasure.
  { intros dir. unfold measure, bind, await. rewrite Hcalm.
    by rewrite Helement. }
  by rewrite !Hmeasure.
Qed.

Lemma both_measures_scroll_width_witness :
  responsive Fixture.browser ∧
  querySelector (view Fixture.browser (history Fixture.initialized)) "#feed"
    = Some (Fixture.feed 0) ∧
  fst (measure Fixture.browser "#feed" both Fixture.initialized) = Returned 640 ∧
  fst (measure Fixture.browser "#feed" both Fixture.initialized)
  = fst (measure Fixture.browser "#feed" horizontal Fixture.initialized).
Proof.
  assert (responsive Fixture.browser) as Hcalm by (intros h r; reflexivity).
  assert (querySelector (view Fixture.browser (history Fixture.initialized)) "#feed"
          = Some (Fixture.feed 0)) as Helement by reflexivity.
  split; [exact Hcalm|]. split; [exact Helement|].
  exact (both_measures_scroll_width Fixture.browser "#feed" Fixture.initialized
           (Fixture.feed 0) Hcalm Helement).
Defined.

(** C2, as the specification has it, fails: the element of the fixture
    is 640 wide and 100 high, and with ["both"] the script answers 640,
    which is neither the height nor what ["vertical"] measures. *)
Lemma both_does_not_measure_height :
  fst (measure Fixture.browser "#feed" both Fixture.initialized)
    ≠ Returned (scrollHeight (Fixture.feed 0)) ∧
  fst (measure Fixture.browser "#feed" both Fixture.initialized)
    ≠ fst (measure Fixture.browser "#feed" vertical Fixture.initialized).
Proof. split; vm_compute; discriminate. Qed.

(** ** Loading the cookies of an earlier run *)

Lemma loadCookiesFromStorage_returns (fs : Storage) (path : string) :
  loadCookiesFromStorage fs path = Returns (fst (import_then_scan fs path (JArr []))).
Proof.
  unfold loadCookiesFromStorage.
  by destruct (import_then_scan fs path (JArr [])) as [cookies [value|msg]].
Qed.

(** The loop stops at the first record of [CookiesService], if no
    [null] comes before it. *)
Lemma scan_logs_first (cookies : Json) (before after : list Json) (log : Json) :
  Forall (λ x, x ≠ JNull ∧ ¬ cookies_sourced x) before →
  cookies_sourced log →
  fst (scan_logs cookies (before ++ log :: after)) = js_get "CookiesService" log.
Proof.
  intros Hbefore Hlog.
  induction Hbefore as [|x before [Hnull Hother] _ IH]; simpl.
  - destruct log as [| | | |items|fields]; try done. simpl in *.
    by destruct (bool_decide (is_Some (assoc "CookiesService" fields))).
  - destruct x as [| | | |items|fields]; try done; simpl in *.
    destruct (bool_decide (is_Some (assoc "CookiesService" fields))); [|done].
    by destruct Hother.
Qed.

(** Without such a record the variable keeps its value, however the
    loop ends. *)
Lemma scan_logs_none (cookies : Json) (logs : list Json) :
  filter cookies_sourced logs = [] →
  fst (scan_logs cookies logs) = cookies.
Proof.
  induction logs as [|log logs IH]; [done|].
  rewrite filter_cons. destruct (decide (cookies_sourced log)) as [|Hother]; [done|].
  intros Hnone. simpl.
  destruct log as [| | | |items|fields]; simpl in *; auto.
  destruct (bool_decide (is_Some (assoc "CookiesService" fields))); [|auto].
  by destruct Hother.
Qed.

Lemma filter_cookies_sourced_chars (cs : list ascii) :
  filter cookies_sourced (map (λ c, JStr (String c EmptyString)) cs) = [].
Proof.
  induction cs as [|c cs IH]; [done|]. simpl. rewrite filter_cons.
  by destruct (decide (cookies_sourced (JStr (String c EmptyString)))).
Qed.

(** C4, as the code has it.  [loadCookiesFromStorage] never throws; it
    returns the cookie set of the first record of [CookiesService] in
    the snapshot (the oldest one, the log being in order of time), and
    the empty set when the file is missing or is no JSON, when its
    content is no array, and when no record of [CookiesService] is in
    it. *)
Theorem loadCookiesFromStorage_first_record :
  (∀ fs path, ∃ cookies, loadCookiesFromStorage fs path = Returns cookies) ∧
  (∀ fs path before log after,
     fs path = Some (JArr (before ++ log :: after)) →
     Forall (λ x, x ≠ JNull ∧ ¬ cookies_sourced x) before →
     cookies_sourced log →
     loadCookiesFromStorage fs path = Returns (js_get "CookiesService" log)) ∧
  (∀ fs path,
     fs path = None → loadCookiesFromStorage fs path = Returns (JArr [])) ∧
  (∀ fs path content,
     fs path = Some content → (∀ logs, content ≠ JArr logs) →
     loadCookiesFromStorage fs path = Returns (JArr [])) ∧
  (∀ fs path logs,
     fs path = Some (JArr logs) → filter cookies_sourced logs = [] →
     loadCookiesFromStorage fs path = Returns (JArr [])).
Proof.
  repeat split.
  - intros fs path. eexists. apply loadCookiesFromStorage_returns.
  - intros fs path before log after Hfile Hbefore Hlog.
    rewrite loadCookiesFromStorage_returns. f_equal.
    unfold import_then_scan, import_json. rewrite Hfile. simpl.
    by apply scan_logs_first.
  - intros fs path Hfile. rewrite loadCookiesFromStorage_returns.
    unfold import_then_scan, import_json. by rewrite Hfile.
  - intros fs path content Hfile Hshape. rewrite loadCookiesFromStorage_returns.
    unfold import_then_scan, import_json. rewrite Hfile. f_equal.
    destruct content as [| | |text|items|fields]; try done.
    + simpl. apply scan_logs_none, filter_cookies_sourced_chars.
    + by destruct (Hshape items).
  - intros fs path logs Hfile Hnone. rewrite loadCookiesFromStorage_returns.
    unfold import_then_scan, import_json. rewrite Hfile. f_equal. simpl.
    by apply scan_logs_none.
Qed.

Lemma loadCookiesFromStorage_first_record_witness :
  Fixture.storage "output.json" = Some (JArr Fixture.snapshot) ∧
  loadCookiesFromStorage Fixture.storage "output.json"
  = Returns (JArr [Fixture.older]).
Proof.
  split; [reflexivity|].
  refine (proj1 (proj2 loadCookiesFromStorage_first_record)
            Fixture.storage "output.json"
            [JObj [("NavigationService",
                    JArr [JObj [("url", JStr "https://www.myjob.mu/")]])]]
            (JObj [("CookiesService", JArr [Fixture.older])])
            [JObj [("ContentService", JArr [JStr "<body></body>"])];
             JObj [("CookiesService", JArr [Fixture.newer])]]
            _ _ _).
  - reflexivity.
  - repeat constructor; [discriminate | vm_compute; exact id].
  - vm_compute. exact I.
Defined.

(** C4, as the specification has it, fails on a snapshot with two
    records of [CookiesService]: the call returns the cookies of the
    older record, not those of the most recent one. *)
Lemma loadCookiesFromStorage_not_most_recent :
  loadCookiesFromStorage Fixture.storage "output.json"
    ≠ Returns (most_recent_cookies Fixture.snapshot).
Proof. vm_compute. discriminate. Qed.

(** ** The request interceptor *)

Lemma indexOf_blocked (resource : string) :
  0 ≤ indexOf String.eqb ["font"; "stylesheet"; "other"] resource
  ↔ resource ∈ ["font"; "stylesheet"; "other"].
Proof.
  unfold indexOf. cbn [indexOf_from].
  rewrite !elem_of_cons, elem_of_nil.
  destruct (String.eqb_spec "font" resource) as [<-|Hfont];
    cbv iota; [split; [auto|lia]|].
  destruct (String.eqb_spec "stylesheet" resource) as [<-|Hsheet];
    cbv iota; [split; [auto|lia]|].
  destruct (String.eqb_spec "other" resource) as [<-|Hother];
    cbv iota; [split; [auto|lia]|].
  split; [lia|]. intros [->|[->|[->|[]]]]; congruence.
Qed.

(** C7. For every request that the interceptor observes, the record it
    pushes has [aborted] true exactly when the resource type is one of
    [font], [stylesheet], [other]; then the request is aborted, and
    otherwise (so for every [document]) it is continued, with no
    override. *)
Theorem request_interception (request : HTTPRequest) (s : Session) :
  ∃ aborted : bool,
    (aborted = true ↔ resourceType request ∈ ["font"; "stylesheet"; "other"]) ∧
    callback RequestInterceptorListener (request_event request) s
    = (Returned tt,
       asked (if aborted then RequestAbort request else RequestContinue request)
         (push {| sourceName := "RequestInterceptorListener";
                  payload := [VRequest request aborted] |} s)) ∧
    (resourceType request = "document" → aborted = false).
Proof.
  exists (bool_decide (0 ≤ indexOf String.eqb ["font"; "stylesheet"; "other"]
                         (resourceType request))).
  split; [|split].
  - rewrite bool_decide_eq_true. apply indexOf_blocked.
  - simpl. unfold on_request, bind, statePush, tell.
    by destruct (bool_decide _).
  - intros ->. reflexivity.
Qed.

Lemma request_interception_witness :
  Fixture.font_request.(resourceType) ∈ ["font"; "stylesheet"; "other"] ∧
  ∃ aborted : bool,
    (aborted = true
     ↔ resourceType Fixture.font_request ∈ ["font"; "stylesheet"; "other"]) ∧
    callback RequestInterceptorListener (request_event Fixture.font_request)
      Fixture.initialized
    = (Returned tt,
       asked (if aborted then RequestAbort Fixture.font_request
              else RequestContinue Fixture.font_request)
         (push {| sourceName := "RequestInterceptorListener";
                  payload := [VRequest Fixture.font_request aborted] |}
            Fixture.initialized)) ∧
    (resourceType Fixture.font_request = "document" → aborted = false).
Proof.
  split; [apply list_elem_of_here|].
  exact (request_interception Fixture.font_request Fixture.initialized).
Defined.

(** ** The session manager before [initialize] *)

(** C10. [initialize] with options that have neither [browserWSEndpoint]
    nor [executablePath], on a manager without a browser: no browser is
    assigned, the call throws the ["Missing browser instance"] of the
    accessor, and the session is as it was: no request has gone to the
    driver (no page is opened), no listener is attached, and an
    uninitialized manager is still uninitialized. *)
Theorem initialize_without_browser (browser : Browser) (options : Options)
    (s : Session) :
  browserWSEndpoint options = None →
  executablePath options = None →
  _browser s = None →
  initialize browser options s = (Threw "Missing browser instance", s) ∧
  (Uninitialized s → Uninitialized (snd (initialize browser options s))).
Proof.
  intros Hendpoint Hpath Hbrowser.
  assert (initialize browser options s = (Threw "Missing browser instance", s)) as Hrun.
  { unfold initialize. rewrite Hendpoint, Hpath.
    rewrite !bool_decide_eq_false_2 by (by intros [? ?]).
    unfold bind, ret, get_browser. by rewrite Hbrowser. }
  split; [done|]. by rewrite Hrun.
Qed.

Lemma initialize_without_browser_witness :
  let options := {| browserWSEndpoint := None; executablePath := None;
                    ignoreHTTPSErrors := Some true |} in
  browserWSEndpoint options = None ∧
  executablePath options = None ∧
  _browser new_BrowserManager = None ∧
  initialize Fixture.browser options new_BrowserManager
  = (Threw "Missing browser instance", new_BrowserManager) ∧
  (Uninitialized new_BrowserManager →
   Uninitialized (snd (initialize Fixture.browser options new_BrowserManager))).
Proof.
  intros options. do 3 (split; [reflexivity|]).
  apply (initialize_without_browser Fixture.browser options new_BrowserManager);
    reflexivity.
Defined.

(** ** Traffic: what the listeners do while the program waits *)

Lemma heard_refl (s : Session) : heard s s.
Proof.
  split; try done; exists []; by rewrite app_nil_r.
Qed.

Lemma heard_trans (s1 s2 s3 : Session) : heard s1 s2 → heard s2 s3 → heard s1 s3.
Proof.
  intros [Hp1 Hb1 Ha1 (h1 & Hh1 & Hl1) (r1 & Hr1 & Hs1)]
         [Hp2 Hb2 Ha2 (h2 & Hh2 & Hl2) (r2 & Hr2 & Hs2)].
  split; try congruence.
  - exists (h1 ++ h2). rewrite Hh2, Hh1, app_assoc. by rewrite Forall_app.
  - exists (r1 ++ r2). rewrite Hr2, Hr1, app_assoc. by rewrite Forall_app.
Qed.

Lemma by_listener_name (l : Listener) (data : list Value) :
  by_listener {| sourceName := listener_name l; payload := data |}.
Proof.
  apply bool_decide_pack. simpl.
  destruct l; [apply list_elem_of_here|apply list_elem_of_further, list_elem_of_here].
Qed.

Lemma callback_heard (l : Listener) (event : NetEvent) (s : Session) :
  heard s (snd (callback l event s)).
Proof.
  destruct l, event as [request|response|read]; simpl; try apply heard_refl.
  - unfold on_request, bind, statePush, tell.
    destruct (bool_decide _); simpl; (split; try done;
      [eexists [_]; split; [done|by repeat constructor]
      |eexists [_]; split; [done|]; repeat constructor;
       apply (by_listener_name RequestInterceptorListener)]).
  - unfold on_response, tell. split; try done.
    + eexists [_]. split; [done|by repeat constructor].
    + exists []. by rewrite app_nil_r.
  - unfold on_text.
    destruct (history s !! read) as [[]|]; try apply heard_refl.
    unfold bind, catch, settle, statePush.
    destruct (text r) as [body|msg]; simpl; (split; try done;
      [exists []; by rewrite app_nil_r
      |eexists [_]; split; [done|]; repeat constructor;
       apply (by_listener_name ResponseInterceptorListener)]).
Qed.

Lemma callbacks_heard (event : NetEvent) (listeners : list Listener) (s : Session) :
  heard s (fold_left (λ s l, snd (callback l event s)) listeners s).
Proof.
  revert s. induction listeners as [|l listeners IH]; intros s; simpl.
  - apply heard_refl.
  - eapply heard_trans; [apply (callback_heard l event s) | apply IH].
Qed.

Lemma emit_heard (page : nat) (event : NetEvent) (s : Session) :
  heard s (emit page event s).
Proof. apply callbacks_heard. Qed.

Lemma traffic_heard (events : list (nat * NetEvent)) (s : Session) :
  heard s (fold_left (λ s '(page, event), emit page event s) events s).
Proof.
  revert s. induction events as [|[page event] events IH]; intros s; simpl.
  - apply heard_refl.
  - eapply heard_trans; [apply emit_heard | apply IH].
Qed.

(** An awaited request settles as the browser decides, in a session
    that has the request in its history and has heard some traffic. *)
Lemma await_inv (browser : Browser) (r : Request) (s : Session) :
  heard (asked r s) (snd (await browser r s)) ∧
  fst (await browser r s)
  = match rejects browser (history s) r with
    | Some msg => Threw msg
    | None => Returned (view browser (history s))
    end.
Proof.
  unfold await.
  pose proof (traffic_heard (traffic browser (history s) r) (asked r s)) as Hheard.
  by destruct (rejects browser (history s) r).
Qed.

(** ** The log only grows (C9) *)

Create HintDb extends discriminated.

Lemma extends_ret {A} (a : A) : extends (ret a).
Proof. by intros s. Qed.

Lemma extends_throw {A} (msg : string) : extends (throw (A:=A) msg).
Proof. by intros s. Qed.

Lemma extends_settle {A} (o : Outcome A) : extends (settle o).
Proof. destruct o; [apply extends_ret | apply extends_throw]. Qed.

Lemma extends_bind {A B} (c : M A) (k : A → M B) :
  extends c → (∀ a, extends (k a)) → extends (bind c k).
Proof.
  intros Hc Hk s. unfold bind. specialize (Hc s).
  destruct (c s) as [[a|msg|] s']; simpl in *; [|done..].
  etrans; [exact Hc | apply Hk].
Qed.

Lemma extends_catch {A} (c : M A) (h : string → M A) :
  extends c → (∀ msg, extends (h msg)) → extends (catch c h).
Proof.
  intros Hc Hh s. unfold catch. specialize (Hc s).
  destruct (c s) as [[a|msg|] s']; simpl in *; [done| |done].
  etrans; [exact Hc | apply Hh].
Qed.

Lemma extends_statePush (name : string) (data : list Value) :
  extends (statePush name data).
Proof. intros s. simpl. by apply prefix_app_r. Qed.

Lemma extends_tell (r : Request) : extends (tell r).
Proof. by intros s. Qed.

Lemma heard_prefix (s s' : Session) : heard s s' → _state s `prefix_of` _state s'.
Proof. intros [_ _ _ _ (records & -> & _)]. by apply prefix_app_r. Qed.

Lemma extends_await (browser : Browser) (r : Request) : extends (await browser r).
Proof.
  intros s. destruct (await_inv browser r s) as [Hheard _].
  by apply heard_prefix in Hheard.
Qed.

Lemma extends_current_url (browser : Browser) : extends (current_url browser).
Proof. by intros s. Qed.

#[local] Hint Resolve extends_ret extends_throw extends_settle extends_bind
  extends_catch extends_statePush extends_tell extends_await
  extends_current_url : extends.

Lemma extends_measure (browser : Browser) (selector : string) (dir : Direction) :
  extends (measure browser selector dir).
Proof.
  unfold measure. apply extends_bind; [auto with extends|].
  intros p. destruct (querySelector p selector); auto with extends.
Qed.

Lemma extends_scroll_element (browser : Browser) (selector : string) (dir : Direction) :
  extends (scroll_element browser selector dir).
Proof.
  unfold scroll_element. apply extends_bind; [auto with extends|].
  intros p. unfold scroll_to_end.
  destruct (querySelector p selector), dir; auto with extends.
Qed.

#[local] Hint Resolve extends_measure extends_scroll_element : extends.

Lemma extends_scroll_loop (browser : Browser) (iterations : nat)
    (selector : string) (dir : Direction) (previousSize currentSize : Z) :
  extends (scroll_loop browser iterations selector dir previousSize currentSize).
Proof.
  revert previousSize currentSize.
  induction iterations as [|iterations IH]; intros previousSize currentSize;
    simpl; destruct (bool_decide _); auto with extends.
  - by intros s.
  - unfold scroll_pass. auto 10 with extends.
Qed.

#[local] Hint Resolve extends_scroll_loop : extends.

Lemma extends_perform (browser : Browser) (storage : Storage) (iterations : nat)
    (c : Call) :
  extends (perform browser storage iterations c).
Proof.
  destruct c; simpl;
    unfold screenshot, loadCookies, setCookies, getCookies, close, click,
      discover, navigate, getResults, scroll, getContent;
    auto 12 with extends.
  - destruct input as [[|cookie more]|]; auto with extends.
  - apply extends_bind; [|auto with extends].
    apply extends_bind; [auto 8 with extends|].
    intros [|]; auto with extends.
Qed.

(** C9. The log is append-only: whatever a call of a service method
    does, and however it ends, the log before the call is a prefix of
    the log after it; the same holds of every callback of a listener.
    Records are pushed at the end, in the order of the calls. *)
Theorem log_is_append_only :
  (∀ browser storage iterations call s,
     _state s `prefix_of` _state (snd (perform browser storage iterations call s))) ∧
  (∀ listener event s,
     _state s `prefix_of` _state (snd (callback listener event s))) ∧
  (∀ name data s,
     _state (snd (statePush name data s))
     = _state s ++ [{| sourceName := name; payload := data |}]).
Proof.
  split; [|split].
  - intros browser storage iterations call. apply extends_perform.
  - intros listener event s. apply heard_prefix, callback_heard.
  - done.
Qed.

(** ** Who pushes what (C5) *)

Lemma by_service_name (service : Service) (data : list Value) :
  by_service {| sourceName := service_name service; payload := data |}.
Proof.
  apply bool_decide_pack. simpl.
  destruct service; rewrite !elem_of_cons; auto 10.
Qed.

Lemma by_listener_not_by_service (record : EventRecord) :
  by_listener record → ¬ by_service record.
Proof.
  intros Hl%bool_decide_unpack%list_elem_of_In Hs%bool_decide_unpack%list_elem_of_In.
  unfold listenersRegistry, serviceRegistry in *. simpl in Hl, Hs.
  destruct Hl as [Hl|[Hl|[]]]; rewrite <- Hl in Hs;
    repeat (destruct Hs as [Hs|Hs]; [discriminate|]); done.
Qed.

Lemma own_listener_records (records : list EventRecord) :
  Forall by_listener records → own records = [].
Proof.
  unfold own. induction 1 as [|record records Hrecord _ IH]; [done|].
  rewrite filter_cons. destruct (decide (by_service record)) as [Hservice|]; [|done].
  by destruct (by_listener_not_by_service record).
Qed.

Lemma heard_own (s s' : Session) : heard s s' → own (_state s') = own (_state s).
Proof.
  intros [_ _ _ _ (records & -> & Hrecords)]. unfold own.
  rewrite filter_app. fold (own records).
  by rewrite (own_listener_records records Hrecords), app_nil_r.
Qed.

Lemma silent_ret {A} (a : A) : silent (ret a).
Proof. by intros s. Qed.

Lemma silent_throw {A} (msg : string) : silent (throw (A:=A) msg).
Proof. by intros s. Qed.

Lemma silent_settle {A} (o : Outcome A) : silent (settle o).
Proof. destruct o; [apply silent_ret | apply silent_throw]. Qed.

Lemma silent_bind {A B} (c : M A) (k : A → M B) :
  silent c → (∀ a, silent (k a)) → silent (bind c k).
Proof.
  intros Hc Hk s. unfold bind. specialize (Hc s).
  destruct (c s) as [[a|msg|] s']; simpl in *; [|done..].
  by rewrite Hk.
Qed.

Lemma silent_catch {A} (c : M A) (h : string → M A) :
  silent c → (∀ msg, silent (h msg)) → silent (catch c h).
Proof.
  intros Hc Hh s. unfold catch. specialize (Hc s).
  destruct (c s) as [[a|msg|] s']; simpl in *; [done| |done].
  by rewrite Hh.
Qed.

Lemma silent_await (browser : Browser) (r : Request) : silent (await browser r).
Proof.
  intros s. destruct (await_inv browser r s) as [Hheard _].
  by apply heard_own in Hheard.
Qed.

Lemma silent_current_url (browser : Browser) : silent (current_url browser).
Proof. by intros s. Qed.

Create HintDb silent discriminated.
#[local] Hint Resolve silent_ret silent_throw silent_settle silent_bind
  silent_catch silent_await silent_current_url : silent.

Lemma silent_measure (browser : Browser) (selector : string) (dir : Direction) :
  silent (measure browser selector dir).
Proof.
  unfold measure. apply silent_bind; [auto with silent|].
  intros p. destruct (querySelector p selector); auto with silent.
Qed.

Lemma silent_tell (r : Request) : silent (tell r).
Proof. by intros s. Qed.

#[local] Hint Resolve silent_tell : silent.

Lemma silent_scroll_pass (browser : Browser) (selector : string) (dir : Direction) :
  silent (scroll_pass browser selector dir).
Proof.
  unfold scroll_pass, scroll_element.
  apply silent_bind; [|intros _; pose proof silent_measure; auto 8 with silent].
  apply silent_bind; [auto with silent|].
  intros p. unfold scroll_to_end.
  destruct (querySelector p selector), dir; auto with silent.
Qed.

Lemma silent_scroll_loop (browser : Browser) (iterations : nat)
    (selector : string) (dir : Direction) (previousSize currentSize : Z) :
  silent (scroll_loop browser iterations selector dir previousSize currentSize).
Proof.
  revert previousSize currentSize.
  induction iterations as [|iterations IH]; intros previousSize currentSize;
    simpl; destruct (bool_decide _); auto with silent.
  - by intros s.
  - apply silent_bind; [apply silent_scroll_pass | auto].
Qed.

#[local] Hint Resolve silent_measure silent_scroll_loop : silent.

(** A computation that returns has pushed [n] records under [name]. *)
Lemma appends_silent {A} (name : string) (c : M A) : silent c → appends name 0 c.
Proof.
  intros Hc s a s' Hrun. exists []. specialize (Hc s). rewrite Hrun in Hc.
  simpl in Hc. by rewrite Hc, app_nil_r.
Qed.

Lemma appends_bind_silent {A B} (name : string) (n : nat) (c : M A) (k : A → M B) :
  silent c → (∀ a, appends name n (k a)) → appends name n (bind c k).
Proof.
  intros Hc Hk s b s' Hrun. unfold bind in Hrun. specialize (Hc s).
  destruct (c s) as [[a|msg|] s1]; [|done..]. simpl in Hc.
  destruct (Hk a s1 b s' Hrun) as (records & Hown & Hn & Hnames).
  exists records. by rewrite Hown, Hc.
Qed.

Lemma appends_push_then {A} (service : Service) (data : list Value) (k : M A) :
  silent k →
  appends (service_name service) 1 (statePush (service_name service) data;; k).
Proof.
  intros Hk s a s' Hrun. unfold bind, statePush in Hrun.
  specialize (Hk (push {| sourceName := service_name service; payload := data |} s)).
  rewrite Hrun in Hk. simpl in Hk.
  exists [{| sourceName := service_name service; payload := data |}].
  rewrite Hk. unfold own. rewrite filter_app.
  rewrite filter_cons, filter_nil.
  destruct (decide (by_service {| sourceName := service_name service;
                                  payload := data |})) as [_|Hno];
    [|destruct Hno; apply by_service_name].
  repeat split; by repeat constructor.
Qed.

Lemma appends_statePush (service : Service) (data : list Value) :
  appends (service_name service) 1 (statePush (service_name service) data).
Proof.
  intros s [] s' [= <-].
  exists [{| sourceName := service_name service; payload := data |}].
  simpl. unfold own. rewrite filter_app, filter_cons, filter_nil.
  destruct (decide (by_service {| sourceName := service_name service;
                                  payload := data |})) as [_|Hno];
    [|destruct Hno; apply by_service_name].
  repeat split; by repeat constructor.
Qed.

Lemma appends_then_ret {A B} (name : string) (n : nat) (c : M A) (b : B) :
  appends name n c → appends name n (c;; ret b).
Proof.
  intros Hc s b' s' Hrun. unfold bind in Hrun.
  destruct (c s) as [[a|msg|] s1] eqn:Hcs; [|done..].
  injection Hrun as _ <-. by apply (Hc s a).
Qed.

Lemma perform_appends (browser : Browser) (storage : Storage) (iterations : nat)
    (c : Call) :
  appends (service_name (service_of c)) (pushes c)
    (perform browser storage iterations c).
Proof.
  destruct c; simpl.
  - apply appends_then_ret. unfold screenshot.
    apply appends_bind_silent; [auto with silent|].
    intros shot. apply (appends_statePush ScreenshotService).
  - apply appends_silent. unfold loadCookies. auto with silent.
  - apply appends_silent. unfold setCookies.
    destruct input as [[|cookie more]|]; auto 6 with silent.
  - apply appends_then_ret. unfold getCookies.
    apply appends_bind_silent; [auto with silent|].
    intros p. apply (appends_statePush CookiesService).
  - apply appends_silent. unfold close.
    apply silent_bind; [|auto with silent].
    apply silent_bind; [auto 8 with silent|].
    intros [|]; auto 6 with silent.
  - apply appends_then_ret.
    apply (appends_push_then ClickService). auto 8 with silent.
  - apply appends_then_ret. unfold discover.
    apply appends_bind_silent; [auto with silent|]. intros p1.
    apply appends_bind_silent; [auto with silent|]. intros p2.
    apply (appends_statePush PaginationService).
  - apply appends_then_ret.
    apply (appends_push_then NavigationService). auto 8 with silent.
  - apply appends_then_ret. unfold getResults.
    apply appends_bind_silent; [auto with silent|]. intros p1.
    apply appends_bind_silent; [auto with silent|]. intros address.
    apply appends_bind_silent; [auto with silent|]. intros p2.
    apply appends_bind_silent; [auto with silent|]. intros p3.
    apply (appends_statePush MetricsService).
  - apply appends_then_ret.
    apply (appends_push_then ScrollService). auto 12 with silent.
  - apply appends_then_ret. unfold getContent.
    apply appends_bind_silent; [auto with silent|].
    intros p. apply (appends_statePush ContentService).
Qed.

Lemma perform_all_appends (browser : Browser) (storage : Storage)
    (iterations : nat) (calls : list Call) (s s' : Session) :
  perform_all browser storage iterations calls s = (Returned tt, s') →
  length (own (_state s')) = (length (own (_state s)) + sum_list (map pushes calls))%nat.
Proof.
  revert s. induction calls as [|c calls IH]; intros s Hrun.
  - injection Hrun as <-. simpl. lia.
  - unfold perform_all in Hrun. simpl in Hrun. unfold bind at 1 2 in Hrun.
    destruct (perform browser storage iterations c s) as [[a|msg|] s1] eqn:Hc;
      [|done..].
    simpl in Hrun. apply IH in Hrun.
    destruct (perform_appends browser storage iterations c s a s1 Hc)
      as (records & Hown & Hn & _).
    rewrite Hrun, Hown, length_app, Hn. simpl. lia.
Qed.

(** C5, as the code has it.  A call of a service method that completes
    has pushed exactly one record of its own, under the name of its
    service, unless it is [loadCookiesFromStorage], [setCookies] or
    [close] of the cookies service, which push none; so after a
    sequence of calls that complete, the services' records in the log
    are as many more as there were calls of the other methods.  (The
    listeners push their records in between.) *)
Theorem services_push_once_or_never :
  (∀ browser storage iterations call s result s',
     perform browser storage iterations call s = (Returned result, s') →
     ∃ records,
       own (_state s') = own (_state s) ++ records ∧
       length records = pushes call ∧
       Forall (λ record, sourceName record = service_name (service_of call)) records) ∧
  (∀ browser storage iterations calls s s',
     perform_all browser storage iterations calls s = (Returned tt, s') →
     length (own (_state s'))
     = (length (own (_state s)) + sum_list (map pushes calls))%nat).
Proof.
  split.
  - intros browser storage iterations call s result s'. apply perform_appends.
  - intros browser storage iterations calls s s'. apply perform_all_appends.
Qed.

Lemma services_push_once_or_never_witness :
  let calls := [call_navigate "https://www.myjob.mu/" None;
                call_scroll "#feed" None;
                call_setCookies (Some [Fixture.older]);
                call_getResults] in
  let run := perform_all Fixture.browser Fixture.storage 2 calls Fixture.initialized in
  run = (Returned tt, snd run) ∧
  length (own (_state (snd run)))
  = (length (own (_state Fixture.initialized)) + sum_list (map pushes calls))%nat.
Proof.
  intros calls run.
  assert (run = (Returned tt, snd run)) as Hrun by (vm_compute; reflexivity).
  split; [exact Hrun|].
  exact (proj2 services_push_once_or_never Fixture.browser Fixture.storage 2%nat
           calls Fixture.initialized (snd run) Hrun).
Defined.

(** C5, as the specification has it, fails: [setCookies] with a cookie
    completes and leaves the log as long as it was. *)
Lemma setCookies_pushes_nothing :
  let run := perform Fixture.browser Fixture.storage 0
               (call_setCookies (Some [Fixture.older])) Fixture.initialized in
  fst run = Returned JNull ∧
  length (_state (snd run)) ≠ (length (_state Fixture.initialized) + 1)%nat.
Proof. split; vm_compute; [reflexivity | discriminate]. Qed.

(** ** The scroll loop (C1) *)

Lemma polls_app (h h' : list Request) : polls (h ++ h') = (polls h + polls h')%nat.
Proof. unfold polls. by rewrite filter_app, length_app. Qed.

Lemma scroll_actions_app (h h' : list Request) :
  scroll_actions (h ++ h') = (scroll_actions h + scroll_actions h')%nat.
Proof. unfold scroll_actions. by rewrite filter_app, length_app. Qed.

Lemma listener_requests_uncounted (h : list Request) :
  Forall from_listener h → polls h = 0%nat ∧ scroll_actions h = 0%nat.
Proof.
  unfold polls, scroll_actions.
  induction 1 as [|r h Hr _ [IHp IHa]]; [done|].
  rewrite !filter_cons. by destruct r.
Qed.

Lemma asked_counted (r : Request) (s : Session) :
  polls (history (asked r s))
  = (polls (history s) + if is_measurement r then 1 else 0)%nat ∧
  scroll_actions (history (asked r s))
  = (scroll_actions (history s) + if is_scroll_action r then 1 else 0)%nat.
Proof.
  simpl. rewrite polls_app, scroll_actions_app.
  unfold polls at 2, scroll_actions at 2. rewrite !filter_cons, !filter_nil.
  split; [destruct (decide (is_measurement r)) as [Hm|Hm]
         |destruct (decide (is_scroll_action r)) as [Hm|Hm]];
    destruct (is_measurement r), (is_scroll_action r); simpl in *; done.
Qed.

(** An awaited request ends one way or the other, and adds itself to
    the counts; the traffic adds nothing. *)
Lemma await_ended (browser : Browser) (r : Request) (s : Session) :
  ∃ o s', await browser r s = (o, s') ∧
          ended browser o s s'
            (if is_measurement r then 1 else 0) (if is_scroll_action r then 1 else 0)
            (λ p, p = view browser (history s)).
Proof.
  destruct (await_inv browser r s) as [Hheard Hresult].
  destruct (await browser r s) as [o s']. simpl in Hheard, Hresult.
  exists o, s'. split; [done|].
  destruct Hheard as [_ _ _ (answers & Hhistory & Hanswers) _].
  apply listener_requests_uncounted in Hanswers as [Hp Ha].
  destruct (asked_counted r s) as [Hp' Ha'].
  assert (polls (history s')
          = (polls (history s) + if is_measurement r then 1 else 0)%nat ∧
          scroll_actions (history s')
          = (scroll_actions (history s) + if is_scroll_action r then 1 else 0)%nat)
    as [Hpolls Hactions].
  { rewrite Hhistory, polls_app, scroll_actions_app, Hp, Ha, Hp', Ha'. lia. }
  subst o. destruct (rejects browser (history s) r) as [msg|] eqn:Hrejects; simpl.
  - split; [|lia]. intros Hcalm. by rewrite Hcalm in Hrejects.
  - done.
Qed.

Lemma await_counted (browser : Browser) (r : Request) (s : Session) :
  responsive browser →
  ∃ s', await browser r s = (Returned (view browser (history s)), s') ∧
        polls (history s')
        = (polls (history s) + if is_measurement r then 1 else 0)%nat ∧
        scroll_actions (history s')
        = (scroll_actions (history s) + if is_scroll_action r then 1 else 0)%nat.
Proof.
  intros Hcalm.
  destruct (await_ended browser r s) as ([p|msg|] & s' & Hrun & Hended);
    simpl in Hended; [|by destruct Hended|done].
  destruct Hended as (-> & Hp & Ha). by exists s'.
Qed.

(** Two computations in a row: the counts add up. *)
Lemma ended_bind {A B} (browser : Browser) (c : M A) (k : A → M B) (s : Session)
    (m1 a1 m2 a2 : nat) (P : A → Prop) (Q : B → Prop) :
  (∃ o s1, c s = (o, s1) ∧ ended browser o s s1 m1 a1 P) →
  (∀ a s1,
     P a →
     polls (history s1) = (polls (history s) + m1)%nat →
     scroll_actions (history s1) = (scroll_actions (history s) + a1)%nat →
     ∃ o s', k a s1 = (o, s') ∧ ended browser o s1 s' m2 a2 Q) →
  ∃ o s', bind c k s = (o, s') ∧ ended browser o s s' (m1 + m2) (a1 + a2) Q.
Proof.
  intros (o1 & s1 & Hc & Hended) Hk. unfold bind. rewrite Hc.
  destruct o1 as [a|msg|]; simpl in Hended;
    [|by eexists _, _; split; [done|]; simpl; intuition lia|done].
  destruct Hended as (Ha & Hp1 & Ha1).
  destruct (Hk a s1 Ha Hp1 Ha1) as (o & s' & Hrun & Hended).
  exists o, s'. split; [done|].
  destruct o as [b|msg|]; simpl in *; [|intuition lia|done].
  intuition lia.
Qed.

Lemma ended_weaken {A} (browser : Browser) (o : Run A) (s s' : Session)
    (m a : nat) (P Q : A → Prop) :
  ended browser o s s' m a P → (∀ x, P x → Q x) → ended browser o s s' m a Q.
Proof. destruct o; simpl; [|done..]. intros (HP & Hp & Ha) HPQ. auto. Qed.

Lemma ended_ret {A} (browser : Browser) (a : A) (s : Session) (P : A → Prop) :
  P a → ∃ o s', ret a s = (o, s') ∧ ended browser o s s' 0 0 P.
Proof. intros Ha. exists (Returned a), s. split; [done|]. simpl. intuition lia. Qed.

Lemma scroll_to_end_ended (browser : Browser) (selector : string)
    (dir : Direction) (element : Element) (s : Session) :
  ∃ o s', scroll_to_end selector dir element s = (o, s') ∧
          ended browser o s s' 0 0 (λ _, True).
Proof.
  unfold scroll_to_end, bind, tell, ret.
  destruct dir; eexists _, _; (split; [reflexivity|]); unfold ended;
    rewrite ?(proj1 (asked_counted _ _)), ?(proj2 (asked_counted _ _));
    simpl; intuition lia.
Qed.

(** One pass, when the element is there and has the extent [m] at the
    next measurement: one scroll action and one measurement. *)
Lemma scroll_pass_ended (browser : Browser) (selector : string)
    (dir : Direction) (m : Z) (s : Session) :
  (∀ h, polls h = polls (history s) →
        ∃ element, querySelector (view browser h) selector = Some element ∧
                   measured_extent dir element = m) →
  ∃ o s', scroll_pass browser selector dir s = (o, s') ∧
          ended browser o s s' 1 1 (λ currentSize, currentSize = m).
Proof.
  intros Helement. unfold scroll_pass.
  apply (ended_bind browser _ _ s 0 1 1 0 (λ _, True)).
  { unfold scroll_element.
    apply (ended_bind browser _ _ s 0 1 0 0 (λ p, p = view browser (history s)));
      [apply (await_ended browser (Evaluate (ScrollElement selector dir)))|].
    intros p s1 -> _ _.
    destruct (Helement (history s) eq_refl) as (element & -> & _).
    apply scroll_to_end_ended. }
  intros _ s1 _ Hp1 _.
  apply (ended_bind browser _ _ s1 0 0 1 0 (λ _, True)).
  { destruct (await_ended browser (WaitForNavigation "networkidle0") s1)
      as (o & s2 & Hrun & Hended).
    exists o, s2. split; [done|]. by apply (ended_weaken _ _ _ _ _ _ _ _ Hended). }
  intros _ s2 _ Hp2 _.
  apply (ended_bind browser _ _ s2 1 0 0 0 (λ currentSize, currentSize = m)).
  { unfold measure.
    apply (ended_bind browser _ _ s2 1 0 0 0 (λ p, p = view browser (history s2)));
      [apply (await_ended browser (Evaluate (MeasureExtent selector dir)))|].
    intros p s3 -> _ _.
    destruct (Helement (history s2)) as (element & -> & <-); [lia|].
    by apply ended_ret. }
  intros currentSize s3 -> _ _.
  apply (ended_bind browser _ _ s3 0 0 0 0 (λ _, True)).
  { destruct (await_ended browser (Evaluate RandomDelay) s3)
      as (o & s4 & Hrun & Hended).
    exists o, s4. split; [done|]. by apply (ended_weaken _ _ _ _ _ _ _ _ Hended). }
  intros _ s4 _ _ _. by apply ended_ret.
Qed.

Lemma drop_lookup_head {A} (k : nat) (l : list A) (x : A) (rest : list A) :
  drop k l = x :: rest → l !! k = Some x ∧ drop (S k) l = rest.
Proof.
  revert l. induction k as [|k IH]; intros [|y l]; simpl; try done.
  - intros [= -> ->]. by rewrite drop_0.
  - apply IH.
Qed.

(** The loop makes the passes that [passes] counts, if it is allotted
    that many, and leaves with the last two measurements equal. *)
Lemma scroll_loop_ended (browser : Browser) (selector : string)
    (dir : Direction) (since : History) (extents : list Z) :
  measures browser selector dir since extents →
  ∀ iterations k previous current s n,
    polls (history s) = (polls since + k)%nat →
    passes previous current (drop k extents) = Some n →
    (n ≤ iterations)%nat →
    ∃ o s',
      scroll_loop browser iterations selector dir previous current s = (o, s') ∧
      ended browser o s s' n n (λ sizes, snd sizes = fst sizes).
Proof.
  intros Hmeasures iterations.
  induction iterations as [|iterations IH]; intros k previous current s n Hk Hn Hle;
    cbn [scroll_loop];
    (destruct (decide (current ≠ previous)) as [Hne|Heq%dec_stable];
     [rewrite bool_decide_eq_true_2 by done
     |rewrite bool_decide_eq_false_2 by (by intros ?);
      assert (n = 0%nat) as ->
        by (destruct (drop k extents); simpl in Hn;
            rewrite bool_decide_eq_false_2 in Hn by (by intros ?); congruence);
      by apply ended_ret]).
  - destruct (drop k extents) as [|next upcoming]; simpl in Hn;
      rewrite bool_decide_eq_true_2 in Hn by done; [done|].
    destruct (passes current next upcoming); simpl in Hn; [|done].
    injection Hn as <-. lia.
  - destruct (drop k extents) as [|next upcoming] eqn:Hdrop; simpl in Hn;
      rewrite bool_decide_eq_true_2 in Hn by done; [done|].
    destruct (passes current next upcoming) as [n'|] eqn:Hpasses;
      simpl in Hn; [|done].
    injection Hn as <-.
    apply drop_lookup_head in Hdrop as [Hnext Hupcoming].
    apply (ended_bind browser _ _ s 1 1 n' n' (λ currentSize, currentSize = next)).
    { apply scroll_pass_ended. intros h Hh.
      apply (Hmeasures h k next); [lia | done]. }
    intros currentSize s1 -> Hp1 _.
    apply (IH (S k)); [lia | by rewrite Hupcoming | lia].
Qed.

(** [scroll] itself: the first measurement, then the loop. *)
Lemma scroll_ended (browser : Browser) (selector : string)
    (direction : option Direction) (first : Z) (upcoming : list Z)
    (iterations n : nat) (s : Session) :
  measures browser selector (default vertical direction) (history s)
    (first :: upcoming) →
  passes 0 first upcoming = Some n →
  (n ≤ iterations)%nat →
  ∃ o s', scroll browser iterations selector direction s = (o, s') ∧
          ended browser o s s' (S n) n (λ _, True).
Proof.
  intros Hmeasures Hn Hle. unfold scroll.
  apply (ended_bind browser _ _ s 0 0 (S n) n (λ _, True));
    [by eexists _, _; split; [done|]; simpl; intuition lia|].
  intros _ s0 _ Hp0 _.
  apply (ended_bind browser _ _ s0 0 0 (S n) n (λ _, True)).
  { destruct (await_ended browser (WaitForSelector selector (Some 60000)) s0)
      as (o & s1 & Hrun & Hended).
    exists o, s1. split; [done|]. by apply (ended_weaken _ _ _ _ _ _ _ _ Hended). }
  intros _ s1 _ Hp1 _.
  apply (ended_bind browser _ _ s1 1 0 n n (λ currentSize, currentSize = first)).
  { unfold measure.
    apply (ended_bind browser _ _ s1 1 0 0 0 (λ p, p = view browser (history s1)));
      [apply (await_ended browser
                (Evaluate (MeasureExtent selector (default vertical direction))))|].
    intros p s2 -> _ _.
    destruct (Hmeasures (history s1) 0%nat first) as (element & -> & <-);
      [lia | done |].
    by apply ended_ret. }
  intros currentSize s2 -> Hp2 _.
  rewrite <- (Nat.add_0_r n).
  apply (ended_bind browser _ _ s2 n n 0 0 (λ sizes, snd sizes = fst sizes)).
  { apply (scroll_loop_ended browser selector (default vertical direction)
             (history s) (first :: upcoming) Hmeasures iterations 1%nat);
      [lia | done | done]. }
  intros sizes s3 _ _ _. by apply ended_ret.
Qed.

(** On a browser that rejects nothing, a pass returns. *)
Lemma scroll_pass_counted (browser : Browser) (selector : string)
    (dir : Direction) (m : Z) (s : Session) :
  responsive browser →
  (∀ h, polls h = polls (history s) →
        ∃ element, querySelector (view browser h) selector = Some element ∧
                   measured_extent dir element = m) →
  ∃ s', scroll_pass browser selector dir s = (Returned m, s') ∧
        polls (history s') = S (polls (history s)) ∧
        scroll_actions (history s') = S (scroll_actions (history s)).
Proof.
  intros Hcalm Helement.
  destruct (scroll_pass_ended browser selector dir m s Helement)
    as ([currentSize|msg|] & s' & Hrun & Hended); simpl in Hended;
    [|by destruct Hended|done].
  destruct Hended as (-> & Hp & Ha). exists s'. split; [done|]. lia.
Qed.





(** ** Pagination discovery on a page with five numbered links (C6) *)












(** * More properties of the program *)

(** ** What the listeners record *)

Lemma registered_listeners_of (page p : nat) (s : Session) :
  attached s = listeners_of p →
  registered page s = if bool_decide (p = page) then listenersRegistry else [].
Proof.
  intros Hattached. unfold registered. rewrite Hattached.
  unfold listeners_of, listenersRegistry. cbn [fmap list_fmap].
  destruct (decide (p = page)) as [Heq|Hne].
  - rewrite bool_decide_eq_true_2 by done. by rewrite !filter_cons_True.
  - rewrite bool_decide_eq_false_2 by done. by rewrite !filter_cons_False.
Qed.

(** What the two listeners of a page do when an event happens on it. *)
Lemma emit_effect (p : nat) (event : NetEvent) (s : Session) :
  attached s = listeners_of p →
  emit p event s
  = let s1 := match record_of (history s) event with
              | Some record => push record s
              | None => s
              end in
    match answer_of event with
    | Some answer => asked answer s1
    | None => s1
    end.
Proof.
  intros Hattached. unfold emit.
  rewrite (registered_listeners_of p p s Hattached), bool_decide_eq_true_2 by done.
  destruct event as [request|response|read]; simpl.
  - unfold on_request, bind, statePush, tell, request_record, blocked.
    rewrite (bool_decide_ext _ _ (indexOf_blocked (resourceType request))).
    by destruct (bool_decide (resourceType request ∈ _)).
  - done.
  - unfold on_text. destruct (history s !! read) as [[]|]; try done.
    unfold bind, catch, settle, statePush, response_record.
    by destruct (text r).
Qed.

(** The handlers of a page do not hear what happens on another. *)
Lemma emit_elsewhere (p page : nat) (event : NetEvent) (s : Session) :
  attached s = listeners_of p → page ≠ p → emit page event s = s.
Proof.
  intros Hattached Hpage. unfold emit.
  rewrite (registered_listeners_of page p s Hattached), bool_decide_eq_false_2 by done.
  by destruct event.
Qed.

Lemma on_page_cons (p page : nat) (event : NetEvent) (events : list (nat * NetEvent)) :
  on_page p ((page, event) :: events)
  = if bool_decide (page = p) then event :: on_page p events else on_page p events.
Proof.
  unfold on_page. destruct (decide (page = p)) as [Heq|Hne].
  - rewrite bool_decide_eq_true_2 by done. by rewrite filter_cons_True.
  - rewrite bool_decide_eq_false_2 by done. by rewrite filter_cons_False.
Qed.

Lemma interceptions_app (log more : list EventRecord) :
  interceptions (log ++ more) = interceptions log ++ interceptions more.
Proof. apply filter_app. Qed.

Lemma responses_app (log more : list EventRecord) :
  responses (log ++ more) = responses log ++ responses more.
Proof. apply filter_app. Qed.

Lemma emit_step (p : nat) (event : NetEvent) (s : Session) :
  attached s = listeners_of p →
  history (emit p event s) = history s ++ option_list (answer_of event) ∧
  _state (emit p event s) = _state s ++ option_list (record_of (history s) event).
Proof.
  intros Hs. rewrite (emit_effect p event s Hs). cbv zeta.
  destruct (answer_of event), (record_of (history s) event); simpl;
    by rewrite ?app_nil_r.
Qed.

Lemma traffic_effect (p : nat) (events : list (nat * NetEvent)) (s : Session) :
  attached s = listeners_of p →
  let s' := fold_left (λ s '(page, event), emit page event s) events s in
  let here := on_page p events in
  history s' = history s ++ omap answer_of here ∧
  interceptions (_state s')
  = interceptions (_state s) ++ (request_record <$> requests_of here) ∧
  (∃ bodies,
     responses (_state s') = responses (_state s) ++ (response_record <$> bodies) ∧
     (length bodies ≤ length (filter is_text_event here))%nat ∧
     Forall (λ response, ResponseText response ∈ history s') bodies) ∧
  (Forall (λ event, is_text_event event = false) here →
   _state s' = _state s ++ (request_record <$> requests_of here)).
Proof.
  revert s. induction events as [|[page event] events IH]; intros s Hs.
  { simpl. rewrite !app_nil_r. repeat split; try done.
    exists []. simpl. rewrite app_nil_r. repeat split; [lia|constructor]. }
  cbn [fold_left]. cbv zeta.
  assert (attached (emit page event s) = listeners_of p) as Hs1.
  { rewrite <- Hs. apply emit_heard. }
  destruct (IH (emit page event s) Hs1) as (Hhistory & Hrequests & Hbodies & Hplain).
  clear IH. cbv zeta in Hhistory, Hrequests, Hbodies, Hplain.
  destruct Hbodies as (bodies & Hresponses & Hlength & Hasked).
  set (s' := fold_left (λ s '(page, event), emit page event s) events
               (emit page event s)) in *.
  rewrite on_page_cons.
  destruct (decide (page = p)) as [->|Hpage].
  2:{ rewrite bool_decide_eq_false_2 by done.
      rewrite (emit_elsewhere p page event s Hs Hpage) in *.
      repeat split; try done. by exists bodies. }
  rewrite bool_decide_eq_true_2 by done.
  destruct (emit_step p event s Hs) as [Hanswer Hrecord].
  rewrite Hanswer in Hhistory. rewrite Hrecord in Hrequests, Hresponses, Hplain.
  rewrite interceptions_app in Hrequests. rewrite responses_app in Hresponses.
  clear Hs1 Hanswer Hrecord.
  set (here := on_page p events) in *.
  assert (∀ response, response ∈ bodies → ResponseText response ∈ history s')
    as Hin by (by apply Forall_forall).
  destruct event as [request|response|read].
  - change (requests_of (request_event request :: here))
      with (request :: requests_of here).
    change (omap answer_of (request_event request :: here))
      with ((if blocked request then RequestAbort request else RequestContinue request)
            :: omap answer_of here).
    change (filter is_text_event (request_event request :: here))
      with (filter is_text_event here).
    simpl in Hhistory, Hrequests, Hresponses, Hplain.
    change (interceptions [request_record request]) with [request_record request]
      in Hrequests.
    change (responses [request_record request]) with (@nil EventRecord)
      in Hresponses.
    rewrite app_nil_r in Hresponses. rewrite <- app_assoc in Hhistory, Hrequests.
    split; [done|]. split; [done|]. split; [by exists bodies|].
    intros Hno. apply Forall_cons in Hno as [_ Hno].
    rewrite (Hplain Hno), <- app_assoc. done.
  - change (requests_of (response_event response :: here)) with (requests_of here).
    change (omap answer_of (response_event response :: here))
      with (ResponseText response :: omap answer_of here).
    change (filter is_text_event (response_event response :: here))
      with (filter is_text_event here).
    simpl in Hhistory, Hrequests, Hresponses, Hplain.
    rewrite app_nil_r in Hrequests, Hresponses, Hplain.
    rewrite <- app_assoc in Hhistory.
    split; [done|]. split; [done|]. split; [by exists bodies|].
    intros Hno. apply Forall_cons in Hno as [_ Hno]. by apply Hplain.
  - change (requests_of (text_event read :: here)) with (requests_of here).
    change (omap answer_of (text_event read :: here)) with (omap answer_of here).
    change (filter is_text_event (text_event read :: here))
      with (text_event read :: filter is_text_event here).
    simpl in Hhistory. rewrite app_nil_r in Hhistory.
    split; [done|]. cbn [record_of] in Hrequests, Hresponses.
    destruct (history s !! read) as [asked_for|] eqn:Hread.
    2:{ simpl in Hrequests, Hresponses. rewrite app_nil_r in Hrequests, Hresponses.
        split; [done|]. split; [|by intros Hno; apply Forall_cons in Hno as [? _]].
        exists bodies. repeat split; [done|simpl; lia|done]. }
    destruct asked_for;
      try (simpl in Hrequests, Hresponses; rewrite app_nil_r in Hrequests, Hresponses;
           split; [done|];
           split; [|by intros Hno; apply Forall_cons in Hno as [? _]];
           exists bodies; repeat split; [done|simpl; lia|done]).
    simpl in Hrequests, Hresponses.
    change (interceptions [response_record r]) with (@nil EventRecord) in Hrequests.
    change (responses [response_record r]) with [response_record r] in Hresponses.
    rewrite app_nil_r in Hrequests. rewrite <- app_assoc in Hresponses.
    split; [done|]. split; [|by intros Hno; apply Forall_cons in Hno as [? _]].
    exists (r :: bodies). split; [done|]. split; [simpl; lia|].
    constructor; [|done]. rewrite Hhistory.
    apply elem_of_app. left. by eapply list_elem_of_lookup_2.
Qed.

(** X1. After [initialize], while the program awaits a request, the
    two listeners of its page answer every network event of the page
    as it occurs, and no event of another page: a request event is
    aborted or continued, once, and the body of a response is asked
    for, once, in the order of the events.  A request event is recorded
    then and there, so the records of the request listener come in the
    order of the request events, one for each.  A response is not
    recorded when it arrives but when its body has settled: every
    record of the response listener is of a response whose body has
    been asked for, there are no more of them than bodies have settled,
    and while none settles the log gains the records of the requests
    and no other. *)
Theorem requests_are_intercepted_in_order (browser : Browser) (r : Request)
    (p : nat) (s : Session) :
  attached s = listeners_of p →
  let events := on_page p (traffic browser (history s) r) in
  let s' := snd (await browser r s) in
  history s' = history s ++ r :: omap answer_of events ∧
  interceptions (_state s')
  = interceptions (_state s) ++ (request_record <$> requests_of events) ∧
  (∃ bodies,
     responses (_state s') = responses (_state s) ++ (response_record <$> bodies) ∧
     (length bodies ≤ length (filter is_text_event events))%nat ∧
     Forall (λ response, ResponseText response ∈ history s') bodies) ∧
  (Forall (λ event, is_text_event event = false) events →
   _state s' = _state s ++ (request_record <$> requests_of events)).
Proof.
  intros Hattached events s'.
  pose proof (traffic_effect p (traffic browser (history s) r) (asked r s) Hattached)
    as Heffect.
  cbv zeta in Heffect.
  assert (s' = fold_left (λ s '(page, event), emit page event s)
                 (traffic browser (history s) r) (asked r s)) as ->.
  { subst s'. unfold await. by destruct (rejects browser (history s) r). }
  destruct Heffect as (Hhistory & Hrequests & Hbodies & Hplain).
  split; [|done]. rewrite Hhistory. simpl. by rewrite <- app_assoc.
Qed.

Lemma requests_are_intercepted_in_order_witness :
  let s' := snd (await Fixture.browser (Goto start_url default_GoToOptions)
                   Fixture.initialized) in
  attached Fixture.initialized = listeners_of 1 ∧
  history s'
  = history Fixture.initialized
    ++ [Goto start_url default_GoToOptions;
        RequestContinue Fixture.document_request;
        ResponseText Fixture.document_response;
        RequestAbort Fixture.font_request] ∧
  interceptions (_state s')
  = [request_record Fixture.document_request;
     request_record Fixture.font_request] ∧
  _state s'
  = [request_record Fixture.document_request;
     request_record Fixture.font_request;
     response_record Fixture.document_response].
Proof.
  cbv zeta. split; [reflexivity|].
  pose proof (requests_are_intercepted_in_order Fixture.browser
                (Goto start_url default_GoToOptions) 1 Fixture.initialized eq_refl)
    as (Hhistory & Hrequests & _).
  split; [exact Hhistory|]. split; [exact Hrequests|]. reflexivity.
Defined.

(** ** [initialize] *)

(** With no listener attached, an awaited request only adds itself to
    the history. *)
Lemma await_quiet (browser : Browser) (r : Request) (s : Session) :
  attached s = [] →
  await browser r s
  = (match rejects browser (history s) r with
     | Some msg => Threw msg
     | None => Returned (view browser (history s))
     end, asked r s).
Proof.
  intros Hquiet. unfold await.
  assert (∀ events s0, attached s0 = [] →
            fold_left (λ s '(page, event), emit page event s) events s0 = s0) as Hfold.
  { induction events as [|[page event] events IH]; intros s0 Hs0; simpl; [done|].
    assert (emit page event s0 = s0) as ->; [|by apply IH].
    unfold emit, registered. rewrite Hs0. by destruct event. }
  rewrite Hfold by done. by destruct (rejects browser (history s) r).
Qed.

Lemma filter_all_listeners (listeners : list RequestListener) :
  filter (λ l, filterRequestListeners l) listeners = listeners.
Proof.
  induction listeners as [|l listeners IH]; [done|].
  rewrite filter_cons, IH. by destruct (decide (filterRequestListeners l)).
Qed.

(** [initialize] on a browser that rejects nothing. *)
Lemma initialize_responsive (browser : Browser) (options : Options)
    (s : Session) :
  attached s = [] →
  responsive browser →
  is_Some (browserWSEndpoint options) ∨ is_Some (executablePath options) →
  initialize browser options s
  = (Returned tt,
     {| _page := Some (S (length (history s)));
        _browser := Some (length (history s));
        _state := _state s;
        history := history s
                   ++ [if bool_decide (is_Some (browserWSEndpoint options))
                       then Connect options else Launch options;
                       NewPage; SetRequestInterception true];
        attached := listeners_of (S (length (history s))) |}).
Proof.
  intros Hquiet Hcalm Hoptions. unfold initialize.
  set (first := if bool_decide (is_Some (browserWSEndpoint options))
                then Connect options else Launch options).
  assert ((if bool_decide (is_Some (browserWSEndpoint options))
           then let* b := create browser (Connect options) in set_browser b
           else if bool_decide (is_Some (executablePath options))
                then let* b := create browser (Launch options) in set_browser b
                else ret tt) s
          = (Returned tt, with_browser (length (history s)) (asked first s)))
    as Hfirst.
  { subst first. destruct (bool_decide (is_Some (browserWSEndpoint options))) eqn:Hendpoint.
    - unfold bind, create, bind, ret, set_browser.
      by rewrite await_quiet, Hcalm.
    - rewrite bool_decide_eq_true_2.
      + unfold bind, create, bind, ret, set_browser.
        by rewrite await_quiet, Hcalm.
      + apply bool_decide_eq_false in Hendpoint. by destruct Hoptions. }
  unfold bind at 1. rewrite Hfirst.
  unfold bind at 1, get_browser. cbn [_browser with_browser].
  unfold bind at 1, create, bind at 1, ret at 1.
  rewrite await_quiet by (simpl; exact Hquiet). rewrite Hcalm.
  unfold bind at 1, set_page.
  unfold listenersRegistry. cbn [map_M]. unfold new_listener.
  unfold bind, get_page, ret. cbn [_page with_page].
  rewrite filter_all_listeners.
  cbn [for_each onInitialize attach listener_class]. unfold bind, subscribe, ret.
  rewrite await_quiet by (simpl; exact Hquiet). rewrite Hcalm.
  unfold listening, with_page, with_browser, asked. simpl.
  rewrite Hquiet, length_app. simpl. rewrite Nat.add_1_r, <- !app_assoc. done.
Qed.

(** X2. On a manager with no listener attached and a browser that
    rejects nothing, [initialize] makes three requests and no more:
    it connects if the options have [browserWSEndpoint], whether or not
    they have [executablePath] too, and launches otherwise; it opens
    one page; it turns the interception of requests on.  It stores the
    two handles, attaches the two listeners in the order of the
    registry, both to the page it has opened, and leaves the log
    alone. *)
Theorem initialize_connects_first (browser : Browser) (options : Options)
    (s : Session) :
  attached s = [] →
  responsive browser →
  is_Some (browserWSEndpoint options) ∨ is_Some (executablePath options) →
  initialize browser options s
  = (Returned tt,
     {| _page := Some (S (length (history s)));
        _browser := Some (length (history s));
        _state := _state s;
        history := history s
                   ++ [if bool_decide (is_Some (browserWSEndpoint options))
                       then Connect options else Launch options;
                       NewPage; SetRequestInterception true];
        attached := listeners_of (S (length (history s))) |}).
Proof. apply initialize_responsive. Qed.

Lemma initialize_connects_first_witness :
  let options := {| browserWSEndpoint := Some "http://localhost:3030";
                    executablePath := Some "/usr/bin/google-chrome";
                    ignoreHTTPSErrors := Some true |} in
  attached new_BrowserManager = [] ∧
  responsive Fixture.browser ∧
  initialize Fixture.browser options new_BrowserManager
  = (Returned tt,
     {| _page := Some 1%nat; _browser := Some 0%nat; _state := [];
        history := [Connect options; NewPage; SetRequestInterception true];
        attached := listeners_of 1 |}).
Proof.
  intros options.
  assert (responsive Fixture.browser) as Hcalm by (intros h r; reflexivity).
  split; [reflexivity|]. split; [exact Hcalm|].
  apply (initialize_connects_first Fixture.browser options new_BrowserManager
           eq_refl Hcalm).
  left. by eexists.
Defined.

(** ** The accessors, before [initialize] has completed *)

(** [initialize] on a manager that no listener is attached to, step by
    step: the browser is assigned when the first request is fulfilled,
    the page when the second is. *)
Lemma initialize_fails (browser : Browser) (options : Options) (msg : string)
    (s s' : Session) :
  attached s = [] →
  Uninitialized s →
  initialize browser options s = (Threw msg, s') →
  ∃ requests,
    history s' = history s ++ requests ∧
    (_browser s' = None ↔ NewPage ∉ requests) ∧
    (_page s' = None ↔ SetRequestInterception true ∉ requests).
Proof.
  intros Hquiet [Hpage Hbrowser] Hrun. unfold initialize in Hrun.
  assert (∀ first,
            (let* b := create browser first in set_browser b) s
            = match rejects browser (history s) first with
              | Some msg => (Threw msg, asked first s)
              | None => (Returned tt, with_browser (length (history s)) (asked first s))
              end) as Hopen.
  { intros first. unfold bind, create, bind, ret, set_browser.
    rewrite await_quiet by done. by destruct (rejects browser (history s) first). }
  assert (∀ first s1,
            first ≠ NewPage → first ≠ SetRequestInterception true →
            s1 = with_browser (length (history s)) (asked first s) →
            (get_browser;;
             let* p := create browser NewPage in
             set_page p;;
             let* allListeners := map_M new_listener listenersRegistry in
             for_each (onInitialize browser)
               (filter filterRequestListeners allListeners)) s1
            = (Threw msg, s') →
            ∃ requests,
              history s' = history s ++ requests ∧
              (_browser s' = None ↔ NewPage ∉ requests) ∧
              (_page s' = None ↔ SetRequestInterception true ∉ requests)) as Hrest.
  { intros first s1 Hnew Hon -> Hrest.
    unfold bind at 1, get_browser in Hrest. cbn [_browser with_browser] in Hrest.
    unfold bind at 1, create, bind at 1, ret at 1 in Hrest.
    rewrite await_quiet in Hrest by (simpl; exact Hquiet).
    destruct (rejects browser _ NewPage).
    { injection Hrest as _ <-. exists [first; NewPage]. simpl.
      rewrite <- app_assoc, Hpage. split; [done|]. split.
      - split; [done|]. intros Hout. destruct Hout.
        apply list_elem_of_further, list_elem_of_here.
      - split; [|done]. intros _ [?|[?|?%elem_of_nil]%elem_of_cons]%elem_of_cons;
          done. }
    unfold bind at 1, set_page in Hrest.
    unfold listenersRegistry in Hrest. cbn [map_M] in Hrest.
    unfold new_listener in Hrest.
    unfold bind, get_page, ret in Hrest. cbn [_page with_page] in Hrest.
    rewrite filter_all_listeners in Hrest.
    cbn [for_each onInitialize attach listener_class] in Hrest. unfold bind, subscribe, ret in Hrest.
    rewrite await_quiet in Hrest by (simpl; exact Hquiet).
    destruct (rejects browser _ (SetRequestInterception true)); [|done].
    injection Hrest as _ <-. exists [first; NewPage; SetRequestInterception true].
    simpl. rewrite <- !app_assoc. split; [done|]. split.
    - split; [done|]. intros Hout. destruct Hout.
      apply list_elem_of_further, list_elem_of_here.
    - split; [done|]. intros Hout. destruct Hout.
      do 2 apply list_elem_of_further. apply list_elem_of_here. }
  assert (∀ first,
            first ≠ NewPage → first ≠ SetRequestInterception true →
            (let* _ := (let* b := create browser first in set_browser b) in
             get_browser;;
             let* p := create browser NewPage in
             set_page p;;
             let* allListeners := map_M new_listener listenersRegistry in
             for_each (onInitialize browser)
               (filter filterRequestListeners allListeners)) s
            = (Threw msg, s') →
            ∃ requests,
              history s' = history s ++ requests ∧
              (_browser s' = None ↔ NewPage ∉ requests) ∧
              (_page s' = None ↔ SetRequestInterception true ∉ requests)) as Hboth.
  { intros first Hnew Hon Hall. unfold bind at 1 in Hall. rewrite Hopen in Hall.
    destruct (rejects browser (history s) first).
    - injection Hall as _ <-. exists [first]. simpl. rewrite Hpage, Hbrowser.
      split; [done|].
      split; (split; [|done]); intros _ [?|?%elem_of_nil]%elem_of_cons; done.
    - by apply (Hrest first _ Hnew Hon eq_refl). }
  destruct (bool_decide (is_Some (browserWSEndpoint options)));
    [by apply (Hboth (Connect options))|].
  destruct (bool_decide (is_Some (executablePath options)));
    [by apply (Hboth (Launch options))|].
  unfold bind at 1, ret at 1, bind at 1, get_browser in Hrun.
  rewrite Hbrowser in Hrun. injection Hrun as _ <-.
  exists []. rewrite app_nil_r, Hpage, Hbrowser. split; [done|].
  split; (split; [|done]); intros _ ?%elem_of_nil; done.
Qed.

(** C8. The accessors throw while their own field is unassigned, and
    only then.  Reading [page] throws ["Missing page instance"] when no
    page has been assigned and returns the page otherwise; reading
    [browser] throws ["Missing browser instance"] when no browser has
    been assigned and returns the browser otherwise; neither changes
    the session.  So both throw on a manager in the state
    [Uninitialized].  [initialize] assigns the browser before it opens
    the page: on a new manager whose [initialize] has failed, [browser]
    throws unless [newPage] had been asked for (the connection or
    launch had resolved), and [page] throws unless the interception had
    been asked for (the new page had resolved). *)
Theorem accessors_throw_while_unassigned :
  (∀ s,
     get_page s = (match _page s with
                   | Some p => Returned p
                   | None => Threw "Missing page instance"
                   end, s) ∧
     get_browser s = (match _browser s with
                      | Some b => Returned b
                      | None => Threw "Missing browser instance"
                      end, s)) ∧
  (∀ s,
     Uninitialized s →
     get_page s = (Threw "Missing page instance", s) ∧
     get_browser s = (Threw "Missing browser instance", s)) ∧
  (∀ browser options msg s',
     initialize browser options new_BrowserManager = (Threw msg, s') →
     (get_browser s' = (Threw "Missing browser instance", s')
      ↔ NewPage ∉ history s') ∧
     (get_page s' = (Threw "Missing page instance", s')
      ↔ SetRequestInterception true ∉ history s')).
Proof.
  split; [|split].
  - intros s. unfold get_page, get_browser.
    by destruct (_page s), (_browser s).
  - intros s [Hpage Hbrowser]. unfold get_page, get_browser.
    by rewrite Hpage, Hbrowser.
  - intros browser options msg s' Hrun.
    destruct (initialize_fails browser options msg new_BrowserManager s'
                eq_refl (conj eq_refl eq_refl) Hrun)
      as (requests & Hhistory & Hbrowser & Hpage).
    simpl in Hhistory. rewrite Hhistory, <- Hbrowser, <- Hpage.
    unfold get_browser, get_page.
    split; [destruct (_browser s')|destruct (_page s')]; split; congruence.
Qed.

Lemma accessors_throw_while_unassigned_witness :
  let run := initialize Trial.no_pages (run_options Trial.remote) new_BrowserManager in
  Uninitialized new_BrowserManager ∧
  get_page new_BrowserManager = (Threw "Missing page instance", new_BrowserManager) ∧
  get_browser new_BrowserManager
  = (Threw "Missing browser instance", new_BrowserManager) ∧
  run = (Threw "Protocol error (Target.createTarget): Target closed", snd run) ∧
  (get_page (snd run) = (Threw "Missing page instance", snd run)
   ↔ SetRequestInterception true ∉ history (snd run)).
Proof.
  cbv zeta.
  destruct accessors_throw_while_unassigned as (_ & Hnew & Hfailed).
  assert (Uninitialized new_BrowserManager) as Huninitialized by (split; reflexivity).
  split; [exact Huninitialized|].
  split; [exact (proj1 (Hnew new_BrowserManager Huninitialized))|].
  split; [exact (proj2 (Hnew new_BrowserManager Huninitialized))|].
  split; [reflexivity|].
  exact (proj2 (Hfailed Trial.no_pages (run_options Trial.remote) _ _ eq_refl)).
Defined.

(** Before [initialize] has completed, [browser] may return: on a
    manager whose [initialize] has failed at [newPage] it returns the
    browser, while [page] throws. *)
Lemma browser_returns_before_initialize_completes :
  let run := initialize Trial.no_pages (run_options Trial.remote) new_BrowserManager in
  fst run = Threw "Protocol error (Target.createTarget): Target closed" ∧
  get_browser (snd run) = (Returned 0%nat, snd run) ∧
  get_page (snd run) = (Threw "Missing page instance", snd run).
Proof. cbv zeta. repeat split. Qed.


(** ** What the services ask of the browser *)

Section Asks.
Context (P : Request → Prop) (P_open : ∀ r, is_close r = false → P r).

Lemma asks_ret {A} (a : A) : asks P (ret a).
Proof. intros s. repeat split; [done|]. exists []. by rewrite app_nil_r. Qed.

Lemma asks_throw {A} (msg : string) : asks P (throw (A:=A) msg).
Proof. intros s. repeat split; [done|]. exists []. by rewrite app_nil_r. Qed.

Lemma asks_settle {A} (o : Outcome A) : asks P (settle o).
Proof. destruct o; [apply asks_ret | apply asks_throw]. Qed.

Lemma asks_bind {A B} (c : M A) (k : A → M B) :
  asks P c → (∀ a, asks P (k a)) → asks P (bind c k).
Proof.
  intros Hc Hk s. unfold bind.
  destruct (Hc s) as (Hend & Hattached & requests & Hhistory & Hrequests).
  destruct (c s) as [[a|msg|] s1]; simpl in *; [|by eauto..].
  destruct (Hk a s1) as (Hend' & Hattached' & requests' & Hhistory' & Hrequests').
  split; [done|]. split; [congruence|].
  exists (requests ++ requests').
  rewrite Hhistory', Hhistory, app_assoc. by rewrite Forall_app.
Qed.

Lemma asks_catch {A} (c : M A) (h : string → M A) :
  asks P c → (∀ msg, asks P (h msg)) → asks P (catch c h).
Proof.
  intros Hc Hh s. unfold catch.
  destruct (Hc s) as (Hend & Hattached & requests & Hhistory & Hrequests).
  destruct (c s) as [[a|msg|] s1]; simpl in *; [by eauto| |by eauto].
  destruct (Hh msg s1) as (Hend' & Hattached' & requests' & Hhistory' & Hrequests').
  split; [done|]. split; [congruence|].
  exists (requests ++ requests').
  rewrite Hhistory', Hhistory, app_assoc. by rewrite Forall_app.
Qed.

Lemma asks_statePush (name : string) (data : list Value) :
  asks P (statePush name data).
Proof. intros s. repeat split; [done|]. exists []. by rewrite app_nil_r. Qed.

Lemma asks_tell (r : Request) : is_close r = false → asks P (tell r).
Proof.
  intros Hr s. repeat split; [done|]. exists [r]. split; [done|].
  repeat constructor. by apply P_open.
Qed.

Lemma asks_await (browser : Browser) (r : Request) :
  is_close r = false → asks P (await browser r).
Proof.
  intros Hr s. destruct (await_inv browser r s) as [Hheard Hresult].
  split; [rewrite Hresult; by destruct (rejects browser (history s) r)|].
  destruct Hheard as [_ _ Hattached (answers & Hhistory & Hanswers) _].
  split; [done|]. exists (r :: answers). split.
  - rewrite Hhistory. simpl. by rewrite <- app_assoc.
  - constructor; [by apply P_open|].
    eapply Forall_impl; [exact Hanswers|]. intros r' Hr'. apply P_open.
    by destruct r'.
Qed.

Lemma asks_plain {A} (c : M A) :
  (∀ s, snd (c s) = s ∧ fst (c s) ≠ Unfinished) → asks P c.
Proof.
  intros Hc s. destruct (Hc s) as [-> Hend]. repeat split; [done|].
  exists []. by rewrite app_nil_r.
Qed.

Lemma asks_get_page : asks P get_page.
Proof. apply asks_plain. intros s. unfold get_page. by destruct (_page s). Qed.

Lemma asks_get_browser : asks P get_browser.
Proof. apply asks_plain. intros s. unfold get_browser. by destruct (_browser s). Qed.

Lemma asks_current_url (browser : Browser) : asks P (current_url browser).
Proof. by apply asks_plain. Qed.

Lemma asks_get (name : string) : asks P (get name).
Proof.
  unfold get. destruct (filter _ serviceRegistry);
    [apply asks_throw|].
  apply asks_bind; [apply asks_get_page | intros _; apply asks_ret].
Qed.

Lemma asks_listen (name : string) : asks P (listen name).
Proof.
  unfold listen. destruct (filter _ listenersRegistry);
    [apply asks_throw|].
  apply asks_bind; [apply asks_get_page | intros page; apply asks_ret].
Qed.

Create HintDb asks discriminated.
#[local] Hint Resolve asks_ret asks_throw asks_settle asks_bind asks_catch
  asks_statePush asks_tell asks_await asks_get_page asks_get_browser
  asks_current_url asks_get asks_listen : asks.

Lemma asks_restore_cookies (browser : Browser) (fs : Storage) (path : string) :
  asks P (restore_cookies browser fs path).
Proof.
  unfold restore_cookies, loadCookies, setCookies_loaded.
  apply asks_bind; [auto with asks|]. intros storage.
  destruct (truthy (js_length storage)); auto 8 with asks.
Qed.

Lemma asks_close (browser : Browser) (id : string) : asks P (close browser id).
Proof.
  unfold close. apply asks_bind; [auto 8 with asks|].
  intros [|]; auto 6 with asks.
Qed.

Lemma asks_navigate (browser : Browser) (address : string)
    (options : option GoToOptions) :
  asks P (navigate browser address options).
Proof. unfold navigate. auto 8 with asks. Qed.

Lemma asks_discover (browser : Browser) : asks P (discover browser).
Proof. unfold discover. auto 8 with asks. Qed.

Lemma asks_getResults (browser : Browser) : asks P (getResults browser).
Proof. unfold getResults. auto 12 with asks. Qed.

Lemma asks_getCookies (browser : Browser) : asks P (getCookies browser).
Proof. unfold getCookies. auto 8 with asks. Qed.

Lemma asks_screenshot (browser : Browser) (path : string) :
  asks P (screenshot browser path).
Proof. unfold screenshot. auto 8 with asks. Qed.

Lemma asks_getContent (browser : Browser) : asks P (getContent browser).
Proof. unfold getContent. auto 8 with asks. Qed.

(** The steps of [run] between [initialize] and [exportState]. *)
Lemma asks_steps (browser : Browser) (fs : Storage)
    (outputPath screenshotPath : string) :
  asks P (let* navigation := get "NavigationService" in
          let* cookies := get "CookiesService" in
          restore_cookies browser fs outputPath;;
          navigate browser start_url None;;
          close browser "close-cookies";;
          get "PaginationService";; discover browser;;
          get "MetricsService";; getResults browser;;
          getCookies browser;;
          get "ScreenshotService";; screenshot browser screenshotPath;;
          get "ContentService";; getContent browser).
Proof.
  pose proof asks_restore_cookies. pose proof asks_close.
  pose proof asks_navigate. pose proof asks_discover. pose proof asks_getResults.
  pose proof asks_getCookies. pose proof asks_screenshot.
  pose proof asks_getContent.
  repeat (apply asks_bind; [by auto with asks|intros ?]). auto with asks.
Qed.

(** Every method of a service but [scroll], whose loop may still run. *)
Lemma asks_perform (browser : Browser) (storage : Storage) (iterations : nat)
    (c : Call) :
  (∀ selector direction, c ≠ call_scroll selector direction) →
  asks P (perform browser storage iterations c).
Proof.
  intros Hscroll. destruct c; simpl;
    unfold screenshot, loadCookies, setCookies, getCookies, click,
      discover, navigate, getResults, getContent;
    auto 12 with asks.
  - destruct input as [[|cookie more]|]; auto 6 with asks.
  - apply asks_bind; [apply asks_close | auto with asks].
  - by destruct (Hscroll selector direction).
Qed.
End Asks.

(** The attaching of the registered listeners: all of them, or none. *)
Lemma attach_all (browser : Browser) (p : nat) (s : Session) :
  let run := for_each (onInitialize browser) (listeners_of p) s in
  (∃ requests, history (snd run) = history s ++ requests ∧
               Forall (λ r, is_close r = false) requests) ∧
  _page (snd run) = _page s ∧ _browser (snd run) = _browser s ∧
  match fst run with
  | Returned _ => attached (snd run) = attached s ++ listeners_of p
  | Threw _ => attached (snd run) = attached s
  | Unfinished => False
  end.
Proof.
  unfold listeners_of, listenersRegistry.
  cbn [fmap list_fmap for_each onInitialize attach listener_class]. unfold bind.
  destruct (await_inv browser (SetRequestInterception true) s) as [Hheard Hresult].
  destruct (await browser (SetRequestInterception true) s) as [o s1].
  simpl in Hheard, Hresult.
  destruct Hheard as [Hpage Hbrowser Hattached (answers & Hhistory & Hanswers) _].
  assert (Forall (λ r, is_close r = false) (SetRequestInterception true :: answers))
    as Hopen.
  { constructor; [done|]. eapply Forall_impl; [exact Hanswers|]. by intros []. }
  assert (history s1 = history s ++ SetRequestInterception true :: answers)
    as Hgrown by (rewrite Hhistory; simpl; by rewrite <- app_assoc).
  subst o. destruct (rejects browser (history s) (SetRequestInterception true));
    simpl; (split; [by eauto|]); [done|].
  do 2 (split; [done|]). by rewrite Hattached, <- app_assoc.
Qed.

Lemma open_browser (browser : Browser) (r : Request) (s : Session) :
  is_close r = false →
  let run := (let* b := create browser r in set_browser b) s in
  ∃ answers,
    history (snd run) = history s ++ r :: answers ∧
    Forall (λ r, is_close r = false) answers ∧
    attached (snd run) = attached s ∧ fst run ≠ Unfinished.
Proof.
  intros Hr. cbv zeta. unfold bind, create, bind, ret, set_browser.
  destruct (await_inv browser r s) as [Hheard Hresult].
  destruct (await browser r s) as [o s1]. cbn [fst snd] in Hheard, Hresult.
  destruct Hheard as [_ _ Hattached (answers & Hhistory & Hanswers) _].
  exists answers. simpl in Hhistory, Hattached.
  assert (Forall (λ r, is_close r = false) answers) as Hopen
    by (eapply Forall_impl; [exact Hanswers|]; by intros []).
  rewrite <- app_assoc in Hhistory.
  subst o. by destruct (rejects browser (history s) r).
Qed.

(** How [initialize] ends, and what it has asked by then. *)
Lemma initialize_outcome (browser : Browser) (options : Options) (s : Session) :
  let run := initialize browser options s in
  (∃ rest, history (snd run) = history s ++ opening options ++ rest ∧
           Forall (λ r, is_close r = false) rest) ∧
  match fst run with
  | Returned _ =>
      (∃ p, _page (snd run) = Some p ∧
            attached (snd run) = attached s ++ listeners_of p) ∧
      is_Some (_browser (snd run))
  | Threw _ => attached (snd run) = attached s
  | Unfinished => False
  end.
Proof.
  set (open := λ r : Request, is_close r = false).
  cbv zeta. destruct (initialize browser options s) as [o s'] eqn:Hrun.
  cbn [fst snd]. unfold initialize in Hrun.
  set (first := if bool_decide (is_Some (browserWSEndpoint options)) then _ else _)
    in Hrun.
  assert (∃ rest, history (snd (first s)) = history s ++ opening options ++ rest ∧
                  Forall open rest ∧
                  attached (snd (first s)) = attached s ∧
                  fst (first s) ≠ Unfinished)
    as (requests & Hhistory & Hrequests & Hattached & Hend).
  { subst first. unfold opening.
    destruct (bool_decide (is_Some (browserWSEndpoint options)));
      [|destruct (bool_decide (is_Some (executablePath options)))].
    - by apply open_browser.
    - by apply open_browser.
    - exists []. by rewrite !app_nil_r. }
  unfold bind at 1 in Hrun.
  destruct (first s) as [[[]|msg|] s1]; cbn [fst snd] in Hend, Hattached, Hhistory;
    [|injection Hrun as <- <-; by eauto|done].
  unfold bind at 1, get_browser at 1 in Hrun.
  destruct (_browser s1) as [b|] eqn:Hb; [|injection Hrun as <- <-; by eauto].
  unfold bind at 1, create, bind at 1, ret at 1 in Hrun.
  destruct (await_inv browser NewPage s1) as [Hheard Hresult].
  destruct (await browser NewPage s1) as [o2 s2]. cbn [fst snd] in Hheard, Hresult.
  destruct Hheard as [Hp2 Hb2 Ha2 (answers & Hh2 & Hanswers) _].
  assert (∃ requests2, history s2 = history s ++ opening options ++ requests2 ∧
                       Forall open requests2)
    as (requests2 & Hhistory2 & Hrequests2).
  { exists (requests ++ NewPage :: answers). split.
    - rewrite Hh2. simpl. by rewrite Hhistory, <- !app_assoc.
    - apply Forall_app. split; [done|]. constructor; [done|].
      eapply Forall_impl; [exact Hanswers|]. by intros []. }
  simpl in Ha2, Hb2.
  subst o2. destruct (rejects browser (history s1) NewPage);
    [injection Hrun as <- <-; split; [by eauto | congruence]|].
  unfold listenersRegistry at 1 in Hrun. cbn [map_M] in Hrun.
  unfold new_listener in Hrun.
  unfold bind, set_page, get_page, ret in Hrun. cbn [_page with_page] in Hrun.
  rewrite filter_all_listeners in Hrun.
  pose proof (attach_all browser (length (history s1))
                (with_page (length (history s1)) s2)) as Hall.
  cbv zeta in Hall.
  change [{| listener_page := length (history s1);
             listener_class := RequestInterceptorListener |};
          {| listener_page := length (history s1);
             listener_class := ResponseInterceptorListener |}]
    with (listeners_of (length (history s1))) in Hrun.
  rewrite Hrun in Hall. cbn [fst snd] in Hall.
  destruct Hall as ((requests3 & Hhistory3 & Hrequests3) & Hp3 & Hb3 & Hattached3).
  simpl in Hhistory3, Hp3, Hb3, Hattached3. split.
  - exists (requests2 ++ requests3). rewrite Hhistory3, Hhistory2, <- !app_assoc.
    split; [done|]. by apply Forall_app.
  - destruct o as [[]|msg|]; [|congruence|done].
    split; [exists (length (history s1)); split; [done|congruence]|].
    rewrite Hb3, Hb2, Hb. by eexists.
Qed.

(** X3. However [initialize] ends, it attaches all the registered
    listeners or none: when it returns, the two listeners have been
    added, both on the page that the manager now has, and both
    accessors have a value; when it throws (no browser,
    or a request that the browser rejects, the interception included),
    no listener has been added, though the browser and even the page
    may be assigned by then.  Its first request is the one that
    connects to or launches the browser, and it asks nothing to be
    closed. *)
Theorem initialize_attaches_all_or_none (browser : Browser) (options : Options)
    (s : Session) :
  let run := initialize browser options s in
  (∃ rest, history (snd run) = history s ++ opening options ++ rest ∧
           Forall (λ r, is_close r = false) rest) ∧
  match fst run with
  | Returned _ =>
      (∃ p, _page (snd run) = Some p ∧
            attached (snd run) = attached s ++ listeners_of p) ∧
      is_Some (_browser (snd run))
  | Threw _ => attached (snd run) = attached s
  | Unfinished => False
  end.
Proof. apply initialize_outcome. Qed.

(** ** [CookiesService.close] *)

Lemma by_program_app (h h' : list Request) :
  by_program (h ++ h') = by_program h ++ by_program h'.
Proof. unfold by_program. by rewrite filter_app. Qed.

Lemma by_program_answers (answers : list Request) :
  Forall (λ r, from_listener r) answers → by_program answers = [].
Proof.
  unfold by_program. induction 1 as [|r answers Hr _ IH]; [done|].
  rewrite filter_cons. destruct (decide _) as [Hno|_]; [|done].
  by destruct (from_listener r).
Qed.

(** What one awaited request adds to the history. *)
Lemma await_asks (browser : Browser) (r : Request) (s : Session) :
  from_listener r = false →
  ∃ requests,
    history (snd (await browser r s)) = history s ++ requests ∧
    by_program requests = [r] ∧
    own (_state (snd (await browser r s))) = own (_state s).
Proof.
  intros Hr. destruct (await_inv browser r s) as [Hheard _].
  pose proof (heard_own _ _ Hheard) as Hown.
  destruct Hheard as [_ _ _ (answers & Hhistory & Hanswers) _].
  exists (r :: answers). split; [|split; [|done]].
  - rewrite Hhistory. simpl. by rewrite <- app_assoc.
  - change (r :: answers) with ([r] ++ answers).
    rewrite by_program_app, (by_program_answers answers) by done.
    unfold by_program. rewrite filter_cons. destruct (decide _) as [|Hno]; [done|].
    by rewrite Hr in Hno.
Qed.

(** X4. [close] swallows the time-out of its wait: when the selector
    of the banner does not appear, [close] returns all the same and
    the wait is the only request it has made; when it appears, the
    click script is sent once, and [close] ends as that request does.
    It pushes no record in either case. *)
Theorem close_swallows_the_timeout (browser : Browser) (id : string) (s : Session) :
  let wait := WaitForSelector ("#" +:+ id) (Some 5000) in
  let run := close browser id s in
  ∃ requests,
    history (snd run) = history s ++ requests ∧
    own (_state (snd run)) = own (_state s) ∧
    match rejects browser (history s) wait with
    | Some _ => fst run = Returned tt ∧ by_program requests = [wait]
    | None =>
        by_program requests = [wait; Evaluate (ClickById id)] ∧
        fst run
        = match rejects browser (history (snd (await browser wait s)))
                  (Evaluate (ClickById id)) with
          | Some msg => Threw msg
          | None => Returned tt
          end
    end.
Proof.
  intros wait run. subst run. unfold close, catch, bind, ret. fold wait.
  destruct (await_asks browser wait s eq_refl) as (requests & Hhistory & Hmine & Hown).
  destruct (await_inv browser wait s) as [_ Hresult].
  destruct (await browser wait s) as [o s1]. cbn [fst snd] in *. subst o.
  destruct (rejects browser (history s) wait) as [msg|].
  { exists requests. by cbn [fst snd]. }
  destruct (await_asks browser (Evaluate (ClickById id)) s1 eq_refl)
    as (requests' & Hhistory' & Hmine' & Hown').
  destruct (await_inv browser (Evaluate (ClickById id)) s1) as [_ Hresult'].
  destruct (await browser (Evaluate (ClickById id)) s1) as [o' s2].
  cbn [fst snd] in *. subst o'.
  exists (requests ++ requests'). rewrite by_program_app, Hmine, Hmine'.
  assert (history s2 = history s ++ requests ++ requests') as Hall
    by (by rewrite Hhistory', Hhistory, <- app_assoc).
  assert (own (_state s2) = own (_state s)) as Hsame by congruence.
  by destruct (rejects browser (history s1) (Evaluate (ClickById id))).
Qed.

(** ** The record of a call that fails *)

Lemma fails_silent_of_silent {A} (c : M A) : silent c → fails_silent c.
Proof. intros Hc s _. apply Hc. Qed.

Lemma fails_silent_bind {A B} (c : M A) (k : A → M B) :
  silent c → (∀ a, fails_silent (k a)) → fails_silent (bind c k).
Proof.
  intros Hc Hk s. unfold bind. specialize (Hc s).
  destruct (c s) as [[a|msg|] s1]; simpl in *; [|done..].
  intros Hfails. by rewrite (Hk a s1 Hfails).
Qed.

Lemma fails_silent_statePush (name : string) (data : list Value) :
  fails_silent (statePush name data).
Proof. intros s Hfails. by destruct (Hfails tt). Qed.

Lemma fails_silent_then_ret {A B} (c : M A) (b : B) :
  fails_silent c → fails_silent (c;; ret b).
Proof.
  intros Hc s. unfold bind, ret. specialize (Hc s).
  destruct (c s) as [[a|msg|] s1]; simpl in *; intros Hfails.
  - by destruct (Hfails b).
  - by apply Hc.
  - by apply Hc.
Qed.

(** A method that pushes first has its record in the log however it
    ends. *)
Lemma push_then_silent {A} (service : Service) (data : list Value) (k : M A)
    (s : Session) :
  silent k →
  own (_state (snd ((statePush (service_name service) data;; k) s)))
  = own (_state s) ++ [{| sourceName := service_name service; payload := data |}].
Proof.
  intros Hk.
  change ((statePush (service_name service) data;; k) s)
    with (k (push {| sourceName := service_name service; payload := data |} s)).
  rewrite (Hk _).
  unfold push, own. cbn [_state]. rewrite filter_app, filter_cons.
  destruct (decide _) as [|Hno]; [done|].
  exfalso. apply Hno, by_service_name.
Qed.

Lemma snd_then_ret {A B} (c : M A) (b : B) (s : Session) :
  snd ((c;; ret b) s) = snd (c s).
Proof. unfold bind, ret. by destruct (c s) as [[] ?]. Qed.

#[local] Hint Resolve fails_silent_of_silent fails_silent_bind
  fails_silent_statePush fails_silent_then_ret : silent.

(** X5. What a failed call leaves in the log: [navigate], [click] and
    [scroll] push their record before they act, so a call of theirs
    that throws (or a [scroll] that is still running) has left exactly
    one record of its service; every other method pushes last, or
    never, and leaves none when it does not return. *)
Theorem failed_call_leaves_record (browser : Browser) (storage : Storage)
    (iterations : nat) (c : Call) (s : Session) :
  (∀ a, fst (perform browser storage iterations c s) ≠ Returned a) →
  ∃ records,
    own (_state (snd (perform browser storage iterations c s)))
    = own (_state s) ++ records ∧
    length records = (if pushes_first c then 1 else 0)%nat ∧
    Forall (λ record, sourceName record = service_name (service_of c)) records.
Proof.
  intros Hfails.
  assert (fails_silent (perform browser storage iterations c) →
          pushes_first c = false →
          ∃ records,
            own (_state (snd (perform browser storage iterations c s)))
            = own (_state s) ++ records ∧
            length records = (if pushes_first c then 1 else 0)%nat ∧
            Forall (λ record, sourceName record = service_name (service_of c))
              records) as Hlast.
  { intros Hc ->. exists []. rewrite (Hc s Hfails), app_nil_r. by repeat split. }
  assert (∀ data (k : M unit),
            snd (perform browser storage iterations c s)
            = snd ((statePush (service_name (service_of c)) data;; k) s) →
            silent k → pushes_first c = true →
            ∃ records,
              own (_state (snd (perform browser storage iterations c s)))
              = own (_state s) ++ records ∧
              length records = (if pushes_first c then 1 else 0)%nat ∧
              Forall (λ record, sourceName record = service_name (service_of c))
                records) as Hfirst.
  { intros data k -> Hk ->. eexists. split; [by apply push_then_silent|].
    split; [done|]. by repeat constructor. }
  destruct c as [path|path|input| |id|selector| |address options|
                 |selector direction| ]; cbn [perform] in *.
  - apply Hlast; [|done]. unfold screenshot. auto 8 with silent.
  - apply Hlast; [|done]. unfold loadCookies. auto with silent.
  - apply Hlast; [|done]. unfold setCookies.
    destruct input as [[|cookie more]|]; auto 8 with silent.
  - apply Hlast; [|done]. unfold getCookies. auto 8 with silent.
  - apply Hlast; [|done]. apply fails_silent_of_silent. unfold close.
    apply silent_bind; [|auto with silent].
    apply silent_bind; [auto 8 with silent|].
    intros [|]; auto 6 with silent.
  - eapply (Hfirst [VString selector]
              (await browser (WaitForSelector selector None);;
               await browser (Click selector);; ret tt));
      [apply snd_then_ret| |done].
    auto 10 with silent.
  - apply Hlast; [|done]. unfold discover. auto 10 with silent.
  - eapply (Hfirst [VNavigation address (default default_GoToOptions options)]
              (await browser (Goto address (default default_GoToOptions options));;
               ret tt)); [apply snd_then_ret| |done].
    auto 10 with silent.
  - apply Hlast; [|done]. unfold getResults. auto 12 with silent.
  - eapply (Hfirst [VScroll selector (default vertical direction)]
              (await browser (WaitForSelector selector (Some 60000));;
               let* currentSize := measure browser selector (default vertical direction) in
               scroll_loop browser iterations selector (default vertical direction)
                 0 currentSize;; ret tt)); [apply snd_then_ret| |done].
    auto 12 with silent.
  - apply Hlast; [|done]. unfold getContent. auto 10 with silent.
Qed.

Lemma failed_call_leaves_record_witness :
  (∀ a, fst (perform Trial.selectors_time_out Trial.no_files 0
               (call_click "#next") Fixture.initialized) ≠ Returned a) ∧
  ∃ records,
    own (_state (snd (perform Trial.selectors_time_out Trial.no_files 0
                        (call_click "#next") Fixture.initialized)))
    = own (_state Fixture.initialized) ++ records ∧
    length records = 1%nat ∧
    Forall (λ record, sourceName record = "ClickService") records.
Proof.
  split; [intros a; vm_compute; discriminate|].
  apply (failed_call_leaves_record Trial.selectors_time_out Trial.no_files 0
           (call_click "#next") Fixture.initialized).
  intros a. vm_compute. discriminate.
Defined.

(** ** The snapshot: [exportState], then [loadCookiesFromStorage] *)

Section Snapshot.
Context (writable : string → bool) (parse : string → option Json)
  (stringify : Value → Json).

(** The scan over an exported log stops at the first record of
    [CookiesService]. *)
Lemma scan_exported (cookies : Json) (log : list EventRecord) :
  scan_logs cookies (map (record_json stringify) log)
  = (match first_cookies_record log with
     | Some record => JArr (map stringify (payload record))
     | None => cookies
     end, Returns JNull).
Proof.
  unfold first_cookies_record. induction log as [|record log IH]; [done|].
  rewrite filter_cons. cbn [map scan_logs record_json typeof_object js_in assoc].
  destruct (decide (sourceName record = "CookiesService")) as [Hname|Hname].
  - unfold js_get, record_json. cbn [assoc head].
    rewrite Hname, String.eqb_refl.
    by rewrite bool_decide_eq_true_2 by (by eexists).
  - destruct (String.eqb_spec "CookiesService" (sourceName record)) as [Heq|_];
      [by destruct Hname|].
    rewrite bool_decide_eq_false_2 by (by intros [? ?]). exact IH.
Qed.

Lemma load_exported (path : string) (s : Session) (fs : Storage) :
  writable path = true →
  loadCookiesFromStorage (exportState writable parse stringify path s fs) path
  = Returns match first_cookies_record (_state s) with
            | Some record => JArr (map stringify (payload record))
            | None => JArr []
            end.
Proof.
  intros Hwritable. rewrite loadCookiesFromStorage_returns.
  unfold import_then_scan, import_json, exportState, saveToFile.
  rewrite Hwritable, String.eqb_refl. cbn [js_iterate].
  by rewrite scan_exported.
Qed.

(** X6. The snapshot round trip.  After [exportState] has written the
    log to a path, [loadCookiesFromStorage] on that path returns the
    data of the first record that [CookiesService] pushed into that
    log, as [JSON.stringify] renders it, and the empty array when the
    log has no such record; the other files are as before.  When the
    file cannot be written, [saveToFile] swallows the error and every
    file is as before. *)
Theorem export_then_load (path : string) (s : Session) (fs : Storage) :
  let fs' := exportState writable parse stringify path s fs in
  loadCookiesFromStorage fs' path
  = (if writable path then
       Returns match first_cookies_record (_state s) with
               | Some record => JArr (map stringify (payload record))
               | None => JArr []
               end
     else loadCookiesFromStorage fs path) ∧
  ∀ other, (writable path = false ∨ other ≠ path) → fs' other = fs other.
Proof.
  cbv zeta. split.
  - destruct (writable path) eqn:Hwritable; [by apply load_exported|].
    unfold exportState, saveToFile. by rewrite Hwritable.
  - intros other Hother. unfold exportState, saveToFile.
    destruct (writable path); [|done].
    destruct Hother as [|Hother]; [done|].
    by destruct (String.eqb_spec other path).
Qed.

(** X7. From one run to the next.  On the file that [exportState]
    wrote, the first step of [run], [loadCookiesFromStorage] then
    [setCookies], sends to the browser exactly the cookies that the
    first recorded [getCookies] had found, in one [setCookie] request;
    when that record holds no cookie, or the log has no such record,
    it makes no request at all.  The same when the file is not there. *)
Theorem restore_after_export (browser : Browser) (path : string)
    (s s' : Session) (fs : Storage) :
  (writable path = true →
   restore_cookies browser (exportState writable parse stringify path s fs) path s'
   = match payload <$> first_cookies_record (_state s) with
     | Some (cookie :: more) =>
         (await browser (SetCookie (map stringify (cookie :: more)));; ret tt) s'
     | Some [] | None => (Returned tt, s')
     end) ∧
  (fs path = None → restore_cookies browser fs path s' = (Returned tt, s')).
Proof.
  split.
  - intros Hwritable. unfold restore_cookies, loadCookies.
    rewrite load_exported by done.
    destruct (first_cookies_record (_state s)) as [[name [|cookie more]]|]; done.
  - intros Hmissing. unfold restore_cookies, loadCookies.
    rewrite loadCookiesFromStorage_returns.
    unfold import_then_scan, import_json. by rewrite Hmissing.
Qed.
End Snapshot.

Lemma export_then_load_witness :
  let s := push {| sourceName := "CookiesService";
                   payload := [VCookie Fixture.newer] |} Fixture.initialized in
  let fs' := exportState (λ _, true) (λ _, None) Trial.stringify "output.json" s
               Fixture.storage in
  loadCookiesFromStorage fs' "output.json" = Returns (JArr [Fixture.newer]) ∧
  fs' "screenshot.png" = Fixture.storage "screenshot.png".
Proof.
  cbv zeta.
  destruct (export_then_load (λ _, true) (λ _, None) Trial.stringify "output.json"
              (push {| sourceName := "CookiesService";
                       payload := [VCookie Fixture.newer] |} Fixture.initialized)
              Fixture.storage) as [Hload Hother].
  split; [exact Hload|]. apply Hother. right. discriminate.
Defined.

Lemma restore_after_export_witness :
  let s := push {| sourceName := "CookiesService";
                   payload := [VCookie Fixture.newer] |} Fixture.initialized in
  restore_cookies Fixture.browser
    (exportState (λ _, true) (λ _, None) Trial.stringify "output.json" s
       Trial.no_files)
    "output.json" Fixture.initialized
  = (Returned tt, asked (SetCookie [Fixture.newer]) Fixture.initialized) ∧
  restore_cookies Fixture.browser Trial.no_files "output.json" Fixture.initialized
  = (Returned tt, Fixture.initialized).
Proof.
  cbv zeta.
  pose proof (restore_after_export (λ _, true) (λ _, None) Trial.stringify
                Fixture.browser "output.json"
                (push {| sourceName := "CookiesService";
                         payload := [VCookie Fixture.newer] |} Fixture.initialized)
                Fixture.initialized Trial.no_files) as [Hexported Hmissing].
  split; [rewrite Hexported by reflexivity; reflexivity|].
  apply Hmissing. reflexivity.
Defined.

(** ** [run] *)

Section Completes.
Context (browser : Browser) (calm : responsive browser).

Lemma completes_ret {A} (a : A) : completes [] [] (λ b, b = a) (ret a).
Proof.
  intros s Hpage Hbrowser. exists a, s. repeat split; try done.
  - exists []. by rewrite app_nil_r.
  - by rewrite app_nil_r.
Qed.

Lemma completes_bind {A B} (c : M A) (k : A → M B)
    (requests requests' : list Request) (names names' : list string)
    (Q : A → Prop) (Q' : B → Prop) :
  completes requests names Q c →
  (∀ a, Q a → completes requests' names' Q' (k a)) →
  completes (requests ++ requests') (names ++ names') Q' (bind c k).
Proof.
  intros Hc Hk s Hpage Hbrowser. unfold bind.
  destruct (Hc s Hpage Hbrowser)
    as (a & s1 & -> & Ha & Hp & Hb & (new & Hhistory & Hnew) & Hnames).
  rewrite <- Hp in Hpage. rewrite <- Hb in Hbrowser.
  destruct (Hk a Ha s1 Hpage Hbrowser)
    as (b & s2 & -> & Hb' & Hp2 & Hb2 & (new' & Hhistory' & Hnew') & Hnames').
  exists b, s2. split; [done|]. split; [done|].
  split; [congruence|]. split; [congruence|]. split.
  - exists (new ++ new'). rewrite Hhistory', Hhistory, app_assoc.
    by rewrite by_program_app, Hnew, Hnew'.
  - by rewrite Hnames', Hnames, app_assoc.
Qed.

Lemma completes_weaken {A} (c : M A) (requests requests' : list Request)
    (names names' : list string) (Q Q' : A → Prop) :
  completes requests names Q c →
  requests = requests' → names = names' → (∀ a, Q a → Q' a) →
  completes requests' names' Q' c.
Proof.
  intros Hc <- <- HQ s Hpage Hbrowser.
  destruct (Hc s Hpage Hbrowser) as (a & s' & ? & ? & ?). exists a, s'. auto.
Qed.

Lemma completes_await (r : Request) :
  from_listener r = false → completes [r] [] (λ _, True) (await browser r).
Proof.
  intros Hr s Hpage Hbrowser.
  destruct (await_asks browser r s Hr) as (new & Hhistory & Hnew & Hown).
  destruct (await_inv browser r s) as [[Hp Hb _ _ _] Hresult].
  rewrite calm in Hresult.
  destruct (await browser r s) as [o s']. cbn [fst snd] in *. subst o.
  eexists _, s'. split; [done|]. split; [done|]. do 2 (split; [done|]).
  split; [by eauto|]. by rewrite Hown, app_nil_r.
Qed.

Lemma completes_statePush (service : Service) (data : list Value) :
  completes [] [service_name service] (λ _, True)
    (statePush (service_name service) data).
Proof.
  intros s Hpage Hbrowser. eexists tt, _. split; [done|].
  split; [done|]. do 2 (split; [done|]). split.
  - exists []. by rewrite app_nil_r.
  - unfold push, own. cbn [_state]. rewrite filter_app, filter_cons.
    destruct (decide _) as [|Hno]; [by rewrite map_app|].
    exfalso. apply Hno, by_service_name.
Qed.

Lemma completes_plain {A} (c : M A) (a : A) :
  (∀ s, is_Some (_page s) → is_Some (_browser s) → c s = (Returned a, s)) →
  completes [] [] (λ b, b = a) c.
Proof.
  intros Hc s Hpage Hbrowser. exists a, s. rewrite Hc by done.
  repeat split; try done.
  - exists []. by rewrite app_nil_r.
  - by rewrite app_nil_r.
Qed.

Lemma completes_get (service : Service) :
  completes [] [] (λ found, found = service) (get (service_name service)).
Proof.
  apply completes_plain. intros s [p Hp] _.
  assert (get (service_name service) = (get_page;; ret service)) as ->
    by (by destruct service).
  unfold bind, get_page, ret. by rewrite Hp.
Qed.

Lemma completes_catch {A} (c : M A) (h : string → M A)
    (requests : list Request) (names : list string) (Q : A → Prop) :
  completes requests names Q c → completes requests names Q (catch c h).
Proof.
  intros Hc s Hpage Hbrowser. unfold catch.
  destruct (Hc s Hpage Hbrowser) as (a & s' & -> & H). by exists a, s'.
Qed.
End Completes.

Lemma bind_returned {A B} (c : M A) (k : A → M B) (s s' : Session) (a : A) :
  c s = (Returned a, s') → bind c k s = k a s'.
Proof. intros Hc. unfold bind. by rewrite Hc. Qed.

Lemma bind_fails {A B} (c : M A) (k : A → M B) (s : Session) :
  (∀ a, fst (c s) ≠ Returned a) → bind c k s = (match fst (c s) with
                                                | Returned _ => Unfinished
                                                | Threw msg => Threw msg
                                                | Unfinished => Unfinished
                                                end, snd (c s)).
Proof.
  intros Hc. unfold bind. destruct (c s) as [[a|msg|] s']; [|done..].
  by destruct (Hc a).
Qed.

Lemma silent_get_page : silent get_page.
Proof. intros s. unfold get_page. by destruct (_page s). Qed.

Lemma silent_get_browser : silent get_browser.
Proof. intros s. unfold get_browser. by destruct (_browser s). Qed.

Lemma extends_get_page : extends get_page.
Proof. intros s. unfold get_page. by destruct (_page s). Qed.

Lemma extends_get_browser : extends get_browser.
Proof. intros s. unfold get_browser. by destruct (_browser s). Qed.

Lemma silent_close_session (browser : Browser) : silent (close_session browser).
Proof.
  unfold close_session.
  auto 10 using silent_get_page, silent_get_browser with silent.
Qed.

Lemma extends_close_session (browser : Browser) : extends (close_session browser).
Proof.
  unfold close_session.
  auto 10 using extends_get_page, extends_get_browser with extends.
Qed.

Section Responsive.
Context (browser : Browser) (calm : responsive browser).

Ltac completes_step :=
  first [ apply completes_ret
        | apply completes_await; [exact calm | reflexivity]
        | apply (completes_statePush NavigationService)
        | apply (completes_statePush PaginationService)
        | apply (completes_statePush MetricsService)
        | apply (completes_statePush CookiesService)
        | apply (completes_statePush ScreenshotService)
        | apply (completes_statePush ContentService)
        | apply completes_catch ].

Ltac completes_chain :=
  eapply completes_weaken;
  [ repeat (eapply completes_bind; [completes_step | intros ? ?]);
    completes_step
  | reflexivity | reflexivity | done ].

Lemma completes_quiet {A} (c : M A) :
  (∀ s, is_Some (_page s) → is_Some (_browser s) → ∃ a, c s = (Returned a, s)) →
  completes [] [] (λ _, True) c.
Proof.
  intros Hc s Hpage Hbrowser. destruct (Hc s Hpage Hbrowser) as [a ->].
  exists a, s. split; [done|]. repeat split.
  - exists []. by rewrite app_nil_r.
  - by rewrite app_nil_r.
Qed.

Lemma completes_current_url :
  completes [] [] (λ _, True) (current_url browser).
Proof. apply completes_quiet. by eexists. Qed.

Lemma completes_navigate (address : string) (options : option GoToOptions) :
  completes [Goto address (default default_GoToOptions options)]
    ["NavigationService"] (λ _, True) (navigate browser address options).
Proof. unfold navigate. completes_chain. Qed.

Lemma completes_discover :
  completes [Evaluate ExtractPages; Evaluate ExtractLinks] ["PaginationService"]
    (λ _, True) (discover browser).
Proof. unfold discover. completes_chain. Qed.

Lemma completes_getResults :
  completes [Title; Evaluate ExtractMeta; Metrics] ["MetricsService"]
    (λ _, True) (getResults browser).
Proof.
  unfold getResults.
  eapply completes_weaken;
    [ eapply completes_bind; [completes_step | intros ? ?];
      eapply completes_bind; [apply completes_current_url | intros ? ?];
      repeat (eapply completes_bind; [completes_step | intros ? ?]);
      completes_step
    | reflexivity | reflexivity | done ].
Qed.

Lemma completes_getCookies :
  completes [Cookies] ["CookiesService"] (λ _, True) (getCookies browser).
Proof. unfold getCookies. completes_chain. Qed.

Lemma completes_screenshot (path : string) :
  completes [Screenshot true path] ["ScreenshotService"] (λ _, True)
    (screenshot browser path).
Proof. unfold screenshot. completes_chain. Qed.

Lemma completes_getContent :
  completes [Evaluate BodyOuterHTML] ["ContentService"] (λ _, True)
    (getContent browser).
Proof. unfold getContent. completes_chain. Qed.

Lemma completes_close (id : string) :
  completes [WaitForSelector ("#" +:+ id) (Some 5000); Evaluate (ClickById id)] []
    (λ _, True) (close browser id).
Proof.
  unfold close.
  eapply completes_weaken;
    [ eapply (completes_bind _ _ _ _ _ _ (λ found, found = true));
      [ apply completes_catch;
        eapply completes_weaken;
          [ eapply completes_bind; [completes_step | intros ? ?]; completes_step
          | reflexivity | reflexivity | done ]
      | intros found ->; eapply completes_bind; [completes_step | intros ? ?];
        completes_step ]
    | reflexivity | reflexivity | done ].
Qed.

Lemma completes_restore_cookies (fs : Storage) (path : string)
    (cookies : list Json) :
  loadCookiesFromStorage fs path = Returns (JArr cookies) →
  completes match cookies with [] => [] | _ => [SetCookie cookies] end []
    (λ _, True) (restore_cookies browser fs path).
Proof.
  intros Hload. unfold restore_cookies, loadCookies. rewrite Hload.
  destruct cookies as [|cookie more].
  - eapply completes_weaken; [apply (completes_ret tt)|done..].
  - change (bind (settle (Returns (JArr (cookie :: more))))
              (λ storage, setCookies_loaded browser storage))
      with (setCookies_loaded browser (JArr (cookie :: more))).
    unfold setCookies_loaded. cbn [js_length truthy js_iterate settle].
    assert (negb (Z.of_nat (length (cookie :: more)) =? 0) = true) as ->
      by (apply negb_true_iff, Z.eqb_neq; simpl; lia).
    eapply completes_weaken;
      [ eapply completes_bind; [apply completes_ret | intros ? ->];
        eapply completes_bind; [completes_step | intros ? ?]; completes_step
      | reflexivity | reflexivity | done ].
Qed.

Lemma completes_close_session :
  completes [ClosePage; CloseBrowser] [] (λ _, True) (close_session browser).
Proof.
  unfold close_session.
  eapply completes_weaken;
    [ eapply completes_bind;
        [apply (completes_quiet get_page); intros s [p Hp] _;
         unfold get_page; rewrite Hp; by eexists | intros ? ?];
      eapply completes_bind; [completes_step | intros ? ?];
      eapply completes_bind;
        [apply (completes_quiet get_browser); intros s _ [b Hb];
         unfold get_browser; rewrite Hb; by eexists | intros ? ?];
      eapply completes_bind; [completes_step | intros ? ?];
      completes_step
    | reflexivity | reflexivity | done ].
Qed.
End Responsive.

(** *** [BrowserManager.close] *)

Lemma close_session_outcome (browser : Browser) (s : Session) :
  let run := close_session browser s in
  ∃ requests,
    history (snd run) = history s ++ requests ∧
    match _page s, rejects browser (history s) ClosePage with
    | None, _ =>
        requests = [] ∧ fst run = Threw "Missing page instance"
    | Some _, Some msg =>
        by_program requests = [ClosePage] ∧ fst run = Threw msg
    | Some _, None =>
        match _browser s with
        | None =>
            by_program requests = [ClosePage] ∧
            fst run = Threw "Missing browser instance"
        | Some _ =>
            by_program requests = [ClosePage; CloseBrowser] ∧
            fst run
            = match rejects browser (history (snd (await browser ClosePage s)))
                      CloseBrowser with
              | Some msg => Threw msg
              | None => Returned tt
              end
        end
    end.
Proof.
  cbv zeta. destruct (close_session browser s) as [o s'] eqn:Hrun.
  cbn [fst snd]. unfold close_session, bind at 1, get_page in Hrun.
  destruct (_page s) as [p|] eqn:Hp;
    [|injection Hrun as <- <-; exists []; by rewrite app_nil_r].
  unfold bind at 1 in Hrun.
  destruct (await_asks browser ClosePage s eq_refl) as (requests & Hhistory & Hmine & _).
  destruct (await_inv browser ClosePage s) as [[_ Hb _ _ _] Hresult].
  destruct (await browser ClosePage s) as [o1 s1]. cbn [fst snd] in *. subst o1.
  destruct (rejects browser (history s) ClosePage) as [msg|];
    [injection Hrun as <- <-; by exists requests|].
  unfold bind at 1, get_browser in Hrun. rewrite Hb in Hrun.
  cbn [_browser asked] in Hrun.
  destruct (_browser s) as [b|]; [|injection Hrun as <- <-; by exists requests].
  unfold bind, ret in Hrun.
  destruct (await_asks browser CloseBrowser s1 eq_refl)
    as (requests' & Hhistory' & Hmine' & _).
  destruct (await_inv browser CloseBrowser s1) as [_ Hresult'].
  destruct (await browser CloseBrowser s1) as [o2 s2]. cbn [fst snd] in *. subst o2.
  exists (requests ++ requests').
  rewrite by_program_app, Hmine, Hmine'.
  destruct (rejects browser (history s1) CloseBrowser);
    injection Hrun as <- <-; by rewrite Hhistory', Hhistory, <- app_assoc.
Qed.

(** X8. [BrowserManager.close] closes the page first and the browser
    second.  On a manager without a page it throws "Missing page
    instance" and asks nothing.  When the page cannot be closed, the
    error is thrown on and the browser is never asked to close. *)
Theorem close_page_then_browser (browser : Browser) (s : Session) :
  let run := close_session browser s in
  ∃ requests,
    history (snd run) = history s ++ requests ∧
    match _page s, rejects browser (history s) ClosePage with
    | None, _ =>
        requests = [] ∧ fst run = Threw "Missing page instance"
    | Some _, Some msg =>
        by_program requests = [ClosePage] ∧ fst run = Threw msg
    | Some _, None =>
        match _browser s with
        | None =>
            by_program requests = [ClosePage] ∧
            fst run = Threw "Missing browser instance"
        | Some _ =>
            by_program requests = [ClosePage; CloseBrowser] ∧
            fst run
            = match rejects browser (history (snd (await browser ClosePage s)))
                      CloseBrowser with
              | Some msg => Threw msg
              | None => Returned tt
              end
        end
    end.
Proof. apply close_session_outcome. Qed.

(** *** [run] *)

Section RunFacts.
Context (browser : Browser) (writable : string → bool)
  (parse : string → option Json) (stringify : Value → Json)
  (path_join : list string → string) (cwd : string).

(** The options of [run] always name a browser. *)
Lemma opening_run_options (env : Env) :
  opening (run_options env)
  = [if bool_decide (is_Some (browserWSEndpoint (run_options env)))
     then Connect (run_options env) else Launch (run_options env)] ∧
  (is_Some (browserWSEndpoint (run_options env)) ∨
   is_Some (executablePath (run_options env))).
Proof.
  unfold opening, run_options.
  destruct (REMOTE_BROWSER env) as [[|c remote]|]; cbn; eauto.
Qed.

(** The crawl of [run] ends, and asks nothing to be closed. *)
Lemma crawl_outcome (env : Env) (fs : Storage) :
  let run := crawl browser path_join cwd env fs new_BrowserManager in
  fst run ≠ Unfinished ∧
  ∃ rest, history (snd run) = opening (run_options env) ++ rest ∧
          Forall (λ r, is_close r = false) rest.
Proof.
  cbv zeta.
  destruct (crawl browser path_join cwd env fs new_BrowserManager) as [o s'] eqn:Hrun.
  cbn [fst snd]. unfold crawl in Hrun. cbv zeta in Hrun.
  unfold bind at 1 in Hrun.
  pose proof (initialize_outcome browser (run_options env) new_BrowserManager)
    as [(rest & Hhistory & Hrest) Hend].
  change (history new_BrowserManager) with (@nil Request) in Hhistory.
  rewrite app_nil_l in Hhistory.
  destruct (initialize browser (run_options env) new_BrowserManager)
    as [[[]|msg|] s1]; cbn [fst snd] in Hhistory, Hend;
    [|injection Hrun as <- <-; split; [done|by exists rest]|done].
  destruct (asks_steps (λ r, is_close r = false) (λ r Hr, Hr) browser fs
              (getFullPath path_join cwd "output.json")
              (getFullPath path_join cwd "screenshot.png") s1)
    as (Hend' & _ & requests & Hhistory' & Hrequests).
  rewrite Hrun in Hend', Hhistory'. cbn [fst snd] in Hend', Hhistory'.
  split; [done|]. exists (rest ++ requests).
  rewrite Hhistory', Hhistory, <- app_assoc. split; [done|]. by apply Forall_app.
Qed.

(** X9. Whatever the environment holds, [run] begins by getting a
    browser: with a non-empty [REMOTE_BROWSER] its first request
    connects to "http://" followed by that value, and
    [EXECUTABLE_PATH] is not looked at; otherwise (the variable unset
    or empty) it launches the executable at [EXECUTABLE_PATH], be it
    the empty string, and "/usr/bin/google-chrome" when that variable
    is unset.  HTTPS errors are ignored either way. *)
Theorem run_opens_the_browser (env : Env) (fs : Storage) :
  ∃ rest,
    history (snd (fst (run browser writable parse stringify path_join cwd env fs)))
    = match REMOTE_BROWSER env with
      | Some (String c remote) =>
          Connect {| browserWSEndpoint := Some ("http://" +:+ String c remote);
                     executablePath := None;
                     ignoreHTTPSErrors := Some true |}
      | Some EmptyString | None =>
          Launch {| browserWSEndpoint := None;
                    executablePath :=
                      Some (default "/usr/bin/google-chrome" (EXECUTABLE_PATH env));
                    ignoreHTTPSErrors := Some true |}
      end :: rest.
Proof.
  unfold run.
  destruct (crawl_outcome env fs) as (_ & rest & Hhistory & _).
  assert (opening (run_options env)
          = [match REMOTE_BROWSER env with
             | Some (String c remote) =>
                 Connect {| browserWSEndpoint := Some ("http://" +:+ String c remote);
                            executablePath := None;
                            ignoreHTTPSErrors := Some true |}
             | Some EmptyString | None =>
                 Launch {| browserWSEndpoint := None;
                           executablePath :=
                             Some (default "/usr/bin/google-chrome"
                                     (EXECUTABLE_PATH env));
                           ignoreHTTPSErrors := Some true |}
             end]) as Hopening.
  { unfold opening, run_options. by destruct (REMOTE_BROWSER env) as [[|c remote]|]. }
  rewrite Hopening in Hhistory. clear Hopening.
  destruct (crawl browser path_join cwd env fs new_BrowserManager) as [[[]|msg|] s];
    cbn [fst snd] in *; [|exists rest; exact Hhistory..].
  destruct (close_session_outcome browser s) as (requests & Hclosed & _).
  destruct (close_session browser s) as [o s']. cbn [fst snd] in *.
  exists (rest ++ requests). by rewrite Hclosed, Hhistory.
Qed.

(** X10. A [run] that fails before its export leaves everything open:
    when a step of the crawl throws, [run] rejects with that error,
    nothing has been saved, and neither the page nor the browser has
    been asked to close. *)
Theorem failed_run_closes_nothing (env : Env) (fs : Storage) :
  (∀ a, fst (crawl browser path_join cwd env fs new_BrowserManager) ≠ Returned a) →
  ∃ msg s',
    run browser writable parse stringify path_join cwd env fs = (Threw msg, s', fs) ∧
    Forall (λ r, is_close r = false) (history s').
Proof.
  intros Hfails. unfold run.
  destruct (crawl_outcome env fs) as (Hend & rest & Hhistory & Hrest).
  destruct (crawl browser path_join cwd env fs new_BrowserManager) as [[a|msg|] s];
    cbn [fst snd] in *; [by destruct (Hfails a)| |done].
  exists msg, s. split; [done|]. rewrite Hhistory. apply Forall_app. split; [|done].
  destruct (opening_run_options env) as [-> _].
  repeat constructor. by destruct (bool_decide _).
Qed.
End RunFacts.

Lemma failed_run_closes_nothing_witness :
  (∀ a, fst (crawl Trial.offline Trial.path_join "/srv" Trial.remote Trial.no_files
               new_BrowserManager) ≠ Returned a) ∧
  ∃ msg s',
    run Trial.offline (λ _, true) (λ _, None) Trial.stringify Trial.path_join "/srv"
      Trial.remote Trial.no_files
    = (Threw msg, s', Trial.no_files) ∧
    Forall (λ r, is_close r = false) (history s').
Proof.
  split; [intros a; vm_compute; discriminate|].
  apply (failed_run_closes_nothing Trial.offline (λ _, true) (λ _, None)
           Trial.stringify Trial.path_join "/srv" Trial.remote Trial.no_files).
  intros a. vm_compute. discriminate.
Defined.

Section RunResponsive.
Context (browser : Browser) (calm : responsive browser)
  (writable : string → bool) (parse : string → option Json)
  (stringify : Value → Json) (path_join : list string → string) (cwd : string).

(** The steps of [run] between [initialize] and [exportState], on a
    browser that rejects nothing. *)
Lemma completes_steps (fs : Storage) (outputPath screenshotPath : string)
    (cookies : list Json) :
  loadCookiesFromStorage fs outputPath = Returns (JArr cookies) →
  completes
    (match cookies with [] => [] | _ => [SetCookie cookies] end
     ++ [Goto start_url default_GoToOptions;
         WaitForSelector "#close-cookies" (Some 5000);
         Evaluate (ClickById "close-cookies");
         Evaluate ExtractPages; Evaluate ExtractLinks;
         Title; Evaluate ExtractMeta; Metrics;
         Cookies;
         Screenshot true screenshotPath;
         Evaluate BodyOuterHTML])
    ["NavigationService"; "PaginationService"; "MetricsService";
     "CookiesService"; "ScreenshotService"; "ContentService"]
    (λ _, True)
    (let* navigation := get "NavigationService" in
     let* cookies := get "CookiesService" in
     restore_cookies browser fs outputPath;;
     navigate browser start_url None;;
     close browser "close-cookies";;
     get "PaginationService";; discover browser;;
     get "MetricsService";; getResults browser;;
     getCookies browser;;
     get "ScreenshotService";; screenshot browser screenshotPath;;
     get "ContentService";; getContent browser).
Proof.
  intros Hload.
  eapply completes_weaken;
    [ eapply completes_bind; [apply (completes_get NavigationService)|intros ? ?];
      eapply completes_bind; [apply (completes_get CookiesService)|intros ? ?];
      eapply completes_bind;
        [apply (completes_restore_cookies browser calm _ _ _ Hload)|intros ? ?];
      eapply completes_bind; [apply (completes_navigate browser calm)|intros ? ?];
      eapply completes_bind; [apply (completes_close browser calm)|intros ? ?];
      eapply completes_bind; [apply (completes_get PaginationService)|intros ? ?];
      eapply completes_bind; [apply (completes_discover browser calm)|intros ? ?];
      eapply completes_bind; [apply (completes_get MetricsService)|intros ? ?];
      eapply completes_bind; [apply (completes_getResults browser calm)|intros ? ?];
      eapply completes_bind; [apply (completes_getCookies browser calm)|intros ? ?];
      eapply completes_bind; [apply (completes_get ScreenshotService)|intros ? ?];
      eapply completes_bind; [apply (completes_screenshot browser calm)|intros ? ?];
      eapply completes_bind; [apply (completes_get ContentService)|intros ? ?];
      apply (completes_getContent browser calm)
    | by destruct cookies | reflexivity | done ].
Qed.

(** X11. On a browser that rejects nothing, and with a snapshot file
    that holds an array of cookies for [CookiesService] or none at
    all, [run] returns.  The program's requests are, in this order:
    the opening of the browser, the new page, the interception, the
    stored cookies if there are any, the navigation, the wait for the
    cookie banner and the click on it, the two discovery scripts, the
    title, the meta script and the metrics, the cookies, the
    screenshot, the content; then, after the export, the closing of
    the page and of the browser.  The exported log holds one record
    of each of the six services that [run] uses, in the order of the
    calls; records that the listeners push while the session closes
    come too late for it. *)
Theorem run_on_a_responsive_browser (env : Env) (fs : Storage)
    (cookies : list Json) :
  loadCookiesFromStorage fs (getFullPath path_join cwd "output.json")
  = Returns (JArr cookies) →
  ∃ s' log,
    run browser writable parse stringify path_join cwd env fs
    = (Returned tt, s',
       saveToFile writable parse (getFullPath path_join cwd "output.json")
         (as_value (JArr (map (record_json stringify) log))) fs) ∧
    by_program (history s')
    = opening (run_options env)
      ++ [NewPage; SetRequestInterception true]
      ++ match cookies with [] => [] | _ => [SetCookie cookies] end
      ++ [Goto start_url default_GoToOptions;
          WaitForSelector "#close-cookies" (Some 5000);
          Evaluate (ClickById "close-cookies");
          Evaluate ExtractPages; Evaluate ExtractLinks;
          Title; Evaluate ExtractMeta; Metrics;
          Cookies;
          Screenshot true (getFullPath path_join cwd "screenshot.png");
          Evaluate BodyOuterHTML;
          ClosePage; CloseBrowser] ∧
    map sourceName (own log)
    = ["NavigationService"; "PaginationService"; "MetricsService";
       "CookiesService"; "ScreenshotService"; "ContentService"] ∧
    log `prefix_of` _state s' ∧
    own (_state s') = own log.
Proof.
  intros Hload. unfold run, crawl. cbv zeta.
  destruct (opening_run_options env) as [Hopening Hoptions].
  pose proof (initialize_responsive browser (run_options env) new_BrowserManager
                eq_refl calm Hoptions) as Hinit.
  rewrite (bind_returned _ _ _ _ _ Hinit).
  match type of Hinit with _ = (_, ?s) => set (s0 := s) in * end.
  destruct (completes_steps fs _ (getFullPath path_join cwd "screenshot.png")
              cookies Hload s0)
    as (a & s1 & -> & _ & Hp1 & Hb1 & (new & Hhistory & Hnew) & Hnames);
    [by eexists..|].
  destruct (completes_close_session browser calm s1)
    as ([] & s2 & Hclose & _ & _ & _ & (new' & Hhistory' & Hnew') & _);
    [rewrite Hp1; by eexists | rewrite Hb1; by eexists|].
  pose proof (silent_close_session browser s1) as Hsilent.
  pose proof (extends_close_session browser s1) as Hextends.
  rewrite Hclose in Hsilent, Hextends |- *. cbn [fst snd] in Hsilent, Hextends.
  exists s2, (_state s1). split; [done|]. split; [|by split].
  rewrite Hhistory', Hhistory, !by_program_app, Hnew, Hnew'.
  subst s0. cbn [history new_BrowserManager app]. rewrite Hopening.
  destruct (bool_decide (is_Some (browserWSEndpoint (run_options env))));
    by destruct cookies.
Qed.
End RunResponsive.

Lemma run_on_a_responsive_browser_witness :
  responsive Fixture.browser ∧
  loadCookiesFromStorage Trial.no_files
    (getFullPath Trial.path_join "/srv" "output.json") = Returns (JArr []) ∧
  ∃ s' log,
    run Fixture.browser (λ _, true) (λ _, None) Trial.stringify Trial.path_join
      "/srv" Trial.remote Trial.no_files
    = (Returned tt, s',
       saveToFile (λ _, true) (λ _, None) "/srv/output/output.json"
         (as_value (JArr (map (record_json Trial.stringify) log))) Trial.no_files) ∧
    by_program (history s')
    = [Connect {| browserWSEndpoint := Some "http://localhost:3030";
                  executablePath := None; ignoreHTTPSErrors := Some true |};
       NewPage; SetRequestInterception true;
       Goto start_url default_GoToOptions;
       WaitForSelector "#close-cookies" (Some 5000);
       Evaluate (ClickById "close-cookies");
       Evaluate ExtractPages; Evaluate ExtractLinks;
       Title; Evaluate ExtractMeta; Metrics;
       Cookies;
       Screenshot true "/srv/output/screenshot.png";
       Evaluate BodyOuterHTML;
       ClosePage; CloseBrowser] ∧
    map sourceName (own log)
    = ["NavigationService"; "PaginationService"; "MetricsService";
       "CookiesService"; "ScreenshotService"; "ContentService"] ∧
    log `prefix_of` _state s' ∧
    own (_state s') = own log.
Proof.
  split; [by intros h r|]. split; [reflexivity|].
  apply (run_on_a_responsive_browser Fixture.browser (λ h r, eq_refl)
           (λ _, true) (λ _, None) Trial.stringify Trial.path_join "/srv"
           Trial.remote Trial.no_files []).
  reflexivity.
Defined.

(** ** [ScrollService.scroll], in general *)

(** While a measurement differs from the one before, the loop goes on:
    it is still running when its passes are used up. *)
Lemma scroll_loop_unfinished (browser : Browser) (selector : string)
    (dir : Direction) (since : History) (extents : list Z) :
  responsive browser →
  measures browser selector dir since extents →
  ∀ iterations k previous current s,
    polls (history s) = (polls since + k)%nat →
    passes previous current (drop k extents) = None →
    length (drop k extents) = iterations →
    ∃ s',
      scroll_loop browser iterations selector dir previous current s
      = (Unfinished, s') ∧
      scroll_actions (history s') = (scroll_actions (history s) + iterations)%nat.
Proof.
  intros Hcalm Hmeasures iterations.
  induction iterations as [|iterations IH];
    intros k previous current s Hk Hpasses Hlength; cbn [scroll_loop];
    (destruct (decide (current ≠ previous)) as [Hne|Heq%dec_stable];
     [rewrite bool_decide_eq_true_2 by done
     |destruct (drop k extents); simpl in Hpasses;
      by rewrite bool_decide_eq_false_2 in Hpasses by (by intros ?)]).
  - exists s. split; [done|]. lia.
  - destruct (drop k extents) as [|next upcoming] eqn:Hdrop; [done|].
    simpl in Hpasses. rewrite bool_decide_eq_true_2 in Hpasses by done.
    destruct (passes current next upcoming) eqn:Hrest; [done|].
    apply drop_lookup_head in Hdrop as [Hnext Hupcoming].
    destruct (scroll_pass_counted browser selector dir next s Hcalm)
      as (s1 & Hpass & Hp1 & Ha1).
    { intros h Hh. apply (Hmeasures h k next); [lia | done]. }
    unfold bind. rewrite Hpass.
    destruct (IH (S k) current next s1) as (s' & Hloop & Ha);
      [lia | by rewrite Hupcoming | rewrite Hupcoming; simpl in Hlength; lia |].
    exists s'. split; [done|]. lia.
Qed.

(** X12. [scroll] stops at the first measurement that repeats the one
    before it, and only there.  When the successive measurements are
    [first :: upcoming] and [passes] says that the [n]-th pass is the
    first to measure what the pass before had measured (the size
    before the first measurement counting as 0), then [scroll], given
    at least [n] passes, ends after [n] scroll actions and [n + 1]
    measurements: it returns, unless the browser has rejected a
    request on the way.  In particular an element of extent 0 is not
    scrolled at all. *)
Theorem scroll_stops_at_first_repeat (browser : Browser) (selector : string)
    (direction : option Direction) (first : Z) (upcoming : list Z)
    (iterations n : nat) (s : Session) :
  measures browser selector (default vertical direction) (history s)
    (first :: upcoming) →
  passes 0 first upcoming = Some n →
  (n ≤ iterations)%nat →
  ∃ outcome s',
    scroll browser iterations selector direction s = (outcome, s') ∧
    match outcome with
    | Returned _ =>
        polls (history s') = (polls (history s) + S n)%nat ∧
        scroll_actions (history s') = (scroll_actions (history s) + n)%nat
    | Threw _ =>
        ¬ responsive browser ∧
        (polls (history s') ≤ polls (history s) + S n)%nat ∧
        (scroll_actions (history s') ≤ scroll_actions (history s) + n)%nat
    | Unfinished => False
    end.
Proof.
  intros Hmeasures Hn Hle.
  destruct (scroll_ended browser selector direction first upcoming iterations n s
              Hmeasures Hn Hle) as (o & s' & Hrun & Hended).
  exists o, s'. split; [done|]. destruct o; simpl in Hended; tauto.
Qed.

Lemma scroll_stops_at_first_repeat_witness :
  measures Fixture.browser "#feed" horizontal (history Fixture.initialized)
    [640; 640] ∧
  passes 0 640 [640] = Some 1%nat ∧
  ∃ outcome s',
    scroll Fixture.browser 1 "#feed" (Some horizontal) Fixture.initialized
    = (outcome, s') ∧
    match outcome with
    | Returned _ =>
        polls (history s') = (polls (history Fixture.initialized) + 2)%nat ∧
        scroll_actions (history s')
        = (scroll_actions (history Fixture.initialized) + 1)%nat
    | Threw _ =>
        ¬ responsive Fixture.browser ∧
        (polls (history s') ≤ polls (history Fixture.initialized) + 2)%nat ∧
        (scroll_actions (history s')
         ≤ scroll_actions (history Fixture.initialized) + 1)%nat
    | Unfinished => False
    end.
Proof.
  assert (measures Fixture.browser "#feed" horizontal (history Fixture.initialized)
            [640; 640]) as Hmeasures.
  { intros h k extent _ Hextent. exists (Fixture.feed (polls h)).
    split; [reflexivity|].
    destruct k as [|[|k]]; simpl in Hextent; [by injection Hextent as <-..|done]. }
  split; [exact Hmeasures|]. split; [reflexivity|].
  apply (scroll_stops_at_first_repeat Fixture.browser "#feed" (Some horizontal)
           640 [640] 1 1 Fixture.initialized Hmeasures eq_refl).
  lia.
Defined.

(** X13. [scroll] has no bound of its own: on a browser that rejects
    nothing, as long as every measurement differs from the one before
    it ([passes] finds no repeat among the measurements), the loop is
    still running after any number of passes, and has made one scroll
    action in each. *)
Theorem scroll_runs_while_the_extent_changes (browser : Browser)
    (selector : string) (direction : option Direction) (first : Z)
    (upcoming : list Z) (s : Session) :
  responsive browser →
  measures browser selector (default vertical direction) (history s)
    (first :: upcoming) →
  passes 0 first upcoming = None →
  ∃ s',
    scroll browser (length upcoming) selector direction s = (Unfinished, s') ∧
    scroll_actions (history s')
    = (scroll_actions (history s) + length upcoming)%nat.
Proof.
  intros Hcalm Hmeasures Hpasses. unfold scroll.
  unfold bind at 1, statePush.
  set (s0 := push _ s).
  assert (history s0 = history s) as Hs0 by done.
  destruct (await_counted browser (WaitForSelector selector (Some 60000)) s0 Hcalm)
    as (s1 & Hwait & Hp1 & Ha1).
  unfold bind at 1. rewrite Hwait.
  unfold bind at 1, measure, bind at 1.
  destruct (await_counted browser
              (Evaluate (MeasureExtent selector (default vertical direction))) s1
              Hcalm) as (s2 & Hmeasure & Hp2 & Ha2).
  rewrite Hmeasure.
  destruct (Hmeasures (history s1) 0%nat first) as (element & -> & <-);
    [rewrite Hp1, Hs0; simpl; lia | done |].
  unfold ret at 1.
  destruct (scroll_loop_unfinished browser selector (default vertical direction)
              (history s) (measured_extent (default vertical direction) element
                           :: upcoming)
              Hcalm Hmeasures (length upcoming) 1%nat 0
              (measured_extent (default vertical direction) element) s2)
    as (s' & Hloop & Ha); [rewrite Hp2, Hp1, Hs0; simpl; lia | done | done |].
  unfold bind. rewrite Hloop. exists s'. split; [done|].
  rewrite Ha, Ha2, Ha1, Hs0. simpl. lia.
Qed.

Lemma scroll_runs_while_the_extent_changes_witness :
  responsive Trial.oscillating ∧
  measures Trial.oscillating "#feed" vertical (history new_BrowserManager)
    [100; 200; 100; 200] ∧
  passes 0 100 [200; 100; 200] = None ∧
  ∃ s',
    scroll Trial.oscillating 3 "#feed" None new_BrowserManager = (Unfinished, s') ∧
    scroll_actions (history s') = 3%nat.
Proof.
  assert (measures Trial.oscillating "#feed" vertical (history new_BrowserManager)
            [100; 200; 100; 200]) as Hmeasures.
  { intros h k extent Hh Hextent. eexists. split; [reflexivity|].
    simpl in Hh. simpl. rewrite Hh.
    destruct k as [|[|[|[|k]]]]; simpl in Hextent; by try injection Hextent as <-. }
  split; [by intros h r|]. split; [exact Hmeasures|]. split; [reflexivity|].
  apply (scroll_runs_while_the_extent_changes Trial.oscillating "#feed" None
           100 [200; 100; 200] new_BrowserManager (λ h r, eq_refl) Hmeasures
           eq_refl).
Defined.

(** ** The pagination script, in general *)

(** The object that [_extractParams] fills: at each key, the value of
    the last pair that has that name in lower case; the name
    [__proto__] makes no key. *)
Lemma fold_params_lookup (e : Engine) (key : string)
    (pairs : list (string * string)) (params : gmap string string) :
  fold_left (λ paramsObj '(k, value), assign (toLocaleLowerCase e k) value paramsObj)
    pairs params !! key
  = match param_of e key pairs with
    | Some value => Some value
    | None => params !! key
    end.
Proof.
  unfold param_of. destruct (String.eqb_spec key "__proto__") as [->|Hkey].
  - revert params. induction pairs as [|[k value] pairs IH]; intros params; [done|].
    cbn [fold_left]. rewrite IH. unfold assign.
    destruct (String.eqb_spec (toLocaleLowerCase e k) "__proto__") as [|Hother];
      [done|].
    by apply lookup_insert_ne.
  - revert params. induction pairs as [|[k value] pairs IH]; intros params; [done|].
    cbn [fold_left]. rewrite IH, filter_cons. cbn [fst]. unfold assign.
    destruct (decide (toLocaleLowerCase e k = key)) as [<-|Hother].
    + rewrite last_cons.
      destruct (last (filter _ pairs)) as [[k' value']|]; [done|].
      destruct (String.eqb_spec (toLocaleLowerCase e k) "__proto__"); [done|].
      cbn. apply lookup_insert_eq.
    + destruct (last (filter _ pairs)) as [[k' value']|]; [done|].
      destruct (String.eqb_spec (toLocaleLowerCase e k) "__proto__"); [done|].
      cbn. by apply lookup_insert_ne.
Qed.

(** X14. The parameters that the pagination script extracts from an
    address, whatever the engine makes of the address.  When [new URL]
    rejects it the script yields [null]; otherwise it yields an object
    that has, at each key, the value of the last pair of the query
    string whose name is that key once the engine has put it in lower
    case: names that the lower-casing identifies collide, and the last
    one wins.  A parameter whose name is [__proto__] in lower case
    leaves no key: the assignment goes to the accessor of
    [Object.prototype], which ignores a string. *)
Theorem extractParams_last_pair_wins (e : Engine) (address : string) :
  match new_URL e address with
  | Returns parsed =>
      ∃ params : gmap string string,
        _extractParams e address = Some params ∧
        ∀ key, params !! key = param_of e key (URLSearchParams e (search parsed))
  | Throws _ => _extractParams e address = None
  end.
Proof.
  unfold _extractParams. destruct (new_URL e address) as [parsed|msg]; [|done].
  eexists. split; [done|]. intros key. rewrite fold_params_lookup.
  by destruct (param_of e key _).
Qed.

(** The index of an element of an array whose elements are distinct
    nodes. *)
Lemma indexOf_from_lookup (elements : list Anchor) (from : Z) (i : nat)
    (a : Anchor) :
  NoDup (map node elements) →
  elements !! i = Some a →
  indexOf_from same_node from elements a = from + Z.of_nat i.
Proof.
  revert from i. induction elements as [|e rest IH]; intros from i Hnodes Hi;
    [done|].
  cbn [map] in Hnodes. apply NoDup_cons in Hnodes as [Hfresh Hnodes].
  cbn [indexOf_from]. unfold same_node at 1. destruct i as [|i].
  - injection Hi as ->. rewrite Nat.eqb_refl. lia.
  - cbn in Hi. destruct (Nat.eqb_spec (node e) (node a)) as [Hsame|_].
    + destruct Hfresh. rewrite Hsame.
      apply (list_elem_of_fmap_2 node), (list_elem_of_lookup_2 _ i), Hi.
    + rewrite (IH (from + 1) i Hnodes Hi). lia.
Qed.

Lemma positions_from (e : Engine) (all elements : list Anchor) (from : nat) :
  (∀ i a, elements !! i = Some a →
          pos (page_link e all a) = Z.of_nat (from + i)) →
  pos <$> (page_link e all <$> elements)
  = Z.of_nat <$> seq from (length elements).
Proof.
  revert from. induction elements as [|a rest IH]; intros from Hpos; [done|].
  cbn [length seq]. rewrite !fmap_cons. f_equal.
  - rewrite (Hpos 0%nat a eq_refl). f_equal. lia.
  - apply IH. intros i b Hi. rewrite (Hpos (S i) b Hi). f_equal. lia.
Qed.

(** X15. [pos] is the index of the anchor.  The elements that
    [querySelectorAll] returns are distinct nodes, so the [indexOf] of
    the script finds each element at its own index, the second
    argument of the [map] callback: the positions of the entries of
    [pages] form a subsequence of 0, 1, 2, ... (in increasing order,
    with a gap for every anchor that the filter has dropped). *)
Theorem pos_is_the_index (p : Page) :
  let elements := filter in_pagination (anchors p) in
  NoDup (map node elements) →
  (∀ i a, elements !! i = Some a →
          pos (page_link (engine p) elements a) = Z.of_nat i) ∧
  pos <$> discover_pages p `sublist_of` Z.of_nat <$> seq 0 (length elements).
Proof.
  intros elements Hnodes.
  assert (∀ i a, elements !! i = Some a →
                 pos (page_link (engine p) elements a) = Z.of_nat i) as Hpos.
  { intros i a Hi. cbn [pos page_link]. unfold indexOf.
    by rewrite (indexOf_from_lookup elements 0 i a Hnodes Hi). }
  split; [exact Hpos|].
  rewrite discover_pages_unsorted. unfold filtered_links. fold elements.
  rewrite <- (positions_from (engine p) elements elements 0) by exact Hpos.
  apply fmap_sublist, sublist_filter.
Qed.

Lemma pos_is_the_index_witness :
  let p := Fixture.page_after 0 in
  NoDup (map node (filter in_pagination (anchors p))) ∧
  pos <$> discover_pages p `sublist_of` Z.of_nat <$> seq 0 5.
Proof.
  cbv zeta.
  assert (NoDup (map node (filter in_pagination (anchors (Fixture.page_after 0)))))
    as Hnodes by (apply (bool_decide_unpack _); vm_compute; exact I).
  split; [exact Hnodes|].
  exact (proj2 (pos_is_the_index (Fixture.page_after 0) Hnodes)).
Defined.

(** ** The manager's registries *)

(** X16. [get] and [listen] on the names of the registries: each name
    finds the class registered under it, and the instance is made with
    the page of the manager, so that both throw "Missing page
    instance" before [initialize]; neither asks the browser anything,
    pushes a record, or attaches the listener it returns. *)
Theorem registered_names_are_found (s : Session) :
  (∀ service,
     get (service_name service) s
     = (match _page s with
        | Some _ => Returned service
        | None => Threw "Missing page instance"
        end, s)) ∧
  (∀ l,
     listen (listener_name l) s
     = (match _page s with
        | Some page => Returned {| listener_page := page; listener_class := l |}
        | None => Threw "Missing page instance"
        end, s)).
Proof.
  split.
  - intros service.
    assert (get (service_name service) = (get_page;; ret service)) as ->
      by (by destruct service).
    unfold bind, get_page, ret. by destruct (_page s).
  - intros l.
    assert (listen (listener_name l) = new_listener l) as ->
      by (by destruct l).
    unfold new_listener, bind, get_page, ret. by destruct (_page s).
Qed.

(** The handles that a completed [initialize] leaves: the page is the
    one its [newPage] has opened, and the new listeners are on it; the
    browser is the one its first request has got, or the one the
    manager had when the options name none. *)
Lemma initialize_handles (browser : Browser) (options : Options) (s s' : Session) :
  initialize browser options s = (Returned tt, s') →
  ∃ p,
    _page s' = Some p ∧ (length (history s) ≤ p)%nat ∧
    history s' !! p = Some NewPage ∧
    attached s' = attached s ++ listeners_of p ∧
    match opening options with
    | [] => _browser s' = _browser s
    | first :: _ =>
        _browser s' = Some (length (history s)) ∧
        history s' !! length (history s) = Some first
    end.
Proof.
  intros Hrun. unfold initialize in Hrun.
  set (first := if bool_decide (is_Some (browserWSEndpoint options)) then _ else _)
    in Hrun.
  assert (∀ r s1,
            (let* b := create browser r in set_browser b) s = (Returned tt, s1) →
            _browser s1 = Some (length (history s)) ∧
            attached s1 = attached s ∧
            ∃ answers, history s1 = history s ++ r :: answers) as Hopen.
  { intros r s1. unfold bind, create, bind, ret, set_browser.
    destruct (await_inv browser r s) as [Hheard _].
    destruct (await browser r s) as [[page| |] s0]; [|done..].
    intros [= <-]. split; [done|].
    destruct Hheard as [_ _ Hattached (answers & Hhistory & _) _].
    split; [done|].
    exists answers. simpl in *. by rewrite Hhistory, <- app_assoc. }
  assert (∃ s1, first s = (Returned tt, s1) ∧
                (∃ more, history s1 = history s ++ more) ∧
                attached s1 = attached s ∧
                match opening options with
                | [] => _browser s1 = _browser s
                | r :: _ =>
                    _browser s1 = Some (length (history s)) ∧
                    history s1 !! length (history s) = Some r
                end) as (s1 & Hfirst & (more & Hmore) & Hattached1 & Hbrowser).
  { unfold bind at 1 in Hrun.
    destruct (first s) as [[[]|msg|] s1] eqn:Hfirst; [|done..].
    exists s1. split; [done|]. subst first. unfold opening.
    destruct (bool_decide (is_Some (browserWSEndpoint options)));
      [|destruct (bool_decide (is_Some (executablePath options)))].
    - destruct (Hopen _ _ Hfirst) as (Hb & Ha & answers & Hhistory).
      split; [by eauto|]. split; [done|]. split; [done|].
      rewrite Hhistory. by apply list_lookup_middle.
    - destruct (Hopen _ _ Hfirst) as (Hb & Ha & answers & Hhistory).
      split; [by eauto|]. split; [done|]. split; [done|].
      rewrite Hhistory. by apply list_lookup_middle.
    - injection Hfirst as <-. split; [|done]. exists []. by rewrite app_nil_r. }
  unfold bind at 1 in Hrun. rewrite Hfirst in Hrun.
  unfold bind at 1, get_browser at 1 in Hrun.
  destruct (_browser s1) as [b|] eqn:Hb; [|done].
  unfold bind at 1, create, bind at 1, ret at 1 in Hrun.
  destruct (await_inv browser NewPage s1) as [Hheard _].
  destruct (await browser NewPage s1) as [[page| |] s2]; [|done..].
  cbn [fst snd] in Hheard.
  destruct Hheard as [_ Hb2 Ha2 (answers & Hh2 & _) _]. simpl in Hb2, Ha2, Hh2.
  unfold listenersRegistry at 1 in Hrun. cbn [map_M] in Hrun.
  unfold new_listener in Hrun.
  unfold bind, set_page, get_page, ret in Hrun. cbn [_page with_page] in Hrun.
  rewrite filter_all_listeners in Hrun.
  pose proof (attach_all browser (length (history s1))
                (with_page (length (history s1)) s2)) as Hall.
  cbv zeta in Hall.
  change [{| listener_page := length (history s1);
             listener_class := RequestInterceptorListener |};
          {| listener_page := length (history s1);
             listener_class := ResponseInterceptorListener |}]
    with (listeners_of (length (history s1))) in Hrun.
  destruct (for_each (onInitialize browser) (listeners_of (length (history s1)))
              (with_page (length (history s1)) s2)) as [[[]|msg|] s3]; [|done..].
  injection Hrun as <-. cbn [fst snd] in Hall.
  destruct Hall as ((requests & Hh3 & _) & Hp3 & Hb3 & Ha3).
  simpl in Hh3, Hp3, Hb3, Ha3.
  assert (history s3 = history s1 ++ NewPage :: answers ++ requests) as Hhistory.
  { rewrite Hh3, Hh2. by rewrite <- !app_assoc. }
  exists (length (history s1)). split; [done|].
  split; [rewrite Hmore, length_app; lia|].
  split; [rewrite Hhistory; by apply list_lookup_middle|].
  split; [by rewrite Ha3, Ha2, Hattached1|].
  rewrite Hb3, Hb2, Hb. destruct (opening options) as [|r ?]; [done|].
  destruct Hbrowser as [Hfresh Hat]. split; [done|].
  rewrite Hhistory. by apply lookup_app_l_Some.
Qed.

Lemma registered_app (page : nat) (s : Session) (before after : list RequestListener) :
  attached s = before ++ after →
  registered page s
  = (listener_class <$> filter (λ l, listener_page l = page) before)
    ++ (listener_class <$> filter (λ l, listener_page l = page) after).
Proof. intros Hattached. unfold registered. by rewrite Hattached, filter_app, fmap_app. Qed.

Lemma listeners_of_page (page p : nat) :
  listener_class <$> filter (λ l, listener_page l = page) (listeners_of p)
  = if bool_decide (p = page) then listenersRegistry else [].
Proof.
  unfold listeners_of, listenersRegistry. cbn [fmap list_fmap].
  destruct (decide (p = page)) as [Heq|Hne].
  - rewrite bool_decide_eq_true_2 by done. by rewrite !filter_cons_True.
  - rewrite bool_decide_eq_false_2 by done. by rewrite !filter_cons_False.
Qed.

(** X17. [initialize] is not idempotent.  A second [initialize] on the
    same manager opens a second page, and gets a second browser when
    its options name one (with neither key it opens the page in the
    browser that the manager has); nothing is closed on the way, and
    the manager keeps the new handles only: the first page, and the
    first browser if it was replaced, are left open with nothing in
    the manager to close them by.  Each [initialize] makes its two
    listeners for the page it has opened and subscribes them to that
    page: after the second, the first page still has its two listeners
    and the second has two of its own, so on a manager that was fresh
    an event of either page sets off one handler of each class. *)
Theorem initialize_twice_keeps_nothing_closed (browser : Browser)
    (options options' : Options) (s s1 s2 : Session) :
  initialize browser options s = (Returned tt, s1) →
  initialize browser options' s1 = (Returned tt, s2) →
  ∃ p1 p2,
    _page s1 = Some p1 ∧ _page s2 = Some p2 ∧ (p1 < p2)%nat ∧
    history s2 !! p1 = Some NewPage ∧ history s2 !! p2 = Some NewPage ∧
    Forall (λ r, is_close r = false) (drop (length (history s)) (history s2)) ∧
    attached s2 = attached s ++ listeners_of p1 ++ listeners_of p2 ∧
    (attached s = [] →
     registered p1 s2 = listenersRegistry ∧ registered p2 s2 = listenersRegistry) ∧
    match opening options' with
    | [] => _browser s2 = _browser s1
    | first :: _ =>
        _browser s2 = Some (length (history s1)) ∧
        history s2 !! length (history s1) = Some first
    end.
Proof.
  intros Hfirst Hsecond.
  destruct (initialize_handles browser options s s1 Hfirst)
    as (p1 & Hp1 & Hle1 & Hat1 & Hattached1 & Hbrowser1).
  destruct (initialize_handles browser options' s1 s2 Hsecond)
    as (p2 & Hp2 & Hle2 & Hat2 & Hattached2 & Hbrowser2).
  pose proof (initialize_outcome browser options s) as [(rest & Hh1 & Hrest) _].
  pose proof (initialize_outcome browser options' s1) as [(rest' & Hh2 & Hrest') _].
  rewrite Hfirst in Hh1. rewrite Hsecond in Hh2. cbn [fst snd] in Hh1, Hh2.
  pose proof (lookup_lt_Some _ _ _ Hat1) as Hlt1.
  exists p1, p2. split; [done|]. split; [done|]. split; [lia|].
  split; [rewrite Hh2; by apply lookup_app_l_Some|]. split; [done|].
  assert (∀ o, Forall (λ r, is_close r = false) (opening o)) as Hopening.
  { intros o. unfold opening.
    destruct (bool_decide _); [|destruct (bool_decide _)]; by repeat constructor. }
  split.
  { rewrite Hh2, Hh1, <- !app_assoc, drop_app_length. rewrite !Forall_app. auto. }
  split; [by rewrite Hattached2, Hattached1, <- app_assoc|].
  split; [|by destruct (opening options')].
  intros Hfresh. rewrite Hattached1, Hfresh, app_nil_l in Hattached2.
  rewrite !(registered_app _ s2 _ _ Hattached2), !listeners_of_page.
  rewrite (bool_decide_eq_true_2 (p1 = p1)), (bool_decide_eq_true_2 (p2 = p2)) by done.
  rewrite (bool_decide_eq_false_2 (p1 = p2)), (bool_decide_eq_false_2 (p2 = p1)) by lia.
  by rewrite app_nil_r.
Qed.

Lemma initialize_twice_keeps_nothing_closed_witness :
  let options := run_options Trial.remote in
  let s1 := snd (initialize Fixture.browser options new_BrowserManager) in
  let s2 := snd (initialize Fixture.browser options s1) in
  ∃ p1 p2,
    _page s1 = Some p1 ∧ _page s2 = Some p2 ∧ (p1 < p2)%nat ∧
    history s2 !! p1 = Some NewPage ∧ history s2 !! p2 = Some NewPage ∧
    Forall (λ r, is_close r = false) (drop 0 (history s2)) ∧
    attached s2 = listeners_of p1 ++ listeners_of p2 ∧
    (attached new_BrowserManager = [] →
     registered p1 s2 = listenersRegistry ∧ registered p2 s2 = listenersRegistry) ∧
    _browser s2 = Some 3%nat ∧
    history s2 !! 3%nat = Some (Connect options).
Proof.
  cbv zeta.
  exact (initialize_twice_keeps_nothing_closed Fixture.browser
           (run_options Trial.remote) (run_options Trial.remote)
           new_BrowserManager
           (snd (initialize Fixture.browser (run_options Trial.remote)
                   new_BrowserManager))
           (snd (initialize Fixture.browser (run_options Trial.remote)
                   (snd (initialize Fixture.browser (run_options Trial.remote)
                           new_BrowserManager))))
           eq_refl eq_refl).
Defined.

(** ** More on the errors of the services *)

(** What the listeners ask depends on what has been asked, and not on
    the log. *)
Lemma callback_history (l : Listener) (event : NetEvent) (s1 s2 : Session) :
  history s1 = history s2 →
  history (snd (callback l event s1)) = history (snd (callback l event s2)).
Proof.
  intros Hhistory. destruct l, event as [request|response|read]; simpl; try done.
  - unfold on_request, bind, statePush, tell.
    destruct (bool_decide _); simpl; by rewrite Hhistory.
  - by rewrite Hhistory.
  - unfold on_text. rewrite Hhistory.
    destruct (history s2 !! read) as [[]|]; try done.
    unfold bind, catch, settle, statePush. by destruct (text r).
Qed.

Lemma callbacks_history (event : NetEvent) (listeners : list Listener)
    (s1 s2 : Session) :
  history s1 = history s2 →
  history (fold_left (λ s l, snd (callback l event s)) listeners s1)
  = history (fold_left (λ s l, snd (callback l event s)) listeners s2).
Proof.
  revert s1 s2. induction listeners as [|l listeners IH]; intros s1 s2 Hhistory;
    [done|].
  cbn [fold_left]. by apply IH, callback_history.
Qed.

Lemma emit_history (page : nat) (event : NetEvent) (s1 s2 : Session) :
  history s1 = history s2 → attached s1 = attached s2 →
  history (emit page event s1) = history (emit page event s2).
Proof.
  intros Hhistory Hattached. unfold emit, registered. rewrite Hattached.
  by apply callbacks_history.
Qed.

(** X18. [click] waits for its selector and only then clicks: when
    the selector does not appear the error of the wait is thrown on
    and no click is made; otherwise the click is the second and last
    request, and [click] ends as it does. *)
Theorem click_waits_first (browser : Browser) (selector : string) (s : Session) :
  let wait := WaitForSelector selector None in
  let run := click browser selector s in
  ∃ requests,
    history (snd run) = history s ++ requests ∧
    match rejects browser (history s) wait with
    | Some msg => fst run = Threw msg ∧ by_program requests = [wait]
    | None =>
        by_program requests = [wait; Click selector] ∧
        fst run
        = match rejects browser (history (snd (await browser wait s)))
                  (Click selector) with
          | Some msg => Threw msg
          | None => Returned tt
          end
    end.
Proof.
  intros wait run. subst run.
  set (s0 := push {| sourceName := "ClickService";
                     payload := [VString selector] |} s).
  change (click browser selector s)
    with ((await browser wait;; await browser (Click selector);; ret tt) s0).
  assert (history s0 = history s) as Hs0 by done.
  unfold bind, ret.
  destruct (await_asks browser wait s0 eq_refl) as (requests & Hhistory & Hmine & _).
  destruct (await_inv browser wait s0) as [_ Hresult].
  assert (history (snd (await browser wait s0))
          = history (snd (await browser wait s))) as Hsame.
  { unfold await. rewrite Hs0.
    assert (∀ events s1 s2, history s1 = history s2 → attached s1 = attached s2 →
              history (fold_left (λ s '(page, event), emit page event s) events s1)
              = history (fold_left (λ s '(page, event), emit page event s) events s2))
      as Hfold.
    { induction events as [|[page event] events IH]; intros s1 s2 Hh Ha; [done|].
      cbn [fold_left]. apply IH; [by apply emit_history|].
      pose proof (heard_attached _ _ (emit_heard page event s1)).
      pose proof (heard_attached _ _ (emit_heard page event s2)). congruence. }
    by destruct (rejects browser (history s) wait); apply Hfold. }
  rewrite <- Hsame.
  destruct (await browser wait s0) as [o s1]. cbn [fst snd] in *. subst o.
  rewrite Hs0 in *.
  destruct (rejects browser (history s) wait) as [msg|]; [by exists requests|].
  destruct (await_asks browser (Click selector) s1 eq_refl)
    as (requests' & Hhistory' & Hmine' & _).
  destruct (await_inv browser (Click selector) s1) as [_ Hresult'].
  destruct (await browser (Click selector) s1) as [o' s2].
  cbn [fst snd] in *. subst o'.
  exists (requests ++ requests'). rewrite by_program_app, Hmine, Hmine'.
  assert (history s2 = history s ++ requests ++ requests') as Hall
    by (by rewrite Hhistory', Hhistory, <- app_assoc).
  by destruct (rejects browser (history s1) (Click selector)).
Qed.


